(** * ddsketch/store.py: dense bin stores of a quantile sketch

    A shallow embedding of [DenseStore] and [CollapsingLowestDenseStore].
    Python integers are [Z]; a list of counters is [list Z]; an object is a
    record of its attributes; a method that mutates [self] returns the new
    object; a raised exception is the [Raise] branch of [result].

    Modelling conventions:
    - [math.ceil(a / b)] on integers is exact ceiling division ([ceil_div]);
      Python computes it through a float quotient, which agrees with the
      exact value while the operands stay below 2^53.
    - [np.sum] of a list of integers is the integer sum ([sumZ]); numpy
      returns a 64-bit integer, which agrees with it while the sums stay
      below 2^63.
    - in [merge], [store] is an object distinct from [self].

    The first two hold of the code only within the stated limits.  The
    calls that stay within them are described by [add_in_range] and
    [merge_in_range], and every property that goes through a growth
    computation or a sum of counters is stated for such calls. *)

From stdpp Require Import base numbers list list_numbers option.

Local Open Scope Z_scope.

(** ** Exceptions *)

Inductive exn : Set := IndexError | ZeroDivisionError | AttributeError.

Inductive result (A : Type) : Type :=
| Ok (a : A)
| Raise (e : exn).
Arguments Ok {A} a.
Arguments Raise {A} e.

Definition bind {A B} (m : result A) (k : A → result B) : result B :=
  match m with
  | Ok a => k a
  | Raise e => Raise e
  end.

Notation "'let*' x ':=' m 'in' k" := (bind m (λ x, k))
  (at level 10, x name, m at level 200, k at level 200, only parsing).

Definition succeeds {A} (m : result A) : Prop := ∃ a, m = Ok a.

(** ** Python list primitives *)

Definition len (l : list Z) : Z := Z.of_nat (length l).

(** [[0] * n]: empty when [n <= 0]. *)
Definition zeros (n : Z) : list Z := replicate (Z.to_nat n) 0.

(** Position denoted by a Python index: negative indices count from the end,
    anything outside [-len, len) raises [IndexError]. *)
Definition py_index (l : list Z) (i : Z) : result nat :=
  if decide (0 ≤ i < len l) then Ok (Z.to_nat i)
  else if decide (- len l ≤ i < 0) then Ok (Z.to_nat (len l + i))
  else Raise IndexError.

(** [l[i]] *)
Definition py_getitem (l : list Z) (i : Z) : result Z :=
  let* n := py_index l i in
  match l !! n with
  | Some v => Ok v
  | None => Raise IndexError
  end.

(** [l[i] = v] *)
Definition py_setitem (l : list Z) (i : Z) (v : Z) : result (list Z) :=
  let* n := py_index l i in Ok (<[n := v]> l).

(** [l[i] += v] *)
Definition py_iadd (l : list Z) (i : Z) (v : Z) : result (list Z) :=
  let* n := py_index l i in Ok (alter (λ x, x + v) n l).

(** [l[:k]] *)
Definition py_slice_to (l : list Z) (k : Z) : list Z :=
  if decide (0 ≤ k) then take (Z.to_nat k) l else take (Z.to_nat (len l + k)) l.

(** [l[k:]] *)
Definition py_slice_from (l : list Z) (k : Z) : list Z :=
  if decide (0 ≤ k) then drop (Z.to_nat k) l else drop (Z.to_nat (len l + k)) l.

(** [np.sum(l)] *)
Definition sumZ (l : list Z) : Z := foldr Z.add 0 l.

(** [range(a, b)] *)
Definition range (a b : Z) : list Z := seqZ a (b - a).

(** [math.ceil(a / b)] for [b ≠ 0]. *)
Definition ceil_div (a b : Z) : Z := - ((- a) `div` b).

(** ** Module constants *)

Definition INITIAL_NBINS : Z := 128.
Definition CHUNK_SIZE : Z := 128.

(** ** Objects

    [max_bins] is [None] for a [DenseStore], which has no such attribute, and
    [Some m] for a [CollapsingLowestDenseStore]. *)

Record Store : Type := mkStore {
  max_bins : option Z;
  initial_nbins : Z;
  chunk_size : Z;
  initial_chunk_size : Z;
  count : Z;
  min_key : Z;
  max_key : Z;
  bins : list Z
}.

Definition set_bins (b : list Z) (s : Store) : Store :=
  mkStore (max_bins s) (initial_nbins s) (chunk_size s) (initial_chunk_size s)
          (count s) (min_key s) (max_key s) b.
Definition set_count (c : Z) (s : Store) : Store :=
  mkStore (max_bins s) (initial_nbins s) (chunk_size s) (initial_chunk_size s)
          c (min_key s) (max_key s) (bins s).
Definition set_min_key (k : Z) (s : Store) : Store :=
  mkStore (max_bins s) (initial_nbins s) (chunk_size s) (initial_chunk_size s)
          (count s) k (max_key s) (bins s).
Definition set_max_key (k : Z) (s : Store) : Store :=
  mkStore (max_bins s) (initial_nbins s) (chunk_size s) (initial_chunk_size s)
          (count s) (min_key s) k (bins s).
Definition set_max_bins (m : option Z) (s : Store) : Store :=
  mkStore m (initial_nbins s) (chunk_size s) (initial_chunk_size s)
          (count s) (min_key s) (max_key s) (bins s).
Definition set_initial_nbins (n : Z) (s : Store) : Store :=
  mkStore (max_bins s) n (chunk_size s) (initial_chunk_size s)
          (count s) (min_key s) (max_key s) (bins s).
Definition set_initial_chunk_size (n : Z) (s : Store) : Store :=
  mkStore (max_bins s) (initial_nbins s) (chunk_size s) n
          (count s) (min_key s) (max_key s) (bins s).

(** ** class DenseStore *)

Module DenseStore.

Definition __init__ (initial_nbins chunk_size : Z) : Store :=
  {| max_bins := None;
     initial_nbins := initial_nbins;
     chunk_size := chunk_size;
     initial_chunk_size := chunk_size;
     count := 0;
     min_key := 0;
     max_key := 0;
     bins := zeros initial_nbins |}.

(** A call [DenseStore(initial_nbins, chunk_size)]: the body of [__init__]
    has no [raise]. *)
Definition new (initial_nbins chunk_size : Z) : result Store :=
  Ok (__init__ initial_nbins chunk_size).

Definition length (self : Store) : Z := len (bins self).

Definition _grow_by (self : Store) (required_growth : Z) : result Z :=
  if decide (chunk_size self = 0) then Raise ZeroDivisionError
  else Ok (chunk_size self * ceil_div required_growth (chunk_size self)).

Definition _grow_left (self : Store) (key : Z) : result Store :=
  if decide (min_key self < key) then Ok self
  else
    let* g := _grow_by self (min_key self - key) in
    let min_key' := min_key self - g in
    Ok (set_min_key min_key'
          (set_bins (zeros (min_key self - min_key') ++ bins self) self)).

Definition _grow_right (self : Store) (key : Z) : result Store :=
  if decide (max_key self > key) then Ok self
  else
    let* g := _grow_by self (key - max_key self) in
    let max_key' := max_key self + g in
    Ok (set_max_key max_key'
          (set_bins (bins self ++ zeros (max_key' - max_key self)) self)).

Definition copy (self store : Store) : result Store :=
  Ok (set_max_key (max_key store)
        (set_min_key (min_key store)
           (set_count (count store)
              (set_bins (bins store) self)))).

End DenseStore.

(** ** class CollapsingLowestDenseStore(DenseStore) *)

Module CollapsingLowestDenseStore.

(** [super().__init__()] runs with the defaults; the three assignments
    after it are the only use of the arguments. *)
Definition __init__ (max_bins initial_nbins chunk_size : Z) : Store :=
  let self := DenseStore.__init__ INITIAL_NBINS CHUNK_SIZE in
  let self := set_max_bins (Some max_bins) self in
  let self := set_initial_nbins (Z.min max_bins initial_nbins) self in
  let self := set_initial_chunk_size (Z.min max_bins chunk_size) self in
  set_bins (zeros (Z.min max_bins initial_nbins)) self.

Definition new (max_bins initial_nbins chunk_size : Z) : result Store :=
  Ok (__init__ max_bins initial_nbins chunk_size).

(** [self.max_bins] *)
Definition get_max_bins (self : Store) : result Z :=
  match max_bins self with
  | Some m => Ok m
  | None => Raise AttributeError
  end.

Definition _grow_left (self : Store) (key : Z) : result Store :=
  if decide (min_key self < key) then Ok self
  else
    let* m := get_max_bins self in
    if decide (len (bins self) >= m) then Ok self
    else
      let min_possible := max_key self - m + 1 in
      let* min_key' :=
        if decide (max_key self - key >= m) then Ok min_possible
        else
          let* g := DenseStore._grow_by self (min_key self - key) in
          Ok (Z.max (min_key self - g) min_possible) in
      Ok (set_min_key min_key'
            (set_bins (zeros (min_key self - min_key') ++ bins self) self)).

Definition _grow_right (self : Store) (key : Z) : result Store :=
  if decide (max_key self > key) then Ok self
  else
    let* m := get_max_bins self in
    if decide (key - max_key self >= m) then
      let* b := py_setitem (zeros m) 0 (count self) in
      Ok (set_bins b (set_min_key (key - m + 1) (set_max_key key self)))
    else if decide (key - min_key self >= m) then
      let min_key' := key - m + 1 in
      let ct_to_compress := sumZ (py_slice_to (bins self) (min_key' - min_key self)) in
      let b := py_slice_from (bins self) (min_key' - min_key self)
                 ++ zeros (key - max_key self) in
      let* b := py_iadd b 0 ct_to_compress in
      Ok (set_bins b (set_min_key min_key' (set_max_key key self)))
    else
      let* g := DenseStore._grow_by self (key - max_key self) in
      let max_key' := Z.min (max_key self + g) (min_key self + m) in
      Ok (set_max_key max_key'
            (set_bins (bins self ++ zeros (max_key' - max_key self)) self)).

Definition copy (self store : Store) : result Store :=
  let* m := get_max_bins store in
  DenseStore.copy (set_max_bins (Some m) self) store.

End CollapsingLowestDenseStore.

(** ** Method resolution

    [self._grow_left], [self._grow_right] and [self.copy] resolve to the
    override when [self] is a [CollapsingLowestDenseStore]. *)

Definition _grow_left (self : Store) (key : Z) : result Store :=
  match max_bins self with
  | None => DenseStore._grow_left self key
  | Some _ => CollapsingLowestDenseStore._grow_left self key
  end.

Definition _grow_right (self : Store) (key : Z) : result Store :=
  match max_bins self with
  | None => DenseStore._grow_right self key
  | Some _ => CollapsingLowestDenseStore._grow_right self key
  end.

Definition copy (self store : Store) : result Store :=
  match max_bins self with
  | None => DenseStore.copy self store
  | Some _ => CollapsingLowestDenseStore.copy self store
  end.

(** ** Methods of [DenseStore] inherited by both classes *)

(** [add], up to the growth: the lines before [idx] is computed. *)
Definition add_grow (self : Store) (key : Z) : result Store :=
  let self :=
    if decide (len (bins self) = 0)
    then set_bins (zeros (initial_chunk_size self)) self
    else self in
  if decide (count self = 0) then
    Ok (set_min_key (key - len (bins self) + 1) (set_max_key key self))
  else if decide (key < min_key self) then _grow_left self key
  else if decide (key > max_key self) then _grow_right self key
  else Ok self.

Definition add (self : Store) (key : Z) : result Store :=
  let* self := add_grow self key in
  let idx := Z.max 0 (key - min_key self) in
  let* b := py_iadd (bins self) idx 1 in
  Ok (set_count (count self + 1) (set_bins b self)).

Fixpoint key_at_rank_loop (bs : list Z) (i running_ct rank : Z) : option Z :=
  match bs with
  | [] => None
  | bin_ct :: bs' =>
      let running_ct := running_ct + bin_ct in
      if decide (running_ct >= rank) then Some i
      else key_at_rank_loop bs' (i + 1) running_ct rank
  end.

Definition key_at_rank (self : Store) (rank : Z) : Z :=
  match key_at_rank_loop (bins self) 0 0 rank with
  | Some i => i + min_key self
  | None => max_key self
  end.

(** [for i in keys: dst[i - doff] += src[i - soff]] *)
Fixpoint add_bins (dst src : list Z) (doff soff : Z) (keys : list Z) : result (list Z) :=
  match keys with
  | [] => Ok dst
  | i :: keys' =>
      let* v := py_getitem src (i - soff) in
      let* dst' := py_iadd dst (i - doff) v in
      add_bins dst' src doff soff keys'
  end.

(** The three branches of [merge] taken when both counts are non-zero; each
    returns [self] as it is just before [self.count += store.count]. *)

(** [self.max_key > store.max_key] *)
Definition merge_below (self store : Store) : result Store :=
  let* self :=
    if decide (min_key store < min_key self)
    then _grow_left self (min_key store)
    else Ok self in
  let* b :=
    add_bins (bins self) (bins store) (min_key self) (min_key store)
      (range (Z.max (min_key self) (min_key store)) (max_key store + 1)) in
  let self := set_bins b self in
  if decide (min_key self > min_key store) then
    let ct_to_compress :=
      sumZ (py_slice_to (bins store) (min_key self - min_key store)) in
    let* b := py_iadd (bins self) 0 ct_to_compress in
    Ok (set_bins b self)
  else Ok self.

(** [self.max_key <= store.max_key] and [store.min_key < self.min_key] *)
Definition merge_inside (self store : Store) : result Store :=
  let tmp := bins store in
  let* tmp :=
    add_bins tmp (bins self) (min_key store) (min_key self)
      (range (min_key self) (max_key self + 1)) in
  Ok (set_min_key (min_key store) (set_max_key (max_key store) (set_bins tmp self))).

(** [self.max_key <= store.max_key] and [store.min_key >= self.min_key] *)
Definition merge_above (self store : Store) : result Store :=
  let* self := _grow_right self (max_key store) in
  let* b :=
    add_bins (bins self) (bins store) (min_key self) (min_key store)
      (range (min_key store) (max_key store + 1)) in
  Ok (set_bins b self).

Definition merge (self store : Store) : result Store :=
  if decide (count store = 0) then Ok self
  else if decide (count self = 0) then copy self store
  else
    let* self :=
      if decide (max_key self > max_key store) then merge_below self store
      else if decide (min_key store < min_key self) then merge_inside self store
      else merge_above self store in
    Ok (set_count (count self + count store) self).

(** A run of [add] calls, in order. *)
Fixpoint add_all (self : Store) (keys : list Z) : result Store :=
  match keys with
  | [] => Ok self
  | k :: keys' => let* self := add self k in add_all self keys'
  end.

(** [enumerate(l)]: each item with its index. *)
Definition enumerate (l : list Z) : list (Z * Z) :=
  imap (λ i bin_ct, (Z.of_nat i, bin_ct)) l.

(** The body of the [for] loop of [reversed_key_at_rank], over the items in
    the order they are visited. *)
Fixpoint rank_loop (items : list (Z * Z)) (running_ct rank : Z) : option Z :=
  match items with
  | [] => None
  | (i, bin_ct) :: items' =>
      let running_ct := running_ct + bin_ct in
      if decide (running_ct >= rank) then Some i
      else rank_loop items' running_ct rank
  end.

Definition reversed_key_at_rank (self : Store) (rank : Z) : Z :=
  match rank_loop (reverse (enumerate (bins self))) 0 rank with
  | Some i => i + min_key self
  | None => min_key self
  end.

(** ** Specification vocabulary *)

(** The logical counter of key [k]: the bin at index [k - min_key] when [k]
    lies in [[min_key, max_key]], no mass outside. *)
Definition counter (s : Store) (k : Z) : Z :=
  if decide (min_key s ≤ k ≤ max_key s)
  then default 0 (bins s !! Z.to_nat (k - min_key s))
  else 0.

(** Number of occurrences of [k] in a run of keys. *)
Definition occurrences (k : Z) (keys : list Z) : Z :=
  len (filter (λ x, x = k) keys).

(** Cumulative count of all bins with key [<= k]. *)
Definition cumulative (s : Store) (k : Z) : Z :=
  sumZ (take (Z.to_nat (k - min_key s + 1)) (bins s)).

(** The state invariant kept by every operation. *)
Definition well_formed (s : Store) : Prop :=
  count s = sumZ (bins s) ∧
  Forall (λ b, 0 ≤ b) (bins s) ∧
  (count s ≠ 0 → len (bins s) = max_key s - min_key s + 1) ∧
  1 ≤ initial_chunk_size s ∧
  1 ≤ chunk_size s ∧
  (∀ m, max_bins s = Some m → 1 ≤ m).

(** The attributes that [add] and the growth methods never assign. *)
Definition same_config (s s' : Store) : Prop :=
  max_bins s' = max_bins s ∧
  initial_nbins s' = initial_nbins s ∧
  chunk_size s' = chunk_size s ∧
  initial_chunk_size s' = initial_chunk_size s.

(** Stores obtained from a constructor call with valid arguments by [add]
    and [merge] calls that returned. *)
Inductive reachable : Store → Prop :=
| reachable_dense initial_nbins chunk_size :
    1 ≤ chunk_size →
    reachable (DenseStore.__init__ initial_nbins chunk_size)
| reachable_collapsing max_bins initial_nbins chunk_size :
    1 ≤ max_bins → 1 ≤ chunk_size →
    reachable (CollapsingLowestDenseStore.__init__ max_bins initial_nbins chunk_size)
| reachable_add s key s' :
    reachable s → add s key = Ok s' → reachable s'
| reachable_merge s store s' :
    reachable s → reachable store → merge s store = Ok s' → reachable s'.

(** What [add] relies on once the growth is done: the array covers exactly
    [[min_key, max_key]], is not empty, and [key] is not above [max_key]. *)
Definition grown_for (s s1 : Store) (key : Z) : Prop :=
  same_config s s1 ∧
  count s1 = count s ∧
  count s1 = sumZ (bins s1) ∧
  Forall (λ b, 0 ≤ b) (bins s1) ∧
  len (bins s1) = max_key s1 - min_key s1 + 1 ∧
  1 ≤ len (bins s1) ∧
  key ≤ max_key s1.

(** [self] at the end of a branch of [merge], before the count is updated. *)
Definition merged (s o s1 : Store) : Prop :=
  same_config s s1 ∧
  count s1 = count s ∧
  sumZ (bins s1) = count s + count o ∧
  Forall (λ b, 0 ≤ b) (bins s1) ∧
  len (bins s1) = max_key s1 - min_key s1 + 1.

(** Two objects of the same class: both have a [max_bins] attribute or
    neither has. *)
Definition same_class (s o : Store) : Prop :=
  is_Some (max_bins s) ↔ is_Some (max_bins o).

(** Cumulative count of all bins with key [>= k]. *)
Definition cumulative_from (s : Store) (k : Z) : Z :=
  sumZ (drop (Z.to_nat (k - min_key s)) (bins s)).

(** Stores obtained from [CollapsingLowestDenseStore(m, ...)] with valid
    arguments by [add] calls and by [merge] calls among themselves. *)
Inductive capped (m : Z) : Store → Prop :=
| capped_new initial_nbins chunk_size :
    1 ≤ m → 1 ≤ chunk_size →
    capped m (CollapsingLowestDenseStore.__init__ m initial_nbins chunk_size)
| capped_add s key s' :
    capped m s → add s key = Ok s' → capped m s'
| capped_merge s store s' :
    capped m s → capped m store → merge s store = Ok s' → capped m s'.

(** Number of keys of a run at or below [k]. *)
Definition below (k : Z) (keys : list Z) : Z :=
  len (filter (λ x, x ≤ k) keys).

(** The key whose bin [add(key)] increments: [key] itself, or [min_key] when
    [key] lies below the array. *)
Definition clamp (s : Store) (key : Z) : Z := Z.max key (min_key s).

(** What a store holds of a run of keys once the low keys are folded: no
    mass below [min_key], at [min_key] all the keys at or below it, above
    [min_key] each key by itself. *)
Definition folded (s : Store) (keys : list Z) : Prop :=
  ∀ k, counter s k =
       if decide (k < min_key s) then 0
       else if decide (k = min_key s) then below k keys
       else occurrences k keys.

(** The invariant of a collapsing store with cap [m] that has counted the
    run [keys]: nothing is folded while the array is shorter than [m]. *)
Definition collapsed_view (m : Z) (s : Store) (keys : list Z) : Prop :=
  well_formed s ∧ max_bins s = Some m ∧
  count s = len keys ∧ count s ≠ 0 ∧
  folded s keys ∧
  (len (bins s) < m → below (min_key s - 1) keys = 0).

(** ** The exact range of the machine arithmetic

    Two steps of the code leave Python's unbounded integers.  [_grow_by]
    computes [math.ceil(required_growth / chunk_size)] through a float
    quotient: while both operands are below [2^53] they are floats, the
    quotient is correctly rounded and its ceiling is the exact one, which
    [ceil_div] is; beyond, the quotient is rounded, or the division raises
    [OverflowError].  [np.sum] returns a 64-bit integer, and a bin that has
    received one stays a 64-bit integer: a sum of counters is the integer
    sum, which [sumZ] and the additions on bins are, while it is below
    [2^63], and wraps beyond.  The predicates below describe the calls that
    stay within both limits; on those the embedding is the code, and the
    stores they lead to hold only counters in [[0, 2^63)]
    ([reachable_in_range_counters]). *)

(** [self.add(key)]: the growth required on either side and [chunk_size]
    are below [2^53], and the new count, which bounds every bin and every
    sum of bins, is below [2^63]. *)
Definition add_in_range (s : Store) (key : Z) : Prop :=
  count s + 1 < 2 ^ 63 ∧
  chunk_size s < 2 ^ 53 ∧
  min_key s - key < 2 ^ 53 ∧
  key - max_key s < 2 ^ 53.

(** [self.merge(store)]: likewise, the array growing towards
    [store.min_key] or [store.max_key]. *)
Definition merge_in_range (s store : Store) : Prop :=
  count s + count store < 2 ^ 63 ∧
  chunk_size s < 2 ^ 53 ∧
  min_key s - min_key store < 2 ^ 53 ∧
  max_key store - max_key s < 2 ^ 53.

(** Stores obtained from a constructor call with valid arguments by [add]
    and [merge] calls that all stayed in range, [merge] taking a store that
    is another object than [self]. *)
Inductive reachable_in_range : Store → Prop :=
| in_range_dense initial_nbins chunk_size :
    1 ≤ chunk_size →
    reachable_in_range (DenseStore.__init__ initial_nbins chunk_size)
| in_range_collapsing max_bins initial_nbins chunk_size :
    1 ≤ max_bins → 1 ≤ chunk_size →
    reachable_in_range
      (CollapsingLowestDenseStore.__init__ max_bins initial_nbins chunk_size)
| in_range_add s key s' :
    reachable_in_range s → add_in_range s key → add s key = Ok s' →
    reachable_in_range s'
| in_range_merge s store s' :
    reachable_in_range s → reachable_in_range store →
    merge_in_range s store → merge s store = Ok s' →
    reachable_in_range s'.

(** The same for collapsing stores with one cap [m]. *)
Inductive capped_in_range (m : Z) : Store → Prop :=
| capped_in_range_new initial_nbins chunk_size :
    1 ≤ m → 1 ≤ chunk_size →
    capped_in_range m
      (CollapsingLowestDenseStore.__init__ m initial_nbins chunk_size)
| capped_in_range_add s key s' :
    capped_in_range m s → add_in_range s key → add s key = Ok s' →
    capped_in_range m s'
| capped_in_range_merge s store s' :
    capped_in_range m s → capped_in_range m store →
    merge_in_range s store → merge s store = Ok s' →
    capped_in_range m s'.

(** Keys and sizes small enough that a run of [add] calls stays in range
    whatever the order of the keys. *)
Definition small (x : Z) : Prop := - 2 ^ 50 ≤ x ≤ 2 ^ 50.

(** The window of a store fed with small keys: the array stays within two
    sizes of the keys. *)
Definition in_window (s : Store) : Prop :=
  chunk_size s ≤ 2 ^ 50 ∧ initial_chunk_size s ≤ 2 ^ 50 ∧
  (count s = 0 → len (bins s) ≤ 2 ^ 50) ∧
  - 2 * 2 ^ 50 ≤ min_key s ≤ 2 ^ 50 ∧
  - 2 ^ 50 ≤ max_key s ≤ 2 * 2 ^ 50.

(** ** Proof automation *)

Ltac store_simpl :=
  unfold set_bins, set_count, set_min_key, set_max_key, set_max_bins,
    set_initial_nbins, set_initial_chunk_size in *;
  simpl in *.

(** Range side conditions at concrete stores. *)
Ltac in_range :=
  unfold add_in_range, merge_in_range, small; cbn -[Z.pow];
  unfold CHUNK_SIZE, INITIAL_NBINS; lia.

(** * Properties *)

(** ** Lists of counters *)

Section counters.
Implicit Types (l k : list Z) (i n v : Z).

Lemma len_nonneg l : 0 ≤ len l.
Proof. unfold len. lia. Qed.

Lemma len_app l k : len (l ++ k) = len l + len k.
Proof. unfold len. rewrite length_app. lia. Qed.

Lemma len_zeros n : len (zeros n) = Z.max 0 n.
Proof. unfold len, zeros. rewrite length_replicate. lia. Qed.

Lemma len_alter (f : Z → Z) (j : nat) l : len (alter f j l) = len l.
Proof. unfold len. by rewrite length_alter. Qed.

Lemma sumZ_app l k : sumZ (l ++ k) = sumZ l + sumZ k.
Proof. induction l as [|x l IH]; simpl; lia. Qed.

Lemma sumZ_zeros n : sumZ (zeros n) = 0.
Proof. unfold zeros. induction (Z.to_nat n); simpl; lia. Qed.

Lemma sumZ_alter l (j : nat) v :
  (j < length l)%nat → sumZ (alter (λ x, x + v) j l) = sumZ l + v.
Proof.
  revert j. induction l as [|x l IH]; intros [|j] Hj; simpl in *; try lia.
  specialize (IH j ltac:(lia)). unfold alter in IH. lia.
Qed.

Lemma sumZ_insert_zeros n v : 1 ≤ n → sumZ (<[0%nat := v]> (zeros n)) = v.
Proof.
  intros Hn. unfold zeros. destruct (Z.to_nat n) as [|j] eqn:E; [lia|].
  simpl. fold (zeros (Z.of_nat j)).
  change (replicate j 0) with (replicate j (0:Z)).
  assert (sumZ (replicate j 0) = 0) as ->; [|lia].
  clear. induction j; simpl; lia.
Qed.

Lemma sumZ_take_drop l (j : nat) : sumZ (take j l) + sumZ (drop j l) = sumZ l.
Proof. by rewrite <- sumZ_app, take_drop. Qed.

Lemma sumZ_nonneg l : Forall (λ b, 0 ≤ b) l → 0 ≤ sumZ l.
Proof. induction 1; simpl; lia. Qed.

Lemma sumZ_nonneg_zero l j :
  Forall (λ b, 0 ≤ b) l → sumZ l = 0 → default 0 (l !! j) = 0.
Proof.
  intros Hl. revert j. induction Hl as [|x l Hx Hl IH]; intros j Hs; [done|].
  simpl in Hs. pose proof (sumZ_nonneg l Hl).
  destruct j; simpl; [lia|]. apply IH. lia.
Qed.

Lemma nonneg_zeros n : Forall (λ b, 0 ≤ b) (zeros n).
Proof. unfold zeros. apply Forall_replicate. lia. Qed.

Lemma nonneg_alter l (j : nat) v :
  0 ≤ v → Forall (λ b, 0 ≤ b) l → Forall (λ b, 0 ≤ b) (alter (λ x, x + v) j l).
Proof.
  intros Hv Hl. revert j.
  induction Hl as [|x l Hx Hl IH]; intros [|j]; simpl; [done|done|..];
    constructor; auto; try lia. apply IH.
Qed.

Lemma lookup_zeros n (j : nat) : default 0 (zeros n !! j) = 0.
Proof.
  unfold zeros. destruct (replicate (Z.to_nat n) 0 !! j) as [x|] eqn:E; [|done].
  apply lookup_replicate in E as [-> _]. done.
Qed.

(** *** Indexing *)

Lemma py_index_nonneg l i : 0 ≤ i < len l → py_index l i = Ok (Z.to_nat i).
Proof. intros. unfold py_index. by rewrite decide_True. Qed.

Lemma py_index_inv l i (j : nat) : py_index l i = Ok j → (j < length l)%nat.
Proof.
  unfold py_index, len. repeat case_decide; intros [= <-]; lia.
Qed.

Lemma py_getitem_nonneg l i :
  0 ≤ i < len l → py_getitem l i = Ok (default 0 (l !! Z.to_nat i)).
Proof.
  intros Hi. unfold py_getitem. rewrite py_index_nonneg by done. simpl.
  destruct (l !! Z.to_nat i) eqn:E; [done|].
  apply lookup_ge_None in E. unfold len in Hi. lia.
Qed.

Lemma py_iadd_nonneg l i v :
  0 ≤ i < len l → py_iadd l i v = Ok (alter (λ x, x + v) (Z.to_nat i) l).
Proof. intros. unfold py_iadd. by rewrite py_index_nonneg. Qed.

Lemma py_iadd_inv l i v l' :
  py_iadd l i v = Ok l' → ∃ j : nat, (j < length l)%nat ∧ l' = alter (λ x, x + v) j l.
Proof.
  unfold py_iadd. destruct (py_index l i) as [j|] eqn:E; [|done].
  intros [= <-]. exists j. split; [by eapply py_index_inv|done].
Qed.

Lemma py_setitem_zeros n v : 1 ≤ n → py_setitem (zeros n) 0 v = Ok (<[0%nat := v]> (zeros n)).
Proof.
  intros. unfold py_setitem. rewrite py_index_nonneg; [done|].
  rewrite len_zeros. lia.
Qed.

Lemma ceil_div_spec a b :
  0 < b → b * (ceil_div a b - 1) < a ≤ b * ceil_div a b.
Proof.
  intros Hb. unfold ceil_div.
  pose proof (Z.div_mod (- a) b ltac:(lia)).
  pose proof (Z.mod_pos_bound (- a) b Hb). nia.
Qed.

End counters.

(** ** Reading single bins *)

Section lookups.
Implicit Types (l : list Z) (i j : nat).

Lemma lookup_incr l i j v :
  (i < length l)%nat →
  default 0 (alter (λ x, x + v) i l !! j) =
  default 0 (l !! j) + (if decide (j = i) then v else 0).
Proof.
  intros Hi. rewrite list_lookup_alter. destruct (decide (i = j)) as [->|Hne].
  - rewrite decide_True by done.
    destruct (lookup_lt_is_Some_2 l j Hi) as [x ->]. done.
  - rewrite decide_False by done. lia.
Qed.

Lemma lookup_insert_zeros n c j :
  1 ≤ n →
  default 0 (<[0%nat := c]> (zeros n) !! j) = if decide (j = 0%nat) then c else 0.
Proof.
  intros Hn. rewrite list_lookup_insert. unfold zeros.
  rewrite length_replicate. destruct (decide (j = 0%nat)) as [->|Hj].
  - rewrite decide_True; [done|]. split; [done|lia].
  - rewrite decide_False by lia. apply lookup_zeros.
Qed.

Lemma lookup_prepend_zeros n l j :
  default 0 ((zeros n ++ l) !! j) =
  if decide (j < Z.to_nat n)%nat then 0 else default 0 (l !! (j - Z.to_nat n)%nat).
Proof.
  unfold zeros. destruct (decide (j < Z.to_nat n)%nat).
  - rewrite lookup_app_l by (rewrite length_replicate; lia).
    apply lookup_zeros.
  - rewrite lookup_app_r by (rewrite length_replicate; lia).
    by rewrite length_replicate.
Qed.

Lemma lookup_append_zeros n l j :
  default 0 ((l ++ zeros n) !! j) = default 0 (l !! j).
Proof.
  destruct (decide (j < length l)%nat).
  - by rewrite lookup_app_l.
  - rewrite lookup_app_r by lia. rewrite lookup_zeros.
    by rewrite (lookup_ge_None_2 l j) by lia.
Qed.

End lookups.

(** ** Growth *)

Section growth.
Implicit Types (s : Store) (key : Z).

Lemma grow_by_valid s g :
  1 ≤ chunk_size s →
  DenseStore._grow_by s g = Ok (chunk_size s * ceil_div g (chunk_size s)).
Proof. intros. unfold DenseStore._grow_by. rewrite decide_False; [done|lia]. Qed.

Lemma grow_by_bounds s g :
  1 ≤ chunk_size s →
  g ≤ chunk_size s * ceil_div g (chunk_size s) < g + chunk_size s.
Proof. intros. pose proof (ceil_div_spec g (chunk_size s)). lia. Qed.

Lemma dense_grow_left_eq s key :
  1 ≤ chunk_size s → key ≤ min_key s →
  DenseStore._grow_left s key =
    let n := chunk_size s * ceil_div (min_key s - key) (chunk_size s) in
    Ok (set_min_key (min_key s - n) (set_bins (zeros n ++ bins s) s)).
Proof.
  intros Hcs Hkey. unfold DenseStore._grow_left.
  rewrite decide_False by lia. rewrite grow_by_valid by done. simpl.
  do 5 f_equal. lia.
Qed.

Lemma dense_grow_right_eq s key :
  1 ≤ chunk_size s → max_key s ≤ key →
  DenseStore._grow_right s key =
    let n := chunk_size s * ceil_div (key - max_key s) (chunk_size s) in
    Ok (set_max_key (max_key s + n) (set_bins (bins s ++ zeros n) s)).
Proof.
  intros Hcs Hkey. unfold DenseStore._grow_right.
  rewrite decide_False by lia. rewrite grow_by_valid by done. simpl.
  do 5 f_equal. lia.
Qed.

(** Prepending or appending zero bins keeps the invariant. *)
Lemma well_formed_prepend s n k :
  well_formed s → count s ≠ 0 → 0 ≤ n → k = min_key s - n →
  well_formed (set_min_key k (set_bins (zeros n ++ bins s) s)).
Proof.
  intros (Hsum & Hnn & Hlen & Hics & Hcs & Hmb) Hc Hn ->.
  unfold well_formed. store_simpl.
  rewrite sumZ_app, sumZ_zeros, len_app, len_zeros.
  repeat split; try done; try lia.
  apply Forall_app; split; [apply nonneg_zeros|done].
Qed.

Lemma well_formed_append s n k :
  well_formed s → count s ≠ 0 → 0 ≤ n → k = max_key s + n →
  well_formed (set_max_key k (set_bins (bins s ++ zeros n) s)).
Proof.
  intros (Hsum & Hnn & Hlen & Hics & Hcs & Hmb) Hc Hn ->.
  unfold well_formed. store_simpl.
  rewrite sumZ_app, sumZ_zeros, len_app, len_zeros.
  repeat split; try done; try lia.
  apply Forall_app; split; [done|apply nonneg_zeros].
Qed.

Lemma grow_left_well_formed s key :
  well_formed s → count s ≠ 0 →
  ∃ s', _grow_left s key = Ok s' ∧ well_formed s' ∧ same_config s s' ∧
        count s' = count s ∧ max_key s' = max_key s ∧ min_key s' ≤ min_key s.
Proof.
  intros Hwf Hc.
  pose proof Hwf as (Hsum & Hnn & Hlen & Hics & Hcs & Hmb).
  specialize (Hlen Hc).
  unfold _grow_left. destruct (max_bins s) as [m|] eqn:Em.
  - specialize (Hmb m eq_refl).
    unfold CollapsingLowestDenseStore._grow_left,
      CollapsingLowestDenseStore.get_max_bins.
    rewrite Em. simpl.
    destruct (decide (min_key s < key)); [by exists s|].
    destruct (decide (len (bins s) >= m)); [by exists s|].
    destruct (decide (max_key s - key >= m)); simpl.
    + eexists. split; [done|]. split.
      { apply well_formed_prepend; try done; lia. }
      store_simpl. repeat split; lia.
    + rewrite grow_by_valid by done. simpl.
      pose proof (grow_by_bounds s (min_key s - key) Hcs).
      eexists. split; [done|]. split.
      { apply well_formed_prepend; try done; lia. }
      store_simpl. repeat split; lia.
  - destruct (decide (min_key s < key)).
    + unfold DenseStore._grow_left. rewrite decide_True by done. by exists s.
    + rewrite dense_grow_left_eq by lia. simpl.
      pose proof (grow_by_bounds s (min_key s - key) Hcs).
      eexists. split; [done|]. split.
      { apply well_formed_prepend; try done; lia. }
      store_simpl. repeat split; lia.
Qed.

End growth.

Section growth_right.
Implicit Types (s : Store) (key : Z).

Lemma len_drop (l : list Z) (j : nat) : len (drop j l) = Z.max 0 (len l - Z.of_nat j).
Proof. unfold len. rewrite length_drop. lia. Qed.

Lemma nonneg_take (l : list Z) (j : nat) :
  Forall (λ b, 0 ≤ b) l → Forall (λ b, 0 ≤ b) (take j l).
Proof. apply Forall_take. Qed.

Lemma nonneg_drop (l : list Z) (j : nat) :
  Forall (λ b, 0 ≤ b) l → Forall (λ b, 0 ≤ b) (drop j l).
Proof. apply Forall_drop. Qed.

(** Case (a) of the collapsing right growth: everything in the first bin. *)
Lemma well_formed_reset s m key :
  well_formed s → max_bins s = Some m →
  well_formed
    (set_bins (<[0%nat := count s]> (zeros m))
       (set_min_key (key - m + 1) (set_max_key key s))).
Proof.
  intros (Hsum & Hnn & Hlen & Hics & Hcs & Hmb) Em.
  specialize (Hmb m Em). unfold well_formed. store_simpl.
  rewrite sumZ_insert_zeros by done.
  repeat split; try done.
  - apply Forall_insert; [apply nonneg_zeros|].
    rewrite Hsum. by apply sumZ_nonneg.
  - intros _. unfold len. rewrite length_insert.
    fold (len (zeros m)). rewrite len_zeros. lia.
  - intros m' ?. by simplify_eq.
Qed.

(** Case (b): the bins below the new [min_key] are folded into bin 0. *)
Lemma well_formed_shift s m key :
  well_formed s → count s ≠ 0 → max_bins s = Some m →
  max_key s ≤ key → key - max_key s < m → m ≤ key - min_key s →
  let k := key - m + 1 - min_key s in
  let b := py_slice_from (bins s) k ++ zeros (key - max_key s) in
  let ct := sumZ (py_slice_to (bins s) k) in
  py_iadd b 0 ct = Ok (alter (λ x, x + ct) 0%nat b) ∧
  well_formed
    (set_bins (alter (λ x, x + ct) 0%nat b)
       (set_min_key (key - m + 1) (set_max_key key s))).
Proof.
  intros (Hsum & Hnn & Hlen & Hics & Hcs & Hmb) Hc Em Hk1 Hk2 Hk3 k b ct.
  specialize (Hmb m Em). specialize (Hlen Hc).
  assert (0 ≤ k) as Hk by (unfold k; lia).
  assert (len b = m) as Hb.
  { unfold b, py_slice_from. rewrite decide_True by done.
    rewrite len_app, len_drop, len_zeros. unfold k. lia. }
  assert (sumZ b + ct = sumZ (bins s)) as Hs.
  { unfold b, ct, py_slice_from, py_slice_to. rewrite !decide_True by done.
    rewrite sumZ_app, sumZ_zeros.
    pose proof (sumZ_take_drop (bins s) (Z.to_nat k)). lia. }
  assert (0 ≤ ct) as Hct.
  { unfold ct, py_slice_to. rewrite decide_True by done.
    by apply sumZ_nonneg, nonneg_take. }
  split.
  { rewrite py_iadd_nonneg by lia. done. }
  unfold well_formed. store_simpl.
  rewrite sumZ_alter by (unfold len in Hb; lia).
  rewrite len_alter, Hb.
  repeat split; try done; try lia.
  - apply nonneg_alter; [done|]. unfold b, py_slice_from.
    rewrite decide_True by done.
    apply Forall_app; split; [by apply nonneg_drop|apply nonneg_zeros].
  - intros m' ?. by simplify_eq.
Qed.

Lemma grow_right_well_formed s key :
  well_formed s → count s ≠ 0 →
  ∃ s', _grow_right s key = Ok s' ∧ well_formed s' ∧ same_config s s' ∧
        count s' = count s ∧ key ≤ max_key s'.
Proof.
  intros Hwf Hc.
  pose proof Hwf as (Hsum & Hnn & Hlen & Hics & Hcs & Hmb).
  specialize (Hlen Hc).
  unfold _grow_right. destruct (max_bins s) as [m|] eqn:Em.
  - specialize (Hmb m eq_refl).
    unfold CollapsingLowestDenseStore._grow_right,
      CollapsingLowestDenseStore.get_max_bins.
    rewrite Em. simpl.
    destruct (decide (max_key s > key)).
    { exists s. split; [done|]. split; [done|]. repeat split; lia. }
    destruct (decide (key - max_key s >= m)).
    { rewrite py_setitem_zeros by done. simpl.
      eexists. split; [done|]. split; [by apply well_formed_reset|].
      store_simpl. repeat split; lia. }
    destruct (decide (key - min_key s >= m)).
    { destruct (well_formed_shift s m key) as [-> Hwf']; try done; try lia.
      simpl. eexists. split; [done|]. split; [done|].
      store_simpl. repeat split; lia. }
    rewrite grow_by_valid by done. simpl.
    pose proof (grow_by_bounds s (key - max_key s) Hcs).
    eexists. split; [done|]. split.
    { apply well_formed_append; try done; lia. }
    store_simpl. repeat split; lia.
  - destruct (decide (max_key s > key)).
    + unfold DenseStore._grow_right. rewrite decide_True by done.
      exists s. split; [done|]. split; [done|]. repeat split; lia.
    + rewrite dense_grow_right_eq by lia. simpl.
      pose proof (grow_by_bounds s (key - max_key s) Hcs).
      eexists. split; [done|]. split.
      { apply well_formed_append; try done; lia. }
      store_simpl. repeat split; lia.
Qed.

End growth_right.

(** ** [add] *)

Section add.
Implicit Types (s : Store) (key : Z).

Lemma same_config_refl s : same_config s s.
Proof. by repeat split. Qed.

Lemma sumZ_nonzero_len (l : list Z) : sumZ l ≠ 0 → 1 ≤ len l.
Proof. destruct l; simpl; [done|]. unfold len. simpl. lia. Qed.

Lemma counted_nonempty s :
  well_formed s → count s ≠ 0 →
  1 ≤ len (bins s) ∧ len (bins s) = max_key s - min_key s + 1.
Proof.
  intros (Hsum & _ & Hlen & _) Hc. split; [|by apply Hlen].
  apply sumZ_nonzero_len. by rewrite <- Hsum.
Qed.

(** With a non-zero count, the growth step of [add] is the choice between
    the two growth methods. *)
Lemma add_grow_counted s key :
  well_formed s → count s ≠ 0 →
  add_grow s key =
    if decide (key < min_key s) then _grow_left s key
    else if decide (key > max_key s) then _grow_right s key
    else Ok s.
Proof.
  intros Hwf Hc. destruct (counted_nonempty s Hwf Hc) as [Hpos _].
  unfold add_grow. destruct (decide (len (bins s) = 0)); [lia|].
  by rewrite decide_False.
Qed.

Lemma add_grow_spec s key :
  well_formed s → ∃ s1, add_grow s key = Ok s1 ∧ grown_for s s1 key.
Proof.
  intros Hwf.
  pose proof Hwf as (Hsum & Hnn & Hlen & Hics & Hcs & Hmb).
  unfold add_grow. destruct (decide (len (bins s) = 0)) as [Hz|Hz].
  { assert (bins s = []) as Hnil.
    { destruct (bins s); [done|]. unfold len in Hz. simpl in Hz. lia. }
    assert (count s = 0) as Hc by (by rewrite Hsum, Hnil).
    store_simpl. rewrite decide_True by done.
    eexists. split; [done|]. unfold grown_for. store_simpl.
    rewrite sumZ_zeros, len_zeros.
    repeat split; try done; try lia. apply nonneg_zeros. }
  pose proof (len_nonneg (bins s)).
  destruct (decide (count s = 0)) as [Hc|Hc].
  { eexists. split; [done|]. unfold grown_for. store_simpl.
    repeat split; try done; lia. }
  specialize (Hlen Hc).
  destruct (decide (key < min_key s)).
  { destruct (grow_left_well_formed s key Hwf Hc)
      as (s' & -> & Hwf' & Hcfg & Hc' & Hmax & Hmin).
    exists s'. split; [done|].
    destruct Hwf' as (Hsum' & Hnn' & Hlen' & _).
    rewrite Hc' in Hlen'. specialize (Hlen' Hc).
    repeat split; try done; try apply Hcfg; lia. }
  destruct (decide (key > max_key s)).
  { destruct (grow_right_well_formed s key Hwf Hc)
      as (s' & -> & Hwf' & Hcfg & Hc' & Hmax).
    exists s'. split; [done|].
    destruct Hwf' as (Hsum' & Hnn' & Hlen' & _).
    rewrite Hc' in Hlen'. specialize (Hlen' Hc).
    repeat split; try done; try apply Hcfg.
    apply sumZ_nonzero_len. lia. }
  exists s. split; [done|]. repeat split; try done; lia.
Qed.

Lemma add_spec s key :
  well_formed s →
  ∃ s1, add_grow s key = Ok s1 ∧ grown_for s s1 key ∧
    let idx := Z.max 0 (key - min_key s1) in
    let s' := set_count (count s1 + 1)
                (set_bins (alter (λ x, x + 1) (Z.to_nat idx) (bins s1)) s1) in
    0 ≤ idx < len (bins s1) ∧ add s key = Ok s' ∧ well_formed s'.
Proof.
  intros Hwf. destruct (add_grow_spec s key Hwf) as (s1 & Hg & Hs1).
  exists s1. split; [done|]. split; [done|].
  destruct Hs1 as (Hcfg & Hc & Hsum & Hnn & Hlen & Hpos & Hkey).
  assert (0 ≤ Z.max 0 (key - min_key s1) < len (bins s1)) as Hidx by lia.
  simpl. split; [done|]. split.
  { unfold add. rewrite Hg. simpl. by rewrite py_iadd_nonneg. }
  destruct Hwf as (_ & _ & _ & Hics & Hcs & Hmb).
  destruct Hcfg as (Hc1 & Hc2 & Hc3 & Hc4).
  unfold well_formed. store_simpl.
  rewrite sumZ_alter by (unfold len in Hidx; lia). rewrite len_alter.
  repeat split; try lia.
  - apply nonneg_alter; [lia|done].
  - by rewrite Hc1.
Qed.

End add.

(** ** The bin-adding loop of [merge] *)

Section add_bins.
Implicit Types (dst src : list Z) (doff soff : Z) (keys : list Z).

Lemma bind_Ok {A B} (m : result A) (k : A → result B) b :
  bind m k = Ok b → ∃ a, m = Ok a ∧ k a = Ok b.
Proof. destruct m as [a|]; simpl; [|done]. intros. by exists a. Qed.

(** Whatever bins of [dst] the loop reaches, the mass of [dst] grows by the
    mass read from [src]. *)
Lemma add_bins_sum dst src doff soff keys dst' :
  add_bins dst src doff soff keys = Ok dst' →
  Forall (λ i, 0 ≤ i - soff < len src) keys →
  length dst' = length dst ∧
  sumZ dst' =
    sumZ dst + sumZ ((λ i, default 0 (src !! Z.to_nat (i - soff))) <$> keys) ∧
  (Forall (λ b, 0 ≤ b) src → Forall (λ b, 0 ≤ b) dst → Forall (λ b, 0 ≤ b) dst').
Proof.
  revert dst. induction keys as [|i keys IH]; intros dst Hrun Hkeys; simpl in *.
  { injection Hrun as <-. repeat split; [lia|done]. }
  apply Forall_cons_1 in Hkeys as [Hi Hkeys].
  rewrite py_getitem_nonneg in Hrun by done. simpl in Hrun.
  apply bind_Ok in Hrun as (dst1 & Hadd & Hrun).
  apply py_iadd_inv in Hadd as (j & Hj & ->).
  destruct (IH _ Hrun Hkeys) as (Hlen & Hsum & Hnn).
  rewrite length_alter in Hlen. rewrite sumZ_alter in Hsum by done.
  unfold fmap in *.
  repeat split; [done|lia|].
  intros Hsrc Hdst. apply Hnn; [done|]. apply nonneg_alter; [|done].
  destruct (src !! Z.to_nat (i - soff)) as [x|] eqn:E; simpl; [|lia].
  eapply Forall_lookup_1 in E; [|exact Hsrc]. done.
Qed.

Lemma fmap_lookup_seqZ src soff (a n : Z) :
  0 ≤ a → 0 ≤ n → a + n ≤ len src →
  (λ i, default 0 (src !! Z.to_nat (i - soff))) <$> seqZ (soff + a) n =
  take (Z.to_nat n) (drop (Z.to_nat a) src).
Proof.
  intros Ha Hn Hlen. apply list_eq. intros j.
  rewrite list_lookup_fmap, lookup_take, lookup_drop.
  destruct (decide (j < Z.to_nat n)%nat) as [Hj|Hj].
  - rewrite lookup_seqZ_lt by lia. simpl.
    replace (Z.to_nat (soff + a + Z.of_nat j - soff)) with (Z.to_nat a + j)%nat by lia.
    destruct (src !! (Z.to_nat a + j)%nat) eqn:E; [done|].
    apply lookup_ge_None in E. unfold len in Hlen. lia.
  - rewrite lookup_seqZ_ge by lia. done.
Qed.

(** Read from key [lo] up to the last bin of [src], the loop sees the mass
    of [src] from that key on. *)
Lemma sumZ_range_drop src soff (lo hi : Z) :
  soff ≤ lo → len src = hi - soff →
  sumZ ((λ i, default 0 (src !! Z.to_nat (i - soff))) <$> range lo hi) =
  sumZ (drop (Z.to_nat (lo - soff)) src).
Proof.
  intros Hlo Hlen. unfold range. destruct (decide (lo ≤ hi)) as [Hle|Hgt].
  - replace lo with (soff + (lo - soff)) at 1 by lia.
    rewrite fmap_lookup_seqZ by lia.
    rewrite take_ge; [done|]. rewrite length_drop. unfold len in Hlen. lia.
  - rewrite seqZ_nil by lia. rewrite drop_ge; [done|].
    unfold len in Hlen. lia.
Qed.

Lemma range_in_bounds src soff (lo hi : Z) :
  soff ≤ lo → hi - soff ≤ len src →
  Forall (λ i, 0 ≤ i - soff < len src) (range lo hi).
Proof. intros. unfold range. apply Forall_seqZ. intros. lia. Qed.

End add_bins.

(** ** [merge] keeps the invariant *)

Section merge_invariant.
Implicit Types (s o : Store).

Lemma merge_below_merged s o s1 :
  well_formed s → well_formed o → count s ≠ 0 → count o ≠ 0 →
  merge_below s o = Ok s1 → merged s o s1.
Proof.
  intros Hs Ho Hcs Hco Hrun. unfold merge_below in Hrun.
  apply bind_Ok in Hrun as (s0 & Hg & Hrun).
  assert (well_formed s0 ∧ same_config s s0 ∧ count s0 = count s)
    as (Hs0 & Hcfg & Hc0).
  { destruct (decide (min_key o < min_key s)).
    - destruct (grow_left_well_formed s (min_key o) Hs Hcs)
        as (s' & Hg' & ? & ? & ? & _).
      rewrite Hg' in Hg. injection Hg as <-. done.
    - injection Hg as <-. split; [done|]. split; [apply same_config_refl|done]. }
  destruct Ho as (Hsumo & Hnno & Hleno & _). specialize (Hleno Hco).
  destruct Hs0 as (Hsum0 & Hnn0 & Hlen0 & _).
  rewrite Hc0 in Hlen0. specialize (Hlen0 Hcs).
  apply bind_Ok in Hrun as (b & Hb & Hrun).
  apply add_bins_sum in Hb as (Hlb & Hsb & Hnb); [|apply range_in_bounds; lia].
  rewrite sumZ_range_drop in Hsb by lia.
  specialize (Hnb Hnno Hnn0). destruct Hcfg as (? & ? & ? & ?).
  store_simpl. destruct (decide (min_key s0 > min_key o)) as [Hlt|Hge].
  - apply bind_Ok in Hrun as (b2 & Hb2 & Hrun).
    apply py_iadd_inv in Hb2 as (j & Hj & ->). injection Hrun as <-.
    unfold merged, same_config in *. store_simpl.
    rewrite sumZ_alter by done. rewrite len_alter.
    unfold py_slice_to. rewrite decide_True by lia.
    replace (Z.max (min_key s0) (min_key o)) with (min_key s0) in Hsb by lia.
    pose proof (sumZ_take_drop (bins o) (Z.to_nat (min_key s0 - min_key o))).
    unfold len in *. repeat split; try done; try lia.
    apply nonneg_alter; [|done]. by apply sumZ_nonneg, nonneg_take.
  - injection Hrun as <-. unfold merged, same_config in *. store_simpl.
    replace (Z.to_nat (Z.max (min_key s0) (min_key o) - min_key o)) with 0%nat
      in Hsb by lia.
    rewrite drop_0 in Hsb.
    unfold len in *. repeat split; try done; lia.
Qed.

Lemma merge_inside_merged s o s1 :
  well_formed s → well_formed o → count s ≠ 0 → count o ≠ 0 →
  merge_inside s o = Ok s1 → merged s o s1.
Proof.
  intros (Hsums & Hnns & Hlens & _) (Hsumo & Hnno & Hleno & _) Hcs Hco Hrun.
  specialize (Hlens Hcs). specialize (Hleno Hco).
  unfold merge_inside in Hrun.
  apply bind_Ok in Hrun as (b & Hb & Hrun).
  apply add_bins_sum in Hb as (Hlb & Hsb & Hnb); [|apply range_in_bounds; lia].
  rewrite sumZ_range_drop in Hsb by lia.
  replace (Z.to_nat (min_key s - min_key s)) with 0%nat in Hsb by lia.
  rewrite drop_0 in Hsb.
  injection Hrun as <-. unfold merged, same_config in *. store_simpl.
  unfold len in *. repeat split; try done; try lia. by apply Hnb.
Qed.

Lemma merge_above_merged s o s1 :
  well_formed s → well_formed o → count s ≠ 0 → count o ≠ 0 →
  merge_above s o = Ok s1 → merged s o s1.
Proof.
  intros Hs (Hsumo & Hnno & Hleno & _) Hcs Hco Hrun.
  specialize (Hleno Hco). unfold merge_above in Hrun.
  apply bind_Ok in Hrun as (s0 & Hg & Hrun).
  destruct (grow_right_well_formed s (max_key o) Hs Hcs)
    as (s' & Hg' & Hs0 & Hcfg & Hc0 & _).
  rewrite Hg' in Hg. injection Hg as <-. destruct Hcfg as (? & ? & ? & ?).
  destruct Hs0 as (Hsum0 & Hnn0 & Hlen0 & _).
  rewrite Hc0 in Hlen0. specialize (Hlen0 Hcs).
  apply bind_Ok in Hrun as (b & Hb & Hrun).
  apply add_bins_sum in Hb as (Hlb & Hsb & Hnb); [|apply range_in_bounds; lia].
  rewrite sumZ_range_drop in Hsb by lia.
  replace (Z.to_nat (min_key o - min_key o)) with 0%nat in Hsb by lia.
  rewrite drop_0 in Hsb.
  injection Hrun as <-. unfold merged, same_config in *. store_simpl.
  unfold len in *. repeat split; try done; try lia. by apply Hnb.
Qed.

Lemma copy_well_formed s o s' :
  well_formed s → well_formed o → copy s o = Ok s' → well_formed s'.
Proof.
  intros (_ & _ & _ & Hics & Hcs & Hmb) (Hsum & Hnn & Hlen & _ & _ & Hmbo).
  unfold copy, CollapsingLowestDenseStore.copy,
    CollapsingLowestDenseStore.get_max_bins, DenseStore.copy.
  destruct (max_bins s) as [m|] eqn:Em.
  - destruct (max_bins o) as [mo|] eqn:Emo; simpl; [|done].
    intros [= <-]. unfold well_formed. store_simpl.
    repeat split; try done. all: intros ? [= <-]; by apply Hmbo.
  - intros [= <-]. unfold well_formed. store_simpl.
    repeat split; try done. all: by rewrite Em.
Qed.

Lemma merge_well_formed s o s' :
  well_formed s → well_formed o → merge s o = Ok s' → well_formed s'.
Proof.
  intros Hs Ho. unfold merge.
  destruct (decide (count o = 0)) as [|Hco]; [by intros [= <-]|].
  destruct (decide (count s = 0)) as [|Hcs]; [by apply copy_well_formed|].
  intros Hrun. apply bind_Ok in Hrun as (s1 & Hrun & Hret).
  assert (merged s o s1) as (Hcfg & Hc1 & Hsum & Hnn & Hlen).
  { destruct (decide (max_key s > max_key o));
      [by eapply merge_below_merged|].
    destruct (decide (min_key o < min_key s));
      [by eapply merge_inside_merged|by eapply merge_above_merged]. }
  injection Hret as <-.
  destruct Hs as (_ & _ & _ & Hics & Hcsz & Hmb).
  destruct Hcfg as (Hc1' & Hc2 & Hc3 & Hc4).
  unfold well_formed. store_simpl.
  repeat split; try done; try lia. all: by rewrite Hc1'.
Qed.

Lemma init_dense_well_formed n c : 1 ≤ c → well_formed (DenseStore.__init__ n c).
Proof.
  intros. unfold well_formed. simpl. rewrite sumZ_zeros.
  repeat split; try done. apply nonneg_zeros.
Qed.

Lemma init_collapsing_well_formed m n c :
  1 ≤ m → 1 ≤ c → well_formed (CollapsingLowestDenseStore.__init__ m n c).
Proof.
  intros. unfold well_formed. simpl. rewrite sumZ_zeros.
  repeat split; try done; try lia; try apply nonneg_zeros.
  all: by intros ? [= <-].
Qed.

Lemma reachable_well_formed s : reachable s → well_formed s.
Proof.
  induction 1 as [n c Hc|m n c Hm Hc|s key s' _ IH Hadd|s o s' _ IHs _ IHo Hm].
  - by apply init_dense_well_formed.
  - by apply init_collapsing_well_formed.
  - destruct (add_spec s key IH) as (s1 & _ & _ & _ & Hadd' & Hwf).
    rewrite Hadd' in Hadd. injection Hadd as <-. done.
  - exact (merge_well_formed s o s' IHs IHo Hm).
Qed.

End merge_invariant.

(** ** Attributes that no method assigns *)

Ltac run_inversion :=
  repeat match goal with
  | H : bind _ _ = Ok _ |- _ => apply bind_Ok in H as (? & ? & ?)
  | H : Ok _ = Ok _ |- _ => injection H as <-
  | H : Raise _ = Ok _ |- _ => discriminate H
  | H : context [decide ?P] |- _ => destruct (decide P)
  end.

Section fixed_attributes.
Implicit Types (s o : Store) (key : Z).

Lemma grow_left_chunk_size s key s' :
  _grow_left s key = Ok s' → chunk_size s' = chunk_size s.
Proof.
  unfold _grow_left, CollapsingLowestDenseStore._grow_left,
    DenseStore._grow_left. intros H.
  destruct (max_bins s); run_inversion; by store_simpl.
Qed.

Lemma grow_right_chunk_size s key s' :
  _grow_right s key = Ok s' → chunk_size s' = chunk_size s.
Proof.
  unfold _grow_right, CollapsingLowestDenseStore._grow_right,
    DenseStore._grow_right. intros H.
  destruct (max_bins s); run_inversion; by store_simpl.
Qed.

Lemma add_chunk_size s key s' :
  add s key = Ok s' → chunk_size s' = chunk_size s.
Proof.
  unfold add. intros H. apply bind_Ok in H as (s1 & Hg & H).
  apply bind_Ok in H as (b & _ & [= <-]).
  assert (chunk_size s1 = chunk_size s) as <-; [|by store_simpl].
  unfold add_grow in Hg.
  destruct (decide (len (bins s) = 0)); run_inversion; try by store_simpl.
  all: first [apply grow_left_chunk_size in Hg
             |apply grow_right_chunk_size in Hg]; by store_simpl.
Qed.

Lemma merge_chunk_size s o s' :
  merge s o = Ok s' → chunk_size s' = chunk_size s.
Proof.
  unfold merge. intros H.
  destruct (decide (count o = 0)); [by injection H as <-|].
  destruct (decide (count s = 0)).
  { unfold copy, CollapsingLowestDenseStore.copy, DenseStore.copy in H.
    destruct (max_bins s); run_inversion; by store_simpl. }
  apply bind_Ok in H as (s1 & H & [= <-]).
  assert (chunk_size s1 = chunk_size s) as <-; [|by store_simpl].
  destruct (decide (max_key s > max_key o)); [|destruct (decide (min_key o < min_key s))].
  - unfold merge_below in H. apply bind_Ok in H as (s0 & Hg & H).
    assert (chunk_size s0 = chunk_size s) as <-.
    { destruct (decide (min_key o < min_key s));
        [by eapply grow_left_chunk_size|by injection Hg as <-]. }
    apply bind_Ok in H as (b & _ & H). run_inversion; by store_simpl.
  - unfold merge_inside in H. run_inversion. by store_simpl.
  - unfold merge_above in H. apply bind_Ok in H as (s0 & Hg & H).
    apply grow_right_chunk_size in Hg as <-. run_inversion. by store_simpl.
Qed.

End fixed_attributes.

(** ** [key_at_rank] *)

Section key_at_rank.
Implicit Types (bs : list Z) (i r rank : Z).

(** The loop stops at the first bin where the running count reaches
    [rank]. *)
Lemma key_at_rank_loop_Some bs i r rank k :
  key_at_rank_loop bs i r rank = Some k →
  i ≤ k < i + len bs ∧
  rank ≤ r + sumZ (take (Z.to_nat (k - i + 1)) bs) ∧
  ∀ j, i ≤ j < k → r + sumZ (take (Z.to_nat (j - i + 1)) bs) < rank.
Proof.
  revert i r. induction bs as [|b bs IH]; intros i r Hrun; [done|].
  simpl in Hrun. destruct (decide (r + b >= rank)) as [Hge|Hlt].
  - injection Hrun as <-. unfold len. simpl.
    replace (Z.to_nat (i - i + 1)) with 1%nat by lia. simpl.
    rewrite ?take_0. simpl. repeat split; try lia.
  - apply IH in Hrun as (Hk & Hrank & Hbelow).
    unfold len in *. simpl. split; [lia|]. split.
    + replace (Z.to_nat (k - i + 1)) with (S (Z.to_nat (k - (i + 1) + 1))) by lia.
      simpl. lia.
    + intros j Hj. destruct (decide (j = i)) as [-> |Hne].
      * replace (Z.to_nat (i - i + 1)) with 1%nat by lia. simpl.
        rewrite ?take_0. simpl. lia.
      * replace (Z.to_nat (j - i + 1)) with (S (Z.to_nat (j - (i + 1) + 1))) by lia.
        simpl. specialize (Hbelow j). lia.
Qed.

Lemma key_at_rank_loop_None bs i r rank :
  Forall (λ b, 0 ≤ b) bs →
  (key_at_rank_loop bs i r rank = None ↔ r + sumZ bs < rank ∨ bs = []).
Proof.
  intros Hbs. revert i r. induction Hbs as [|b bs Hb Hbs IH]; intros i r.
  { simpl. split; auto. }
  simpl. pose proof (sumZ_nonneg bs Hbs).
  destruct (decide (r + b >= rank)) as [Hge|Hlt].
  - split; [done|]. intros [?|?]; [lia|done].
  - rewrite IH. split.
    + intros [?| ->]; [left; lia|]. simpl. left. lia.
    + intros [?|?]; [|done]. left. lia.
Qed.

End key_at_rank.

(** ** Logical counters of a [DenseStore] *)

Section dense_counters.
Implicit Types (s o : Store) (key k : Z).

Lemma counter_empty s k : well_formed s → count s = 0 → counter s k = 0.
Proof.
  intros (Hsum & Hnn & _) Hc. unfold counter. case_decide; [|done].
  apply sumZ_nonneg_zero; [done|]. by rewrite <- Hsum.
Qed.

Lemma dense_grow_left_counter s key :
  well_formed s → max_bins s = None → count s ≠ 0 → key ≤ min_key s →
  ∃ s0, _grow_left s key = Ok s0 ∧ well_formed s0 ∧ same_config s s0 ∧
    count s0 = count s ∧ max_key s0 = max_key s ∧ min_key s0 ≤ key ∧
    ∀ k, counter s0 k = counter s k.
Proof.
  intros Hwf Em Hc Hkey.
  destruct (grow_left_well_formed s key Hwf Hc)
    as (s0 & Hg & Hwf0 & Hcfg & Hc0 & Hmax & _).
  exists s0. do 5 (split; [done|]).
  destruct (counted_nonempty s Hwf Hc) as [Hpos Hlen].
  assert (1 ≤ chunk_size s) as Hcs by (by destruct Hwf as (_ & _ & _ & _ & ? & _)).
  unfold _grow_left in Hg. rewrite Em in Hg.
  rewrite dense_grow_left_eq in Hg by done. simpl in Hg. injection Hg as <-.
  pose proof (grow_by_bounds s (min_key s - key) Hcs) as Hn.
  set (n := chunk_size s * ceil_div (min_key s - key) (chunk_size s)) in *.
  store_simpl. split; [lia|]. intros k. unfold counter. store_simpl.
  rewrite lookup_prepend_zeros.
  destruct (decide (min_key s - n ≤ k ≤ max_key s)).
  - destruct (decide (Z.to_nat (k - (min_key s - n)) < Z.to_nat n)%nat).
    + rewrite decide_False by lia. done.
    + rewrite decide_True by lia. do 2 f_equal. lia.
  - rewrite decide_False by lia. done.
Qed.

Lemma dense_grow_right_counter s key :
  well_formed s → max_bins s = None → count s ≠ 0 → max_key s ≤ key →
  ∃ s0, _grow_right s key = Ok s0 ∧ well_formed s0 ∧ same_config s s0 ∧
    count s0 = count s ∧ min_key s0 = min_key s ∧ key ≤ max_key s0 ∧
    ∀ k, counter s0 k = counter s k.
Proof.
  intros Hwf Em Hc Hkey.
  destruct (grow_right_well_formed s key Hwf Hc)
    as (s0 & Hg & Hwf0 & Hcfg & Hc0 & Hmax).
  exists s0. do 4 (split; [done|]).
  destruct (counted_nonempty s Hwf Hc) as [Hpos Hlen].
  assert (1 ≤ chunk_size s) as Hcs by (by destruct Hwf as (_ & _ & _ & _ & ? & _)).
  unfold _grow_right in Hg. rewrite Em in Hg.
  rewrite dense_grow_right_eq in Hg by done. simpl in Hg. injection Hg as <-.
  pose proof (grow_by_bounds s (key - max_key s) Hcs) as Hn.
  set (n := chunk_size s * ceil_div (key - max_key s) (chunk_size s)) in *.
  store_simpl. split; [done|]. split; [lia|]. intros k. unfold counter. store_simpl.
  rewrite lookup_append_zeros.
  destruct (decide (min_key s ≤ k ≤ max_key s + n)).
  - destruct (decide (k ≤ max_key s)).
    + rewrite decide_True by lia. done.
    + rewrite decide_False by lia.
      rewrite lookup_ge_None_2; [done|]. unfold len in Hlen. lia.
  - rewrite decide_False by lia. done.
Qed.

(** The growth step of [add] on a [DenseStore] moves no mass and makes
    room for [key] itself. *)
Lemma dense_add_grow_counter s key s1 :
  well_formed s → max_bins s = None → add_grow s key = Ok s1 →
  min_key s1 ≤ key ∧ ∀ k, counter s1 k = counter s k.
Proof.
  intros Hwf Em Hg. destruct (decide (count s = 0)) as [Hc|Hc].
  - assert (∀ k, counter s k = 0) as Hzero by (intros; by apply counter_empty).
    destruct Hwf as (Hsum & Hnn & _ & Hics & _).
    unfold add_grow in Hg.
    destruct (decide (len (bins s) = 0)) as [Hz|Hz]; store_simpl;
      rewrite decide_True in Hg by done; injection Hg as <-; store_simpl.
    + rewrite len_zeros. split; [lia|]. intros k. rewrite Hzero.
      unfold counter. store_simpl. case_decide; [|done]. apply lookup_zeros.
    + pose proof (len_nonneg (bins s)). split; [lia|]. intros k. rewrite Hzero.
      unfold counter. store_simpl. case_decide; [|done].
      apply sumZ_nonneg_zero; [done|]. by rewrite <- Hsum.
  - rewrite add_grow_counted in Hg by done.
    destruct (counted_nonempty s Hwf Hc) as [Hpos Hlen].
    destruct (decide (key < min_key s)).
    { destruct (dense_grow_left_counter s key Hwf Em Hc ltac:(lia))
        as (s0 & Hg0 & _ & _ & _ & _ & ? & ?).
      rewrite Hg0 in Hg. injection Hg as <-. done. }
    destruct (decide (key > max_key s)).
    { destruct (dense_grow_right_counter s key Hwf Em Hc ltac:(lia))
        as (s0 & Hg0 & _ & _ & _ & Hmin & ? & ?).
      rewrite Hg0 in Hg. injection Hg as <-. split; [lia|done]. }
    injection Hg as <-. split; [lia|done].
Qed.

Lemma dense_add_counter s key :
  well_formed s → max_bins s = None →
  ∃ s', add s key = Ok s' ∧ well_formed s' ∧ max_bins s' = None ∧
    count s' = count s + 1 ∧
    ∀ k, counter s' k = counter s k + (if decide (k = key) then 1 else 0).
Proof.
  intros Hwf Em.
  destruct (add_spec s key Hwf) as (s1 & Hg & Hs1 & Hidx & Hadd & Hwf').
  destruct (dense_add_grow_counter s key s1 Hwf Em Hg) as [Hmin Hsame].
  destruct Hs1 as ((Hmb & _) & Hc & _ & _ & Hlen & Hpos & Hkey).
  eexists. split; [exact Hadd|]. split; [done|]. store_simpl.
  split; [congruence|]. split; [lia|]. intros k. rewrite <- Hsame.
  unfold counter. store_simpl.
  destruct (decide (min_key s1 ≤ k ≤ max_key s1)).
  - rewrite lookup_incr by (unfold len in *; lia).
    repeat case_decide; lia.
  - rewrite decide_False by lia. done.
Qed.

Lemma occurrences_cons k x keys :
  occurrences k (x :: keys) = (if decide (k = x) then 1 else 0) + occurrences k keys.
Proof.
  unfold occurrences, len. rewrite filter_cons.
  destruct (decide (x = k)); [rewrite decide_True by done|rewrite decide_False by done];
    simpl; lia.
Qed.

Lemma occurrences_app k keys1 keys2 :
  occurrences k (keys1 ++ keys2) = occurrences k keys1 + occurrences k keys2.
Proof.
  induction keys1 as [|x keys1 IH]; [done|].
  rewrite <- app_comm_cons, !occurrences_cons, IH. lia.
Qed.

Lemma dense_add_all_counter s keys :
  well_formed s → max_bins s = None →
  ∃ s', add_all s keys = Ok s' ∧ well_formed s' ∧ max_bins s' = None ∧
    count s' = count s + len keys ∧
    ∀ k, counter s' k = counter s k + occurrences k keys.
Proof.
  revert s. induction keys as [|x keys IH]; intros s Hwf Em.
  { exists s. unfold occurrences, len. simpl.
    do 3 (split; [done|]). split; [lia|]. intros. lia. }
  destruct (dense_add_counter s x Hwf Em) as (s1 & Hadd & Hwf1 & Em1 & Hc1 & Hk1).
  destruct (IH s1 Hwf1 Em1) as (s' & Hrun & Hwf' & Em' & Hc' & Hk').
  exists s'. simpl. rewrite Hadd. simpl.
  split; [done|]. split; [done|]. split; [done|]. split.
  - unfold len in *. simpl. lia.
  - intros k. rewrite Hk', Hk1, occurrences_cons. lia.
Qed.

End dense_counters.

(** ** [merge] of dense stores, counter by counter *)

Section dense_merge.
Implicit Types (s o : Store) (k : Z).

(** When every index is in range the loop returns, and each bin of [dst]
    receives the bin of [src] with the same key. *)
Lemma add_bins_pointwise src doff soff (n : nat) lo dst :
  (∀ i, lo ≤ i < lo + Z.of_nat n →
        0 ≤ i - doff < len dst ∧ 0 ≤ i - soff < len src) →
  ∃ dst', add_bins dst src doff soff (seqZ lo (Z.of_nat n)) = Ok dst' ∧
    length dst' = length dst ∧
    ∀ j : nat,
      default 0 (dst' !! j) =
      default 0 (dst !! j) +
      (if decide (lo ≤ Z.of_nat j + doff < lo + Z.of_nat n)
       then default 0 (src !! Z.to_nat (Z.of_nat j + doff - soff)) else 0).
Proof.
  revert lo dst. induction n as [|n IH]; intros lo dst Hin.
  { rewrite seqZ_nil by lia. exists dst. split; [done|]. split; [done|].
    intros j. rewrite decide_False by lia. lia. }
  rewrite seqZ_cons by lia.
  replace (Z.pred (Z.of_nat (S n))) with (Z.of_nat n) by lia. simpl.
  destruct (Hin lo ltac:(lia)) as [Hd Hs].
  rewrite py_getitem_nonneg by done. simpl.
  rewrite py_iadd_nonneg by done. simpl.
  set (v := default 0 (src !! Z.to_nat (lo - soff))).
  destruct (IH (Z.succ lo) (alter (λ x, x + v) (Z.to_nat (lo - doff)) dst))
    as (dst' & Hrun & Hlen & Hget).
  { intros i Hi. rewrite len_alter. apply Hin. lia. }
  exists dst'. split; [done|]. rewrite length_alter in Hlen. split; [done|].
  intros j. rewrite Hget. rewrite lookup_incr by (unfold len in Hd; lia).
  destruct (decide (j = Z.to_nat (lo - doff))) as [-> |Hne].
  - rewrite decide_False by lia. rewrite decide_True by lia.
    unfold v. replace (Z.of_nat (Z.to_nat (lo - doff)) + doff - soff)
      with (lo - soff) by lia. lia.
  - destruct (decide (Z.succ lo ≤ Z.of_nat j + doff < Z.succ lo + Z.of_nat n)).
    + rewrite decide_True by lia. lia.
    + rewrite decide_False by lia. lia.
Qed.

(** Adding the bins of [o] into a store whose key range covers that of
    [o] adds the counters key by key. *)
Lemma add_bins_counter s o :
  len (bins s) = max_key s - min_key s + 1 →
  len (bins o) = max_key o - min_key o + 1 →
  min_key s ≤ min_key o → min_key o ≤ max_key o → max_key o ≤ max_key s →
  ∃ b, add_bins (bins s) (bins o) (min_key s) (min_key o)
         (range (min_key o) (max_key o + 1)) = Ok b ∧
    len b = len (bins s) ∧
    ∀ k, counter (set_bins b s) k = counter s k + counter o k.
Proof.
  intros Hs Ho Hmin Hne Hmax. unfold range.
  replace (max_key o + 1 - min_key o)
    with (Z.of_nat (Z.to_nat (max_key o + 1 - min_key o))) by lia.
  destruct (add_bins_pointwise (bins o) (min_key s) (min_key o)
              (Z.to_nat (max_key o + 1 - min_key o)) (min_key o) (bins s))
    as (b & Hrun & Hlen & Hget); [lia|].
  exists b. split; [done|]. split; [unfold len; lia|].
  intros k. unfold counter. store_simpl.
  destruct (decide (min_key s ≤ k ≤ max_key s)).
  - rewrite Hget.
    replace (Z.of_nat (Z.to_nat (k - min_key s)) + min_key s) with k by lia.
    destruct (decide (min_key o ≤ k ≤ max_key o)).
    + rewrite decide_True by lia. done.
    + rewrite decide_False by lia. done.
  - rewrite decide_False by lia. lia.
Qed.

Lemma dense_merge_counter s o :
  well_formed s → well_formed o → max_bins s = None →
  count s ≠ 0 → count o ≠ 0 →
  ∃ s', merge s o = Ok s' ∧ count s' = count s + count o ∧
    ∀ k, counter s' k = counter s k + counter o k.
Proof.
  intros Hs Ho Em Hcs Hco.
  destruct (counted_nonempty s Hs Hcs) as [Hposs Hlens].
  destruct (counted_nonempty o Ho Hco) as [Hposo Hleno].
  unfold merge. rewrite !decide_False by done.
  destruct (decide (max_key s > max_key o)) as [Hgt|Hle].
  - (* the other store ends below [self.max_key] *)
    unfold merge_below.
    assert (∃ s0,
      (if decide (min_key o < min_key s) then _grow_left s (min_key o) else Ok s)
        = Ok s0 ∧
      well_formed s0 ∧ count s0 = count s ∧ max_key s0 = max_key s ∧
      min_key s0 ≤ min_key o ∧ ∀ k, counter s0 k = counter s k)
      as (s0 & -> & Hs0 & Hc0 & Hmax0 & Hmin0 & Hk0).
    { destruct (decide (min_key o < min_key s)).
      - destruct (dense_grow_left_counter s (min_key o) Hs Em Hcs ltac:(lia))
          as (s0 & ? & ? & ? & ? & ? & ? & ?).
        by exists s0.
      - exists s. do 2 (split; [done|]). repeat split; try done; lia. }
    simpl. rewrite <- Hc0 in Hcs.
    destruct (counted_nonempty s0 Hs0 Hcs) as [_ Hlen0].
    replace (Z.max (min_key s0) (min_key o)) with (min_key o) by lia.
    destruct (add_bins_counter s0 o) as (b & -> & _ & Hk); try done; try lia.
    simpl. store_simpl. rewrite decide_False by lia. simpl.
    eexists. split; [done|]. store_simpl. split; [lia|].
    intros k. rewrite <- Hk0. apply Hk.
  - destruct (decide (min_key o < min_key s)) as [Hlt|Hge].
    + (* the other store covers [self] on both sides *)
      unfold merge_inside.
      destruct (add_bins_counter o s) as (b & -> & _ & Hk); try done; try lia.
      simpl. eexists. split; [done|]. store_simpl. split; [done|].
      intros k. specialize (Hk k). unfold counter in *. store_simpl. lia.
    + (* the other store ends at or above [self.max_key] *)
      unfold merge_above.
      destruct (dense_grow_right_counter s (max_key o) Hs Em Hcs ltac:(lia))
        as (s0 & -> & Hs0 & _ & Hc0 & Hmin0 & Hmax0 & Hk0).
      simpl. rewrite <- Hc0 in Hcs.
      destruct (counted_nonempty s0 Hs0 Hcs) as [_ Hlen0].
      destruct (add_bins_counter s0 o) as (b & -> & _ & Hk); try done; try lia.
      simpl. eexists. split; [done|]. store_simpl. split; [lia|].
      intros k. rewrite <- Hk0. apply Hk.
Qed.

End dense_merge.

(** ** Calls in range *)

Section in_range.
Implicit Types (s o : Store) (key k m : Z).

Lemma reachable_in_range_reachable s : reachable_in_range s → reachable s.
Proof.
  induction 1 as [n c Hc|m n c Hm Hc|s key s' _ IH _ Hadd|s o s' _ IHs _ IHo _ Hm].
  - by apply reachable_dense.
  - by apply reachable_collapsing.
  - exact (reachable_add s key s' IH Hadd).
  - exact (reachable_merge s o s' IHs IHo Hm).
Qed.

Lemma reachable_in_range_well_formed s : reachable_in_range s → well_formed s.
Proof. intros Hr. by apply reachable_well_formed, reachable_in_range_reachable. Qed.

End in_range.

(** * Claims *)

(** C1: the bin array of a [CollapsingLowestDenseStore] should never be
    longer than [max_bins].  The code does not keep this bound: the ordinary
    right growth caps the new [max_key] at [min_key + max_bins], one past
    the last key that fits, so the array reaches [max_bins + 1] bins.  With
    [max_bins = 2] and one initial bin, [add(0); add(1)] leaves 3 bins; with
    [max_bins = 200] and the default arguments the same two calls leave 201
    bins. *)
Theorem collapsing_length_exceeds_max_bins :
  (∃ s, add_all (CollapsingLowestDenseStore.__init__ 2 1 CHUNK_SIZE) [0; 1] = Ok s ∧
        max_bins s = Some 2 ∧ DenseStore.length s = 3) ∧
  (∃ s, add_all (CollapsingLowestDenseStore.__init__ 200 INITIAL_NBINS CHUNK_SIZE) [0; 1]
          = Ok s ∧
        max_bins s = Some 200 ∧ DenseStore.length s = 201).
Proof. split; eexists; (split; [vm_compute; reflexivity|]); by vm_compute. Qed.

(** C2: in every store reached from a valid construction by [add] and
    [merge] calls that stayed in the range where the code's arithmetic is
    exact (growth operands below [2^53], counts below [2^63]), [count] is
    the sum of all bin counters; on the collapsing store's at-capacity left
    path, where the key lies below [min_key] and the array cannot grow, the
    increment lands in bin 0 and is counted, the new count being below
    [2^63]. *)
Theorem count_is_sum_of_bins s :
  reachable_in_range s →
  count s = sumZ (bins s) ∧
  (∀ m key,
     max_bins s = Some m → count s ≠ 0 → len (bins s) >= m → key < min_key s →
     count s + 1 < 2 ^ 63 →
     ∃ s', add s key = Ok s' ∧
           bins s' = alter (λ x, x + 1) 0%nat (bins s) ∧
           count s' = count s + 1 ∧ count s' = sumZ (bins s')).
Proof.
  intros Hr. pose proof (reachable_in_range_well_formed s Hr) as Hwf.
  split; [apply Hwf|]. intros m key Em Hc Hfull Hkey _.
  destruct (add_spec s key Hwf) as (s1 & Hg & _ & _ & Hadd & Hwf').
  assert (s1 = s) as ->.
  { rewrite add_grow_counted in Hg by done. rewrite decide_True in Hg by done.
    unfold _grow_left, CollapsingLowestDenseStore._grow_left,
      CollapsingLowestDenseStore.get_max_bins in Hg.
    rewrite Em in Hg. simpl in Hg.
    rewrite decide_False in Hg by lia. rewrite decide_True in Hg by done.
    by injection Hg. }
  eexists. split; [exact Hadd|].
  replace (Z.to_nat (0 `max` (key - min_key s))) with 0%nat in * by lia.
  split; [done|]. split; [done|]. apply Hwf'.
Qed.

Lemma count_is_sum_of_bins_witness :
  let s := mkStore (Some 3) 3 128 3 1 (-2) 0 [0; 0; 1] in
  count s = sumZ (bins s) ∧
  ∃ s', add s (-9) = Ok s' ∧
        bins s' = alter (λ x, x + 1) 0%nat (bins s) ∧
        count s' = count s + 1 ∧ count s' = sumZ (bins s').
Proof.
  intros s.
  assert (reachable_in_range s) as Hr.
  { apply (in_range_add (CollapsingLowestDenseStore.__init__ 3 128 128) 0).
    - apply in_range_collapsing; lia.
    - in_range.
    - reflexivity. }
  destruct (count_is_sum_of_bins s Hr) as [Hsum Hleft].
  split; [exact Hsum|].
  apply (Hleft 3 (-9)).
  - reflexivity.
  - simpl. lia.
  - unfold len. simpl. lia.
  - simpl. lia.
  - in_range.
Defined.

(** C3: for two [DenseStore]s built from valid constructions by the
    non-empty add sequences [A] and [B], merging the second into the first
    returns a store whose logical counter at every key is the number of
    occurrences of that key in [A ++ B], and whose count is [|A| + |B|];
    [add([1,2,3])] merged with [add([2,2,5])] holds [{1:1, 2:3, 3:1, 5:1}]
    and nothing else.  The keys, the chunk sizes and the initial sizes are
    at most [2^50] in absolute value and the two runs have fewer than
    [2^63] keys, which keeps every call of the two runs and the merge in
    the range where the code's arithmetic is exact ([small_run_in_range],
    [small_merge_in_range]). *)
Theorem merge_adds_counters :
  (∀ n1 c1 n2 c2 A B,
     1 ≤ c1 ≤ 2 ^ 50 → 1 ≤ c2 ≤ 2 ^ 50 → n1 ≤ 2 ^ 50 → n2 ≤ 2 ^ 50 →
     Forall small A → Forall small B →
     0 < len A → 0 < len B → len A + len B < 2 ^ 63 →
     ∃ sa sb s,
       add_all (DenseStore.__init__ n1 c1) A = Ok sa ∧
       add_all (DenseStore.__init__ n2 c2) B = Ok sb ∧
       merge sa sb = Ok s ∧
       (∀ k, counter s k = occurrences k (A ++ B)) ∧
       count s = len A + len B) ∧
  (∃ sa sb s,
     add_all (DenseStore.__init__ INITIAL_NBINS CHUNK_SIZE) [1; 2; 3] = Ok sa ∧
     add_all (DenseStore.__init__ INITIAL_NBINS CHUNK_SIZE) [2; 2; 5] = Ok sb ∧
     merge sa sb = Ok s ∧
     counter s 1 = 1 ∧ counter s 2 = 3 ∧ counter s 3 = 1 ∧ counter s 5 = 1 ∧
     ∀ k, k ≠ 1 → k ≠ 2 → k ≠ 3 → k ≠ 5 → counter s k = 0).
Proof.
  assert (∀ n1 c1 n2 c2 A B,
     1 ≤ c1 ≤ 2 ^ 50 → 1 ≤ c2 ≤ 2 ^ 50 → n1 ≤ 2 ^ 50 → n2 ≤ 2 ^ 50 →
     Forall small A → Forall small B →
     0 < len A → 0 < len B → len A + len B < 2 ^ 63 →
     ∃ sa sb s,
       add_all (DenseStore.__init__ n1 c1) A = Ok sa ∧
       add_all (DenseStore.__init__ n2 c2) B = Ok sb ∧
       merge sa sb = Ok s ∧
       (∀ k, counter s k = occurrences k (A ++ B)) ∧
       count s = len A + len B) as Hgen.
  { intros n1 c1 n2 c2 A B [Hc1 _] [Hc2 _] _ _ _ _ HA HB _.
    pose proof (init_dense_well_formed n1 c1 Hc1) as Hw1.
    pose proof (init_dense_well_formed n2 c2 Hc2) as Hw2.
    destruct (dense_add_all_counter _ A Hw1 eq_refl)
      as (sa & Ha & Hwa & Ema & Hca & Hka).
    destruct (dense_add_all_counter _ B Hw2 eq_refl)
      as (sb & Hb & Hwb & Emb & Hcb & Hkb).
    simpl in Hca, Hcb.
    destruct (dense_merge_counter sa sb Hwa Hwb Ema ltac:(lia) ltac:(lia))
      as (s & Hm & Hc & Hk).
    exists sa, sb, s. do 3 (split; [done|]). split; [|lia].
    intros k. rewrite Hk, Hka, Hkb.
    rewrite !(counter_empty _ k) by done.
    rewrite occurrences_app. lia. }
  split; [exact Hgen|].
  destruct (Hgen INITIAL_NBINS CHUNK_SIZE INITIAL_NBINS CHUNK_SIZE [1; 2; 3] [2; 2; 5])
    as (sa & sb & s & Ha & Hb & Hm & Hk & _);
    try done; try in_range; try (repeat constructor; in_range);
    try (unfold len; simpl; lia).
  exists sa, sb, s. do 3 (split; [done|]).
  rewrite !Hk. do 4 (split; [done|]).
  intros k ? ? ? ?. rewrite Hk. unfold occurrences. simpl.
  rewrite !filter_cons, filter_nil. repeat case_decide; try lia. done.
Qed.

Lemma merge_adds_counters_witness :
  ∃ sa sb s,
    add_all (DenseStore.__init__ 2 3) [4; 9] = Ok sa ∧
    add_all (DenseStore.__init__ 0 1) [7] = Ok sb ∧
    merge sa sb = Ok s ∧
    (∀ k, counter s k = occurrences k ([4; 9] ++ [7])) ∧
    count s = len [4; 9] + len [7].
Proof.
  apply (proj1 merge_adds_counters 2 3 0 1 [4; 9] [7]).
  - lia.
  - lia.
  - lia.
  - lia.
  - repeat constructor; in_range.
  - repeat constructor; in_range.
  - reflexivity.
  - reflexivity.
  - unfold len. simpl. lia.
Defined.

(** C4: on a store with [count > 0], reached by calls that stayed in the
    exact range (so that its bins are the non-negative counters, below
    [2^63], that the calls added up), for a rank in [[1, count]]
    [key_at_rank] returns the smallest key whose cumulative count (all bins
    with a key up to it) is at least the rank; for a rank above [count] it
    returns [max_key]. *)
Theorem key_at_rank_smallest_key s rank :
  reachable_in_range s → 0 < count s →
  (1 ≤ rank ≤ count s →
   let k := key_at_rank s rank in
   min_key s ≤ k ≤ max_key s ∧
   rank ≤ cumulative s k ∧
   ∀ k', k' < k → cumulative s k' < rank) ∧
  (count s < rank → key_at_rank s rank = max_key s).
Proof.
  intros Hr Hc. pose proof (reachable_in_range_well_formed s Hr) as Hwf.
  destruct (counted_nonempty s Hwf ltac:(lia)) as [Hpos Hlen].
  destruct Hwf as (Hsum & Hnn & _).
  unfold key_at_rank, cumulative. split.
  - intros Hrank.
    destruct (key_at_rank_loop (bins s) 0 0 rank) as [i|] eqn:Hrun.
    + apply key_at_rank_loop_Some in Hrun as (Hi & Hreach & Hbelow).
      simpl. split; [lia|]. split.
      * replace (i + min_key s - min_key s + 1) with (i - 0 + 1) by lia. lia.
      * intros k' Hk'. destruct (decide (min_key s ≤ k')) as [Hin|Hout].
        -- specialize (Hbelow (k' - min_key s) ltac:(lia)).
           replace (k' - min_key s - 0 + 1) with (k' - min_key s + 1) in Hbelow by lia.
           lia.
        -- replace (Z.to_nat (k' - min_key s + 1)) with 0%nat by lia.
           rewrite ?take_0. simpl. lia.
    + apply key_at_rank_loop_None in Hrun as [?|Hnil]; [lia| |done].
      rewrite Hnil in Hpos. unfold len in Hpos. simpl in Hpos. lia.
  - intros Hrank.
    assert (key_at_rank_loop (bins s) 0 0 rank = None) as ->; [|done].
    apply key_at_rank_loop_None; [done|]. left. lia.
Qed.

Lemma key_at_rank_smallest_key_witness :
  let s := mkStore None 4 2 2 4 4 7 [1; 2; 0; 1] in
  (min_key s ≤ key_at_rank s 2 ≤ max_key s ∧
   2 ≤ cumulative s (key_at_rank s 2) ∧
   ∀ k', k' < key_at_rank s 2 → cumulative s k' < 2) ∧
  key_at_rank s 5 = max_key s.
Proof.
  intros s.
  assert (reachable_in_range s) as Hr.
  { apply (in_range_add (mkStore None 4 2 2 3 4 7 [0; 2; 0; 1]) 4);
      [|in_range|reflexivity].
    apply (in_range_add (mkStore None 4 2 2 2 4 7 [0; 1; 0; 1]) 5);
      [|in_range|reflexivity].
    apply (in_range_add (mkStore None 4 2 2 1 4 7 [0; 0; 0; 1]) 5);
      [|in_range|reflexivity].
    apply (in_range_add (DenseStore.__init__ 4 2) 7);
      [|in_range|reflexivity].
    apply in_range_dense. lia. }
  split.
  - apply (key_at_rank_smallest_key s 2); [done|simpl; lia|simpl; lia].
  - apply (key_at_rank_smallest_key s 5); [done|simpl; lia|simpl; lia].
Defined.

(** C5: from a valid construction, in every state reached by [add] and
    [merge] calls in range and for every integer key within [2^53] of the
    key range, the new count being below [2^63], [add(key)] returns: the
    index [max(0, key - min_key)] lies within the array left by the growth
    step, the counter there, and no other, is incremented by 1, and [count]
    increases by 1. *)
Theorem add_never_fails s key :
  reachable_in_range s → add_in_range s key →
  ∃ s1 s',
    add_grow s key = Ok s1 ∧ add s key = Ok s' ∧
    0 ≤ Z.max 0 (key - min_key s1) < len (bins s1) ∧
    bins s' =
      alter (λ x, x + 1) (Z.to_nat (Z.max 0 (key - min_key s1))) (bins s1) ∧
    sumZ (bins s1) = sumZ (bins s) ∧
    min_key s' = min_key s1 ∧ max_key s' = max_key s1 ∧
    count s' = count s + 1.
Proof.
  intros Hr _. pose proof (reachable_in_range_well_formed s Hr) as Hwf.
  destruct (add_spec s key Hwf) as (s1 & Hg & Hs1 & Hidx & Hadd & _).
  destruct Hs1 as (_ & Hc & Hsum & _).
  eexists s1, _. split; [done|]. split; [exact Hadd|].
  store_simpl. repeat split; try done; try lia.
  rewrite <- Hsum, Hc. apply Hwf.
Qed.

Lemma add_never_fails_witness :
  let s := mkStore (Some 3) 3 128 3 1 (-2) 0 [0; 0; 1] in
  ∃ s1 s',
    add_grow s 1 = Ok s1 ∧ add s 1 = Ok s' ∧
    0 ≤ Z.max 0 (1 - min_key s1) < len (bins s1) ∧
    bins s' =
      alter (λ x, x + 1) (Z.to_nat (Z.max 0 (1 - min_key s1))) (bins s1) ∧
    sumZ (bins s1) = sumZ (bins s) ∧
    min_key s' = min_key s1 ∧ max_key s' = max_key s1 ∧
    count s' = count s + 1.
Proof.
  intros s. apply (add_never_fails s 1).
  - apply (in_range_add (CollapsingLowestDenseStore.__init__ 3 128 128) 0).
    + apply in_range_collapsing; lia.
    + in_range.
    + reflexivity.
  - in_range.
Defined.

(** C6 (as amended): construction validates nothing.  For all integer
    arguments, also [chunk_size <= 0] or [max_bins <= 0], the constructor
    raises no error and returns an empty store whose attributes are set
    from the arguments as given. *)
Theorem construction_never_raises :
  (∀ n c, ∃ s, DenseStore.new n c = Ok s ∧
     max_bins s = None ∧ chunk_size s = c ∧ initial_chunk_size s = c ∧
     count s = 0 ∧ min_key s = 0 ∧ max_key s = 0 ∧ bins s = zeros n) ∧
  (∀ m n c, ∃ s, CollapsingLowestDenseStore.new m n c = Ok s ∧
     max_bins s = Some m ∧ initial_chunk_size s = Z.min m c ∧
     count s = 0 ∧ min_key s = 0 ∧ max_key s = 0 ∧
     bins s = zeros (Z.min m n)).
Proof. split; intros; eexists; (split; [reflexivity|]); by repeat split. Qed.

(** C6, as stated (invalid arguments are rejected at construction), fails:
    [DenseStore(128, 0)] and
    [CollapsingLowestDenseStore(0, 128, 0)] are constructed without error,
    and the former accepts a first [add]. *)
Lemma construction_accepts_invalid_arguments :
  ¬ (∃ e, DenseStore.new INITIAL_NBINS 0 = Raise e) ∧
  ¬ (∃ e, CollapsingLowestDenseStore.new 0 INITIAL_NBINS 0 = Raise e) ∧
  ∃ s, DenseStore.new INITIAL_NBINS 0 = Ok s ∧ succeeds (add s 7).
Proof.
  split; [by intros [e ?]|]. split; [by intros [e ?]|].
  eexists. split; [reflexivity|]. eexists. vm_compute. reflexivity.
Qed.

(** C7: on a [CollapsingLowestDenseStore] with a non-zero count, [add(key)]
    with [key - max_key >= max_bins] returns a store with [max_key = key],
    [min_key = key - max_bins + 1] and exactly [max_bins] bins; the bin at
    [min_key] holds the whole previous count, the bins strictly between
    [min_key] and [key] are zero, and the bin at [key] has received the
    increment of 1 (for [max_bins = 1] the bin at [min_key] is the bin at
    [key] and holds the previous count plus 1).  With
    [max_bins = 3], [add(0); add(10)] gives 3 bins, count 2, and the folded
    mass 1 in the bin at [min_key = 8]. *)
Theorem collapse_far_right :
  (∀ s m key,
     reachable s → max_bins s = Some m → 0 < count s → key - max_key s >= m →
     ∃ s', add s key = Ok s' ∧
       max_key s' = key ∧ min_key s' = key - m + 1 ∧
       DenseStore.length s' = m ∧ count s' = count s + 1 ∧
       ∀ k, min_key s' ≤ k ≤ key →
         counter s' k =
           (if decide (k = min_key s') then count s else 0) +
           (if decide (k = key) then 1 else 0)) ∧
  (∃ s, add_all (CollapsingLowestDenseStore.__init__ 3 INITIAL_NBINS CHUNK_SIZE) [0; 10]
          = Ok s ∧
        DenseStore.length s ≤ 3 ∧ count s = 2 ∧
        min_key s = 8 ∧ max_key s = 10 ∧ bins s = [1; 0; 1]).
Proof.
  split; [|eexists; split; [vm_compute; reflexivity|by vm_compute]].
  intros s m key Hr Em Hc Hfar.
  pose proof (reachable_well_formed s Hr) as Hwf.
  assert (count s ≠ 0) as Hc' by lia.
  destruct (counted_nonempty s Hwf Hc') as [Hpos Hlen].
  assert (1 ≤ m) as Hm by (by apply Hwf).
  assert (len (<[0%nat := count s]> (zeros m)) = m) as Hlen'.
  { unfold len. rewrite length_insert. fold (len (zeros m)).
    rewrite len_zeros. lia. }
  unfold add. rewrite add_grow_counted by done.
  rewrite decide_False, decide_True by lia.
  unfold _grow_right, CollapsingLowestDenseStore._grow_right,
    CollapsingLowestDenseStore.get_max_bins.
  rewrite Em. simpl. rewrite decide_False, decide_True by lia.
  rewrite py_setitem_zeros by done. store_simpl.
  rewrite py_iadd_nonneg by lia. simpl.
  eexists. split; [done|]. unfold DenseStore.length, counter. store_simpl.
  rewrite len_alter.
  repeat split; try done. intros k Hk.
  rewrite decide_True by done.
  rewrite lookup_incr by (unfold len in Hlen'; lia).
  rewrite lookup_insert_zeros by done.
  repeat case_decide; lia.
Qed.

Lemma collapse_far_right_witness :
  let s := mkStore (Some 3) 3 128 3 1 (-2) 0 [0; 0; 1] in
  ∃ s', add s 10 = Ok s' ∧
    max_key s' = 10 ∧ min_key s' = 10 - 3 + 1 ∧
    DenseStore.length s' = 3 ∧ count s' = count s + 1 ∧
    ∀ k, min_key s' ≤ k ≤ 10 →
      counter s' k =
        (if decide (k = min_key s') then count s else 0) +
        (if decide (k = 10) then 1 else 0).
Proof.
  intros s. apply (proj1 collapse_far_right s 3 10).
  - apply (reachable_add (CollapsingLowestDenseStore.__init__ 3 128 128) 0).
    + apply reachable_collapsing; lia.
    + reflexivity.
  - reflexivity.
  - simpl. lia.
  - simpl. lia.
Defined.

(** C8: on a [DenseStore] with a non-zero count (and so [chunk_size >= 1]),
    reached by calls in range, and for a key within [2^53] of the key range
    with [chunk_size] below [2^53] (so that the float quotient of
    [_grow_by] has the exact ceiling),
    [add(key)] below [min_key] prepends exactly
    [chunk_size * ceil((min_key - key) / chunk_size)] zero bins and lowers
    [min_key] by that amount, [max_key] unchanged; above [max_key] it
    appends [chunk_size * ceil((key - max_key) / chunk_size)] zero bins and
    raises [max_key] by that amount, [min_key] unchanged; within
    [[min_key, max_key]] the array length and both keys are unchanged. *)
Theorem dense_growth_is_chunked s key :
  reachable_in_range s → max_bins s = None → 0 < count s →
  add_in_range s key →
  let c := chunk_size s in
  1 ≤ c ∧
  (key < min_key s →
   let q := ceil_div (min_key s - key) c in
   c * (q - 1) < min_key s - key ≤ c * q ∧
   ∃ s', add s key = Ok s' ∧
     bins s' =
       alter (λ x, x + 1) (Z.to_nat (key - min_key s')) (zeros (c * q) ++ bins s) ∧
     DenseStore.length s' = DenseStore.length s + c * q ∧
     min_key s' = min_key s - c * q ∧ max_key s' = max_key s) ∧
  (key > max_key s →
   let q := ceil_div (key - max_key s) c in
   c * (q - 1) < key - max_key s ≤ c * q ∧
   ∃ s', add s key = Ok s' ∧
     bins s' =
       alter (λ x, x + 1) (Z.to_nat (key - min_key s')) (bins s ++ zeros (c * q)) ∧
     DenseStore.length s' = DenseStore.length s + c * q ∧
     max_key s' = max_key s + c * q ∧ min_key s' = min_key s) ∧
  (min_key s ≤ key ≤ max_key s →
   ∃ s', add s key = Ok s' ∧
     DenseStore.length s' = DenseStore.length s ∧
     min_key s' = min_key s ∧ max_key s' = max_key s).
Proof.
  intros Hr Em Hc _ c. pose proof (reachable_in_range_well_formed s Hr) as Hwf.
  assert (count s ≠ 0) as Hc' by lia.
  destruct (counted_nonempty s Hwf Hc') as [Hpos Hlen].
  assert (1 ≤ c) as Hcs by (by destruct Hwf as (_ & _ & _ & _ & ? & _)).
  split; [done|].
  unfold add, DenseStore.length. rewrite add_grow_counted by done.
  unfold _grow_left, _grow_right. rewrite Em.
  split; [|split].
  - intros Hkey. set (q := ceil_div (min_key s - key) c).
    pose proof (ceil_div_spec (min_key s - key) c ltac:(lia)) as Hq. fold q in Hq.
    split; [done|]. rewrite decide_True by done.
    rewrite dense_grow_left_eq by (fold c; lia). fold c. fold q. store_simpl.
    rewrite py_iadd_nonneg by (rewrite len_app, len_zeros; lia). simpl.
    eexists. split; [done|]. store_simpl.
    rewrite len_alter, len_app, len_zeros.
    repeat split; try lia. do 2 f_equal. lia.
  - intros Hkey. set (q := ceil_div (key - max_key s) c).
    pose proof (ceil_div_spec (key - max_key s) c ltac:(lia)) as Hq. fold q in Hq.
    split; [done|]. rewrite decide_False, decide_True by lia.
    rewrite dense_grow_right_eq by (fold c; lia). fold c. fold q. store_simpl.
    rewrite py_iadd_nonneg by (rewrite len_app, len_zeros; lia). simpl.
    eexists. split; [done|]. store_simpl.
    rewrite len_alter, len_app, len_zeros.
    repeat split; try lia. do 2 f_equal. lia.
  - intros Hkey. rewrite !decide_False by lia. simpl.
    rewrite py_iadd_nonneg by lia. simpl.
    eexists. split; [done|]. store_simpl. rewrite len_alter. done.
Qed.

Lemma dense_growth_is_chunked_witness :
  let s := mkStore None 4 2 2 1 4 7 [0; 0; 0; 1] in
  (∃ s', add s 1 = Ok s' ∧ DenseStore.length s' = DenseStore.length s + 4 ∧
         min_key s' = 0 ∧ max_key s' = 7) ∧
  (∃ s', add s 8 = Ok s' ∧ DenseStore.length s' = DenseStore.length s + 2 ∧
         max_key s' = 9 ∧ min_key s' = 4) ∧
  (∃ s', add s 5 = Ok s' ∧ DenseStore.length s' = DenseStore.length s ∧
         min_key s' = 4 ∧ max_key s' = 7).
Proof.
  intros s.
  assert (reachable_in_range s) as Hr.
  { apply (in_range_add (DenseStore.__init__ 4 2) 7).
    - apply in_range_dense. lia.
    - in_range.
    - reflexivity. }
  assert (0 < count s) as Hc by (simpl; lia).
  assert (∀ key, -100 ≤ key ≤ 100 → add_in_range s key) as Hin.
  { intros key Hkey. in_range. }
  split; [|split].
  - destruct (dense_growth_is_chunked s 1 Hr eq_refl Hc (Hin 1 ltac:(lia)))
      as (_ & H & _).
    destruct (H ltac:(simpl; lia)) as (_ & s' & ? & ? & ? & ? & ?).
    exists s'. by repeat split.
  - destruct (dense_growth_is_chunked s 8 Hr eq_refl Hc (Hin 8 ltac:(lia)))
      as (_ & _ & H & _).
    destruct (H ltac:(simpl; lia)) as (_ & s' & ? & ? & ? & ? & ?).
    exists s'. by repeat split.
  - destruct (dense_growth_is_chunked s 5 Hr eq_refl Hc (Hin 5 ltac:(lia)))
      as (_ & _ & _ & H).
    destruct (H ltac:(simpl; lia)) as (s' & ? & ? & ? & ?).
    exists s'. by repeat split.
Defined.

(** C9: merging a store with [count == 0] leaves every attribute of the
    target unchanged; merging a store with [count > 0] of the same class
    into a target with [count == 0] makes the target's bins, count,
    [min_key] and [max_key] equal to the other's. *)
Theorem merge_with_empty s o :
  same_class s o →
  (count o = 0 → merge s o = Ok s) ∧
  (count s = 0 → 0 < count o →
   ∃ s', merge s o = Ok s' ∧
         bins s' = bins o ∧ count s' = count o ∧
         min_key s' = min_key o ∧ max_key s' = max_key o).
Proof.
  intros Hclass. split.
  - intros Ho. unfold merge. by rewrite decide_True.
  - intros Hs Ho. unfold merge.
    rewrite decide_False by lia. rewrite decide_True by done.
    unfold copy, CollapsingLowestDenseStore.copy,
      CollapsingLowestDenseStore.get_max_bins, DenseStore.copy.
    destruct (max_bins s) as [m|] eqn:Em.
    + destruct (max_bins o) as [mo|] eqn:Emo.
      * simpl. eexists. split; [done|]. by repeat split.
      * assert (is_Some (max_bins o)) as [mo Hmo].
        { apply Hclass. rewrite Em. by exists m. }
        congruence.
    + eexists. split; [done|]. by repeat split.
Qed.

Lemma merge_with_empty_witness :
  let s := DenseStore.__init__ 4 2 in
  let o := mkStore None 4 2 2 1 4 7 [0; 0; 0; 1] in
  ∃ s', merge s o = Ok s' ∧
        bins s' = bins o ∧ count s' = count o ∧
        min_key s' = min_key o ∧ max_key s' = max_key o.
Proof.
  intros s o. apply (merge_with_empty s o).
  - unfold same_class. simpl. split; intros [? [=]].
  - reflexivity.
  - simpl. lia.
Defined.

(** C10: the [chunk_size] argument of [CollapsingLowestDenseStore] does not
    reach the [chunk_size] attribute, which is the module default 128 and is
    what [_grow_by] rounds to; the arguments only set [max_bins],
    [initial_nbins] and [initial_chunk_size] (both clamped by [max_bins]),
    and neither [add] nor [merge] assigns [chunk_size]. *)
Theorem collapsing_chunk_size_is_default :
  (∀ m n c,
     let s := CollapsingLowestDenseStore.__init__ m n c in
     chunk_size s = 128 ∧
     (∀ g, DenseStore._grow_by s g = Ok (128 * ceil_div g 128)) ∧
     max_bins s = Some m ∧
     initial_nbins s = Z.min m n ∧
     initial_chunk_size s = Z.min m c ∧
     bins s = zeros (initial_nbins s)) ∧
  (∀ s key s', add s key = Ok s' → chunk_size s' = chunk_size s) ∧
  (∀ s o s', merge s o = Ok s' → chunk_size s' = chunk_size s).
Proof.
  split; [|split].
  - intros m n c. simpl. by repeat split.
  - apply add_chunk_size.
  - apply merge_chunk_size.
Qed.

Lemma collapsing_chunk_size_is_default_witness :
  let s := CollapsingLowestDenseStore.__init__ 3 128 7 in
  let s' := mkStore (Some 3) 3 128 3 1 (-2) 0 [0; 0; 1] in
  chunk_size s' = chunk_size s.
Proof.
  intros s s'.
  apply (proj1 (proj2 collapsing_chunk_size_is_default) s 0 s').
  vm_compute. reflexivity.
Defined.

(** * Further properties *)

(** ** Rank queries *)

Section rank_queries.
Implicit Types (l : list Z) (s : Store) (r rank : Z).

Lemma enumerate_snoc l x :
  reverse (enumerate (l ++ [x])) = (len l, x) :: reverse (enumerate l).
Proof.
  unfold enumerate. rewrite imap_app, reverse_app. simpl.
  unfold len. do 3 f_equal. lia.
Qed.

(** The descending loop stops at the last bin from which the running count
    of the bins above and including it reaches [rank]. *)
Lemma rank_loop_reverse_Some l r rank i :
  rank_loop (reverse (enumerate l)) r rank = Some i →
  0 ≤ i < len l ∧
  rank ≤ r + sumZ (drop (Z.to_nat i) l) ∧
  ∀ j, i < j < len l → r + sumZ (drop (Z.to_nat j) l) < rank.
Proof.
  revert r. induction l as [|x l IH] using rev_ind; intros r Hrun; [done|].
  rewrite enumerate_snoc in Hrun. simpl in Hrun.
  rewrite len_app. unfold len in *. simpl.
  destruct (decide (r + x >= rank)) as [Hge|Hlt].
  - injection Hrun as <-. rewrite Nat2Z.id, drop_app_length. simpl.
    repeat split; try lia.
  - apply IH in Hrun as (Hi & Hreach & Habove). split; [lia|]. split.
    + rewrite drop_app_le by lia. rewrite sumZ_app. simpl. lia.
    + intros j Hj. destruct (decide (j = Z.of_nat (length l))) as [-> |Hne].
      * rewrite Nat2Z.id, drop_app_length. simpl. lia.
      * rewrite drop_app_le by lia. rewrite sumZ_app. simpl.
        specialize (Habove j). lia.
Qed.

Lemma rank_loop_reverse_None l r rank :
  Forall (λ b, 0 ≤ b) l →
  (rank_loop (reverse (enumerate l)) r rank = None ↔ r + sumZ l < rank ∨ l = []).
Proof.
  revert r. induction l as [|x l IH] using rev_ind; intros r Hl.
  { simpl. split; auto. }
  apply Forall_app in Hl as [Hl Hx]. apply Forall_singleton in Hx.
  pose proof (sumZ_nonneg l Hl).
  rewrite enumerate_snoc. simpl. rewrite sumZ_app. simpl.
  destruct (decide (r + x >= rank)) as [Hge|Hlt].
  - split; [done|]. intros [?|Hnil]; [lia|]. by destruct l.
  - rewrite IH by done. split.
    + intros [?| ->]; [left; lia|]. simpl. left. lia.
    + intros [?|Hnil]; [left; lia|]. by destruct l.
Qed.

Lemma sumZ_take_le l (i j : nat) :
  Forall (λ b, 0 ≤ b) l → (i ≤ j)%nat → sumZ (take i l) ≤ sumZ (take j l).
Proof.
  intros Hl Hij. replace j with (i + (j - i))%nat by lia.
  rewrite <- take_take_drop, sumZ_app.
  assert (0 ≤ sumZ (take (j - i) (drop i l))); [|lia].
  by apply sumZ_nonneg, Forall_take, Forall_drop.
Qed.

Lemma cumulative_split s k :
  cumulative s (k - 1) + cumulative_from s k = sumZ (bins s).
Proof.
  unfold cumulative, cumulative_from.
  replace (k - 1 - min_key s + 1) with (k - min_key s) by lia.
  apply sumZ_take_drop.
Qed.

Lemma cumulative_mono s k k' :
  Forall (λ b, 0 ≤ b) (bins s) → k ≤ k' → cumulative s k ≤ cumulative s k'.
Proof. intros. unfold cumulative. apply sumZ_take_le; [done|lia]. Qed.

End rank_queries.

Lemma reversed_key_at_rank_within s rank :
  well_formed s → count s ≠ 0 → rank ≤ count s →
  let k := reversed_key_at_rank s rank in
  min_key s ≤ k ≤ max_key s ∧
  rank ≤ cumulative_from s k ∧
  ∀ k', k < k' ≤ max_key s → cumulative_from s k' < rank.
Proof.
  intros Hwf Hc Hrank. destruct (counted_nonempty s Hwf Hc) as [Hpos Hlen].
  destruct Hwf as (Hsum & Hnn & _). unfold reversed_key_at_rank, cumulative_from.
  destruct (rank_loop (reverse (enumerate (bins s))) 0 rank) as [i|] eqn:Hrun.
  - apply rank_loop_reverse_Some in Hrun as (Hi & Hreach & Habove).
    simpl. split; [lia|]. split.
    + replace (i + min_key s - min_key s) with i by lia. lia.
    + intros k' Hk'. specialize (Habove (k' - min_key s) ltac:(lia)). lia.
  - apply rank_loop_reverse_None in Hrun as [?|Hnil]; [lia| |done].
    rewrite Hnil in Hpos. unfold len in Hpos. simpl in Hpos. lia.
Qed.

Lemma reversed_key_at_rank_beyond s rank :
  well_formed s → count s < rank → reversed_key_at_rank s rank = min_key s.
Proof.
  intros (Hsum & Hnn & _) Hrank. unfold reversed_key_at_rank.
  assert (rank_loop (reverse (enumerate (bins s))) 0 rank = None) as ->; [|done].
  apply rank_loop_reverse_None; [done|]. left. lia.
Qed.

(** X1: on a store with [count > 0], reached by calls that stayed in the
    exact range, for a rank in [[1, count]] [reversed_key_at_rank] returns
    the largest key whose cumulative count from the top (all bins with a
    key at or above it) is at least the rank; for a rank above [count] it
    returns [min_key]. *)
Theorem reversed_key_at_rank_largest_key s rank :
  reachable_in_range s → 0 < count s →
  (1 ≤ rank ≤ count s →
   let k := reversed_key_at_rank s rank in
   min_key s ≤ k ≤ max_key s ∧
   rank ≤ cumulative_from s k ∧
   ∀ k', k < k' → cumulative_from s k' < rank) ∧
  (count s < rank → reversed_key_at_rank s rank = min_key s).
Proof.
  intros Hr Hc. pose proof (reachable_in_range_well_formed s Hr) as Hwf.
  assert (count s ≠ 0) as Hc' by lia.
  destruct (counted_nonempty s Hwf Hc') as [Hpos Hlen].
  split; [|by apply reversed_key_at_rank_beyond].
  intros Hrank.
  destruct (reversed_key_at_rank_within s rank Hwf Hc' ltac:(lia))
    as (Hin & Hreach & Habove).
  split; [done|]. split; [done|]. intros k' Hk'.
  destruct (decide (k' ≤ max_key s)); [apply Habove; lia|].
  unfold cumulative_from. rewrite drop_ge by (unfold len in *; lia). simpl. lia.
Qed.

Lemma reversed_key_at_rank_largest_key_witness :
  let s := mkStore None 4 2 2 2 4 7 [0; 1; 0; 1] in
  (min_key s ≤ reversed_key_at_rank s 2 ≤ max_key s ∧
   2 ≤ cumulative_from s (reversed_key_at_rank s 2) ∧
   ∀ k', reversed_key_at_rank s 2 < k' → cumulative_from s k' < 2) ∧
  reversed_key_at_rank s 5 = min_key s.
Proof.
  intros s.
  assert (reachable_in_range s) as Hr.
  { apply (in_range_add (mkStore None 4 2 2 1 4 7 [0; 0; 0; 1]) 5);
      [|in_range|reflexivity].
    apply (in_range_add (DenseStore.__init__ 4 2) 7);
      [|in_range|reflexivity].
    apply in_range_dense. lia. }
  split.
  - apply (reversed_key_at_rank_largest_key s 2); [done|simpl; lia|simpl; lia].
  - apply (reversed_key_at_rank_largest_key s 5); [done|simpl; lia|simpl; lia].
Defined.

(** [key_at_rank] for any rank not above [count], also a rank below 1. *)
Lemma key_at_rank_within s rank :
  well_formed s → count s ≠ 0 → rank ≤ count s →
  let k := key_at_rank s rank in
  min_key s ≤ k ≤ max_key s ∧
  rank ≤ cumulative s k ∧
  ∀ k', min_key s ≤ k' < k → cumulative s k' < rank.
Proof.
  intros Hwf Hc Hrank. destruct (counted_nonempty s Hwf Hc) as [Hpos Hlen].
  destruct Hwf as (Hsum & Hnn & _). unfold key_at_rank, cumulative.
  destruct (key_at_rank_loop (bins s) 0 0 rank) as [i|] eqn:Hrun.
  - apply key_at_rank_loop_Some in Hrun as (Hi & Hreach & Hbelow).
    simpl. split; [lia|]. split.
    + replace (i + min_key s - min_key s + 1) with (i - 0 + 1) by lia. lia.
    + intros k' Hk'. specialize (Hbelow (k' - min_key s) ltac:(lia)).
      replace (k' - min_key s - 0 + 1) with (k' - min_key s + 1) in Hbelow by lia.
      lia.
  - apply key_at_rank_loop_None in Hrun as [?|Hnil]; [lia| |done].
    rewrite Hnil in Hpos. unfold len in Hpos. simpl in Hpos. lia.
Qed.

Lemma key_at_rank_beyond s rank :
  well_formed s → count s < rank → key_at_rank s rank = max_key s.
Proof.
  intros (Hsum & Hnn & _) Hrank. unfold key_at_rank.
  assert (key_at_rank_loop (bins s) 0 0 rank = None) as ->; [|done].
  apply key_at_rank_loop_None; [done|]. left. lia.
Qed.

(** X2: on a store reached by calls that stayed in the exact range the two
    rank queries agree: the key of rank [r] counted from the bottom is the
    key of rank [count - r + 1] counted from the top. *)
Theorem rank_queries_agree s rank :
  reachable_in_range s → 1 ≤ rank ≤ count s →
  reversed_key_at_rank s (count s - rank + 1) = key_at_rank s rank.
Proof.
  intros Hr Hrank. pose proof (reachable_in_range_well_formed s Hr) as Hwf.
  assert (count s ≠ 0) as Hc by lia.
  destruct (counted_nonempty s Hwf Hc) as [Hpos Hlen].
  destruct (key_at_rank_within s rank Hwf Hc ltac:(lia))
    as (Hin & Hreach & Hbelow).
  destruct (reversed_key_at_rank_within s (count s - rank + 1) Hwf Hc ltac:(lia))
    as (Hin' & Hreach' & Habove).
  destruct Hwf as (Hsum & Hnn & _).
  set (k1 := key_at_rank s rank) in *.
  set (k2 := reversed_key_at_rank s (count s - rank + 1)) in *.
  pose proof (cumulative_split s k1) as H1.
  pose proof (cumulative_split s k2) as H2.
  destruct (Z.lt_trichotomy k2 k1) as [Hlt|[Heq|Hgt]]; [|done|].
  - specialize (Habove k1 ltac:(lia)).
    destruct (decide (k1 = min_key s)) as [Hk1|Hk1]; [lia|].
    specialize (Hbelow (k1 - 1) ltac:(lia)). lia.
  - pose proof (cumulative_mono s k1 (k2 - 1) Hnn ltac:(lia)). lia.
Qed.

Lemma rank_queries_agree_witness :
  let s := mkStore None 4 2 2 2 4 7 [0; 1; 0; 1] in
  reversed_key_at_rank s (count s - 1 + 1) = key_at_rank s 1.
Proof.
  intros s.
  assert (reachable_in_range s) as Hr.
  { apply (in_range_add (mkStore None 4 2 2 1 4 7 [0; 0; 0; 1]) 5);
      [|in_range|reflexivity].
    apply (in_range_add (DenseStore.__init__ 4 2) 7);
      [|in_range|reflexivity].
    apply in_range_dense. lia. }
  apply (rank_queries_agree s 1); [done|simpl; lia].
Defined.

(** X3: on a store reached by calls that stayed in the exact range,
    [key_at_rank] is monotone in the rank and, whatever the rank, returns a
    key of the store: ranks at or below 0 give [min_key]. *)
Theorem key_at_rank_monotone s rank rank' :
  reachable_in_range s → 0 < count s → rank ≤ rank' →
  min_key s ≤ key_at_rank s rank ≤ key_at_rank s rank' ∧
  key_at_rank s rank' ≤ max_key s ∧
  (rank ≤ 0 → key_at_rank s rank = min_key s).
Proof.
  intros Hr Hc Hle. pose proof (reachable_in_range_well_formed s Hr) as Hwf.
  assert (count s ≠ 0) as Hc' by lia.
  destruct (counted_nonempty s Hwf Hc') as [Hpos Hlen].
  assert (∀ r, min_key s ≤ key_at_rank s r ≤ max_key s) as Hin.
  { intros r. destruct (decide (r ≤ count s)).
    - by apply key_at_rank_within.
    - rewrite key_at_rank_beyond by (done || lia). lia. }
  split; [split; [apply Hin|]|split; [apply Hin|]].
  - destruct (decide (rank' ≤ count s)) as [Hr'|Hr'].
    + destruct (key_at_rank_within s rank Hwf Hc' ltac:(lia)) as (_ & _ & Hmin).
      destruct (key_at_rank_within s rank' Hwf Hc' Hr') as (_ & Hreach & _).
      destruct (decide (key_at_rank s rank ≤ key_at_rank s rank')); [done|].
      specialize (Hmin (key_at_rank s rank')). specialize (Hin rank'). lia.
    + rewrite (key_at_rank_beyond s rank') by (done || lia). apply Hin.
  - intros Hneg.
    destruct (key_at_rank_within s rank Hwf Hc' ltac:(lia)) as (_ & _ & Hmin).
    destruct (decide (key_at_rank s rank = min_key s)); [done|].
    specialize (Hmin (min_key s)). specialize (Hin rank).
    assert (0 ≤ cumulative s (min_key s)).
    { unfold cumulative. apply sumZ_nonneg, Forall_take, Hwf. }
    lia.
Qed.

Lemma key_at_rank_monotone_witness :
  let s := mkStore None 4 2 2 2 4 7 [0; 1; 0; 1] in
  min_key s ≤ key_at_rank s 1 ≤ key_at_rank s 2 ∧
  key_at_rank s 2 ≤ max_key s ∧
  (1 ≤ 0 → key_at_rank s 1 = min_key s).
Proof.
  intros s.
  assert (reachable_in_range s) as Hr.
  { apply (in_range_add (mkStore None 4 2 2 1 4 7 [0; 0; 0; 1]) 5);
      [|in_range|reflexivity].
    apply (in_range_add (DenseStore.__init__ 4 2) 7);
      [|in_range|reflexivity].
    apply in_range_dense. lia. }
  apply (key_at_rank_monotone s 1 2); [done|simpl; lia|lia].
Defined.

(** ** Shape of a store *)

(** X4: in every store reached by calls that stayed in the exact range no
    bin is negative, and once something has been counted the array covers
    exactly the keys from [min_key] to [max_key]: its length is
    [max_key - min_key + 1], and it is not empty. *)
Theorem bins_cover_key_range s :
  reachable_in_range s →
  Forall (λ b, 0 ≤ b) (bins s) ∧ 0 ≤ count s ∧
  (count s ≠ 0 →
   DenseStore.length s = max_key s - min_key s + 1 ∧ min_key s ≤ max_key s).
Proof.
  intros Hr. pose proof (reachable_in_range_well_formed s Hr) as Hwf.
  pose proof Hwf as (Hsum & Hnn & _). split; [done|]. split.
  { rewrite Hsum. by apply sumZ_nonneg. }
  intros Hc. destruct (counted_nonempty s Hwf Hc) as [Hpos Hlen].
  unfold DenseStore.length. lia.
Qed.

Lemma bins_cover_key_range_witness :
  let s := mkStore None 4 2 2 1 4 7 [0; 0; 0; 1] in
  Forall (λ b, 0 ≤ b) (bins s) ∧ 0 ≤ count s ∧
  DenseStore.length s = max_key s - min_key s + 1 ∧ min_key s ≤ max_key s.
Proof.
  intros s.
  assert (reachable_in_range s) as Hr.
  { apply (in_range_add (DenseStore.__init__ 4 2) 7).
    - apply in_range_dense. lia.
    - in_range.
    - reflexivity. }
  destruct (bins_cover_key_range s Hr) as (H1 & H2 & H3).
  split; [done|]. split; [done|]. apply H3. simpl. lia.
Defined.

(** ** The first insertion *)

Section first_add.
Implicit Types (s : Store) (key : Z).

Lemma alter_last_zeros n :
  1 ≤ n →
  alter (λ x, x + 1) (Z.to_nat (n - 1)) (zeros n) = zeros (n - 1) ++ [1].
Proof.
  intros Hn. unfold zeros.
  replace (Z.to_nat n) with (Z.to_nat (n - 1) + 1)%nat by lia.
  rewrite replicate_add. simpl.
  rewrite alter_app_r_alt by (rewrite length_replicate; lia).
  rewrite length_replicate, Nat.sub_diag. done.
Qed.

(** [add] on a store that has counted nothing and whose bins are all zero:
    the key takes the last bin. *)
Lemma add_fresh s key n :
  count s = 0 → 1 ≤ n → bins s = zeros n →
  add s key =
    Ok (set_count 1 (set_bins (zeros (n - 1) ++ [1])
          (set_min_key (key - n + 1) (set_max_key key s)))).
Proof.
  intros Hc Hn Hb. unfold add, add_grow.
  destruct (decide (len (bins s) = 0)) as [Hz|Hz].
  { rewrite Hb, len_zeros in Hz. lia. }
  rewrite decide_True by done. simpl.
  store_simpl. rewrite Hb, len_zeros.
  replace (0 `max` n) with n by lia.
  rewrite py_iadd_nonneg by (rewrite len_zeros; lia). simpl.
  replace (0 `max` (key - (key - n + 1))) with (n - 1) by lia.
  rewrite alter_last_zeros by done. rewrite Hc. done.
Qed.

Lemma add_fresh_empty s key :
  count s = 0 → bins s = [] →
  add s key = add (set_bins (zeros (initial_chunk_size s)) s) key.
Proof.
  intros Hc Hb. unfold add, add_grow. rewrite Hb. simpl.
  destruct (decide (len (zeros (initial_chunk_size s)) = 0)) as [Hz|Hz]; [|done].
  unfold zeros, len in Hz.
  destruct (Z.to_nat (initial_chunk_size s)) eqn:E; [|simpl in Hz; lia].
  unfold zeros. rewrite E. done.
Qed.

Lemma add_no_bins s key :
  count s = 0 → bins s = [] → initial_chunk_size s ≤ 0 →
  add s key = Raise IndexError.
Proof.
  intros Hc Hb Hics. unfold add, add_grow. rewrite Hb. simpl.
  unfold zeros. replace (Z.to_nat (initial_chunk_size s)) with 0%nat by lia.
  simpl. rewrite decide_True by done. simpl.
  unfold py_iadd, py_index, len. simpl.
  rewrite !decide_False by lia. done.
Qed.

End first_add.

(** X5: the first [add] on a new [DenseStore(initial_nbins, chunk_size)] uses the
    pre-allocated array when [initial_nbins >= 1], else an array of
    [chunk_size] bins: with [n] the number of bins, the store then has
    [max_key = key], [min_key = key - n + 1] and a single 1 in the last bin.
    When neither number is positive there is no bin to count in and the
    call raises [IndexError]. *)
Theorem dense_first_add initial_nbins chunk_size key :
  let n := if decide (1 ≤ initial_nbins) then initial_nbins else chunk_size in
  add (DenseStore.__init__ initial_nbins chunk_size) key =
    if decide (1 ≤ n)
    then Ok {| max_bins := None; initial_nbins := initial_nbins;
               chunk_size := chunk_size; initial_chunk_size := chunk_size;
               count := 1; min_key := key - n + 1; max_key := key;
               bins := zeros (n - 1) ++ [1] |}
    else Raise IndexError.
Proof.
  intros n. unfold n. destruct (decide (1 ≤ initial_nbins)) as [Hn|Hn].
  - rewrite decide_True by done. by rewrite (add_fresh _ key initial_nbins).
  - assert (bins (DenseStore.__init__ initial_nbins chunk_size) = []) as Hb.
    { simpl. unfold zeros. by replace (Z.to_nat initial_nbins) with 0%nat by lia. }
    destruct (decide (1 ≤ chunk_size)) as [Hc|Hc].
    + rewrite add_fresh_empty by done. by rewrite (add_fresh _ key chunk_size).
    + apply add_no_bins; [done|done|simpl; lia].
Qed.

(** X6: the first [add] on a new
    [CollapsingLowestDenseStore(max_bins, initial_nbins, chunk_size)] uses
    the pre-allocated array of [min(max_bins, initial_nbins)] bins when that
    is at least 1, else an array of [min(max_bins, chunk_size)] bins: with
    [n] the number of bins, the store then has [max_key = key],
    [min_key = key - n + 1] and a single 1 in the last bin. When neither
    number is positive the call raises [IndexError]. *)
Theorem collapsing_first_add m n0 c key :
  let n1 := Z.min m n0 in
  let n := if decide (1 ≤ n1) then n1 else Z.min m c in
  add (CollapsingLowestDenseStore.__init__ m n0 c) key =
    if decide (1 ≤ n)
    then Ok {| max_bins := Some m; initial_nbins := n1;
               chunk_size := CHUNK_SIZE; initial_chunk_size := Z.min m c;
               count := 1; min_key := key - n + 1; max_key := key;
               bins := zeros (n - 1) ++ [1] |}
    else Raise IndexError.
Proof.
  intros n1 n. unfold n, n1. clear n n1.
  destruct (decide (1 ≤ Z.min m n0)) as [Hn|Hn].
  - rewrite decide_True by done.
    by rewrite (add_fresh _ key (Z.min m n0)).
  - assert (bins (CollapsingLowestDenseStore.__init__ m n0 c) = []) as Hb.
    { simpl. unfold zeros.
      by replace (Z.to_nat (Z.min m n0)) with 0%nat by lia. }
    destruct (decide (1 ≤ Z.min m c)) as [Hc|Hc].
    + rewrite add_fresh_empty by done.
      by rewrite (add_fresh _ key (Z.min m c)).
    + apply add_no_bins; [done|done|simpl; lia].
Qed.

(** ** Errors that surface after construction *)

(** X7: a [DenseStore] whose [chunk_size] is 0 counts keys inside its range,
    but every [add] that has to grow the array, on either side, raises
    [ZeroDivisionError]. *)
Theorem zero_chunk_size_fails_on_growth s key :
  max_bins s = None → chunk_size s = 0 → count s ≠ 0 → bins s ≠ [] →
  min_key s ≤ max_key s →
  (key < min_key s ∨ max_key s < key → add s key = Raise ZeroDivisionError) ∧
  (min_key s ≤ key ≤ max_key s → len (bins s) = max_key s - min_key s + 1 →
   succeeds (add s key)).
Proof.
  intros Em Hcs Hc Hb Hmm.
  assert (len (bins s) ≠ 0) as Hlen.
  { destruct (bins s); [done|]. unfold len. simpl. lia. }
  unfold add, add_grow. rewrite (decide_False (P := len (bins s) = 0)) by done.
  rewrite (decide_False (P := count s = 0)) by done.
  unfold _grow_left, _grow_right. rewrite Em. split.
  - intros [Hkey|Hkey].
    + rewrite decide_True by done.
      unfold DenseStore._grow_left, DenseStore._grow_by.
      rewrite decide_False by lia. by rewrite decide_True.
    + rewrite decide_False, decide_True by lia.
      unfold DenseStore._grow_right, DenseStore._grow_by.
      rewrite decide_False by lia. by rewrite decide_True.
  - intros Hkey Hcover. rewrite !decide_False by lia. simpl.
    rewrite py_iadd_nonneg by lia. simpl. by eexists.
Qed.

Lemma zero_chunk_size_fails_on_growth_witness :
  let s := mkStore None 2 0 0 1 4 5 [0; 1] in
  add s 3 = Raise ZeroDivisionError ∧ add s 6 = Raise ZeroDivisionError ∧
  succeeds (add s 4).
Proof.
  intros s.
  destruct (zero_chunk_size_fails_on_growth s 3) as [H3 _];
    [reflexivity|reflexivity|simpl; lia|done|simpl; lia|].
  destruct (zero_chunk_size_fails_on_growth s 6) as [H6 _];
    [reflexivity|reflexivity|simpl; lia|done|simpl; lia|].
  destruct (zero_chunk_size_fails_on_growth s 4) as [_ H4];
    [reflexivity|reflexivity|simpl; lia|done|simpl; lia|].
  split; [apply H3; simpl; lia|]. split; [apply H6; simpl; lia|].
  apply H4; [simpl; lia|reflexivity].
Defined.

(** X8: [merge] into a store that has counted nothing is [copy]: a
    [CollapsingLowestDenseStore] takes over the other store's [max_bins]
    with its bins, and raises [AttributeError] when the other store is a
    [DenseStore], which has none; a [DenseStore] accepts either class and
    stays without [max_bins]. *)
Theorem merge_into_empty_across_classes s o :
  count s = 0 → count o ≠ 0 →
  match max_bins s, max_bins o with
  | Some _, None => merge s o = Raise AttributeError
  | Some _, Some mo =>
      ∃ s', merge s o = Ok s' ∧ max_bins s' = Some mo ∧ bins s' = bins o ∧
            chunk_size s' = chunk_size s ∧
            initial_chunk_size s' = initial_chunk_size s
  | None, _ =>
      ∃ s', merge s o = Ok s' ∧ max_bins s' = None ∧ bins s' = bins o ∧
            chunk_size s' = chunk_size s ∧
            initial_chunk_size s' = initial_chunk_size s
  end.
Proof.
  intros Hs Ho. unfold merge. rewrite decide_False, decide_True by done.
  unfold copy, CollapsingLowestDenseStore.copy,
    CollapsingLowestDenseStore.get_max_bins, DenseStore.copy.
  destruct (max_bins s) as [m|] eqn:Em; [destruct (max_bins o) as [mo|] eqn:Emo|];
    simpl; [| done |]; eexists; (split; [done|]); by store_simpl.
Qed.

Lemma merge_into_empty_across_classes_witness :
  merge (CollapsingLowestDenseStore.__init__ 3 128 128)
        (mkStore None 4 2 2 1 4 7 [0; 0; 0; 1]) = Raise AttributeError.
Proof.
  apply (merge_into_empty_across_classes
           (CollapsingLowestDenseStore.__init__ 3 128 128)
           (mkStore None 4 2 2 1 4 7 [0; 0; 0; 1])).
  - reflexivity.
  - simpl. lia.
Defined.

(** ** What [merge] conserves *)

Lemma merge_count s o s' :
  well_formed s → well_formed o → merge s o = Ok s' →
  count s' = count s + count o.
Proof.
  intros Hs Ho Hm. unfold merge in Hm.
  destruct (decide (count o = 0)); [injection Hm as <-; lia|].
  destruct (decide (count s = 0)).
  - unfold copy, CollapsingLowestDenseStore.copy, DenseStore.copy in Hm.
    destruct (max_bins s); run_inversion; store_simpl; lia.
  - apply bind_Ok in Hm as (s1 & Hrun & [= <-]). store_simpl.
    assert (merged s o s1) as (_ & -> & _); [|done].
    destruct (decide (max_key s > max_key o));
      [by eapply merge_below_merged|].
    destruct (decide (min_key o < min_key s));
      [by eapply merge_inside_merged|by eapply merge_above_merged].
Qed.

(** X9: a [merge] in range that returns loses and invents nothing: the count
    and the sum of the bins of the result are the sums of those of the two
    stores, whatever the classes and key ranges, collapsed or not. *)
Theorem merge_conserves_mass s o s' :
  reachable_in_range s → reachable_in_range o → merge_in_range s o →
  merge s o = Ok s' →
  count s' = count s + count o ∧
  sumZ (bins s') = sumZ (bins s) + sumZ (bins o).
Proof.
  intros Hr Hro _ Hm.
  pose proof (reachable_in_range_well_formed s Hr) as Hs.
  pose proof (reachable_in_range_well_formed o Hro) as Ho.
  pose proof (merge_well_formed s o s' Hs Ho Hm) as Hs'.
  pose proof (merge_count s o s' Hs Ho Hm) as Hc.
  split; [done|].
  destruct Hs as (<- & _), Ho as (<- & _), Hs' as (<- & _). done.
Qed.

Lemma merge_conserves_mass_witness :
  let s := mkStore (Some 3) 3 128 3 1 (-2) 0 [0; 0; 1] in
  let o := mkStore (Some 3) 3 128 3 1 5 7 [0; 0; 1] in
  let s' := mkStore (Some 3) 3 128 3 2 5 7 [1; 0; 1] in
  count s' = count s + count o ∧
  sumZ (bins s') = sumZ (bins s) + sumZ (bins o).
Proof.
  intros s o s'. apply (merge_conserves_mass s o s').
  - apply (in_range_add (CollapsingLowestDenseStore.__init__ 3 128 128) 0).
    + apply in_range_collapsing; lia.
    + in_range.
    + reflexivity.
  - apply (in_range_add (CollapsingLowestDenseStore.__init__ 3 128 128) 7).
    + apply in_range_collapsing; lia.
    + in_range.
    + reflexivity.
  - in_range.
  - reflexivity.
Defined.

(** ** Counters of a store reached in range *)

Section in_range_counters.
Implicit Types (s o : Store) (key : Z).

Lemma sumZ_bounds_items l :
  Forall (λ b, 0 ≤ b) l → Forall (λ b, 0 ≤ b ≤ sumZ l) l.
Proof.
  induction 1 as [|b l Hb Hl IH]; [done|]. simpl.
  pose proof (sumZ_nonneg l Hl). constructor; [lia|].
  eapply Forall_impl; [|exact IH]. simpl. intros; lia.
Qed.

(** In a store reached by calls in range the count and every bin are
    non-negative and below [2^63]: no 64-bit counter has wrapped. *)
Lemma reachable_in_range_counters s :
  reachable_in_range s →
  0 ≤ count s < 2 ^ 63 ∧ Forall (λ b, 0 ≤ b < 2 ^ 63) (bins s).
Proof.
  intros Hr. pose proof (reachable_in_range_well_formed s Hr) as Hwf.
  assert (count s < 2 ^ 63) as Hlt.
  { induction Hr as [n c Hc|m n c Hm Hc|s key s' Hr _ Hin Hadd
                    |s o s' Hr _ Hro _ Hin Hmerge].
    - simpl. lia.
    - simpl. lia.
    - pose proof (reachable_in_range_well_formed s Hr) as Hws.
      destruct (add_spec s key Hws) as (s1 & _ & (_ & Hc1 & _) & _ & Hadd' & _).
      rewrite Hadd' in Hadd.
      assert (∀ a b : Store, Ok a = Ok b → a = b) as Hinj by congruence.
      apply Hinj in Hadd as <-. store_simpl. rewrite Hc1.
      unfold add_in_range in Hin. lia.
    - pose proof (reachable_in_range_well_formed s Hr) as Hws.
      pose proof (reachable_in_range_well_formed o Hro) as Hwo.
      rewrite (merge_count s o s' Hws Hwo Hmerge).
      unfold merge_in_range in Hin. lia. }
  destruct Hwf as (Hsum & Hnn & _).
  pose proof (sumZ_nonneg _ Hnn). split; [lia|].
  eapply Forall_impl; [|exact (sumZ_bounds_items _ Hnn)].
  simpl. intros; lia.
Qed.

End in_range_counters.

(** ** Dense stores, key by key *)

Section dense_reachable.
Implicit Types (s o : Store) (k key : Z).

(** [merge] into a dense store in all cases, empty stores included. *)
Lemma dense_merge_counter_all s o :
  well_formed s → well_formed o → max_bins s = None →
  ∃ s', merge s o = Ok s' ∧ max_bins s' = None ∧
    count s' = count s + count o ∧
    ∀ k, counter s' k = counter s k + counter o k.
Proof.
  intros Hs Ho Em. destruct (decide (count o = 0)) as [Hco|Hco].
  { exists s. unfold merge. rewrite decide_True by done.
    do 2 (split; [done|]). split; [lia|].
    intros k. rewrite (counter_empty o k) by done. lia. }
  destruct (decide (count s = 0)) as [Hcs|Hcs].
  { unfold merge. rewrite decide_False, decide_True by done.
    unfold copy. rewrite Em. unfold DenseStore.copy.
    eexists. split; [done|]. store_simpl. do 2 (split; [done || lia|]).
    intros k. rewrite (counter_empty s k) by done.
    unfold counter. by store_simpl. }
  destruct (dense_merge_counter s o Hs Ho Em Hcs Hco) as (s' & Hm & Hc & Hk).
  exists s'. split; [done|]. split; [|done].
  pose proof (merge_chunk_size s o s' Hm).
  unfold merge in Hm. rewrite !decide_False in Hm by done.
  apply bind_Ok in Hm as (s1 & Hrun & [= <-]). store_simpl.
  assert (merged s o s1) as ((-> & _) & _); [|done].
  destruct (decide (max_key s > max_key o));
    [by eapply merge_below_merged|].
  destruct (decide (min_key o < min_key s));
    [by eapply merge_inside_merged|by eapply merge_above_merged].
Qed.

End dense_reachable.

(** X10: on a [DenseStore] reached by calls in range, [add(key)] in range
    returns and raises the logical counter of [key] by 1; the counter of
    every other key, inside or outside the old range, is unchanged. *)
Theorem dense_add_counts_key s key :
  reachable_in_range s → max_bins s = None → add_in_range s key →
  ∃ s', add s key = Ok s' ∧ max_bins s' = None ∧
    ∀ k, counter s' k = counter s k + (if decide (k = key) then 1 else 0).
Proof.
  intros Hr Em _.
  destruct (dense_add_counter s key (reachable_in_range_well_formed s Hr) Em)
    as (s' & Hadd & _ & Em' & _ & Hk).
  by exists s'.
Qed.

Lemma dense_add_counts_key_witness :
  let s := mkStore None 4 2 2 1 4 7 [0; 0; 0; 1] in
  ∃ s', add s 1 = Ok s' ∧ max_bins s' = None ∧
    ∀ k, counter s' k = counter s k + (if decide (k = 1) then 1 else 0).
Proof.
  intros s. apply (dense_add_counts_key s 1); [|reflexivity|in_range].
  apply (in_range_add (DenseStore.__init__ 4 2) 7).
  - apply in_range_dense. lia.
  - in_range.
  - reflexivity.
Defined.

(** X11: merging, in range, a store of either class into a [DenseStore],
    both reached by calls in range, returns and adds the logical counters
    key by key, whatever the two key ranges and whether or not either store
    is empty. *)
Theorem dense_merge_adds_counters s o :
  reachable_in_range s → reachable_in_range o → max_bins s = None →
  merge_in_range s o →
  ∃ s', merge s o = Ok s' ∧ max_bins s' = None ∧
    count s' = count s + count o ∧
    ∀ k, counter s' k = counter s k + counter o k.
Proof.
  intros Hr Hro Em _.
  exact (dense_merge_counter_all s o (reachable_in_range_well_formed s Hr)
           (reachable_in_range_well_formed o Hro) Em).
Qed.

Lemma dense_merge_adds_counters_witness :
  let s := mkStore None 4 2 2 1 4 7 [0; 0; 0; 1] in
  let o := mkStore (Some 3) 3 128 3 1 (-2) 0 [0; 0; 1] in
  ∃ s', merge s o = Ok s' ∧ max_bins s' = None ∧
    count s' = count s + count o ∧
    ∀ k, counter s' k = counter s k + counter o k.
Proof.
  intros s o. apply (dense_merge_adds_counters s o); [| |reflexivity|in_range].
  - apply (in_range_add (DenseStore.__init__ 4 2) 7).
    + apply in_range_dense. lia.
    + in_range.
    + reflexivity.
  - apply (in_range_add (CollapsingLowestDenseStore.__init__ 3 128 128) 0).
    + apply in_range_collapsing; lia.
    + in_range.
    + reflexivity.
Defined.

(** X12: for dense stores the order of merging does not matter, as long as
    every merge involved is in range: [a.merge(b)] and [b.merge(a)] hold
    the same logical counters and count, and so do [(a.merge(b)).merge(c)]
    and [a.merge(b.merge(c))]. *)
Theorem dense_merge_order_irrelevant a b c :
  reachable_in_range a → reachable_in_range b → reachable_in_range c →
  max_bins a = None → max_bins b = None →
  merge_in_range a b → merge_in_range b a → merge_in_range b c →
  (∀ ab, merge a b = Ok ab → merge_in_range ab c) →
  (∀ bc, merge b c = Ok bc → merge_in_range a bc) →
  (∃ ab ba, merge a b = Ok ab ∧ merge b a = Ok ba ∧
     count ab = count ba ∧ ∀ k, counter ab k = counter ba k) ∧
  (∃ ab ab_c bc a_bc,
     merge a b = Ok ab ∧ merge ab c = Ok ab_c ∧
     merge b c = Ok bc ∧ merge a bc = Ok a_bc ∧
     count ab_c = count a_bc ∧ ∀ k, counter ab_c k = counter a_bc k).
Proof.
  intros Ha Hb Hc Ea Eb _ _ _ _ _.
  pose proof (reachable_in_range_well_formed a Ha) as Hwa.
  pose proof (reachable_in_range_well_formed b Hb) as Hwb.
  pose proof (reachable_in_range_well_formed c Hc) as Hwc.
  destruct (dense_merge_counter_all a b Hwa Hwb Ea) as (ab & Hab & Eab & Cab & Kab).
  destruct (dense_merge_counter_all b a Hwb Hwa Eb) as (ba & Hba & Eba & Cba & Kba).
  destruct (dense_merge_counter_all b c Hwb Hwc Eb) as (bc & Hbc & Ebc & Cbc & Kbc).
  pose proof (merge_well_formed a b ab Hwa Hwb Hab) as Hwab.
  pose proof (merge_well_formed b c bc Hwb Hwc Hbc) as Hwbc.
  destruct (dense_merge_counter_all ab c Hwab Hwc Eab) as (ab_c & Habc & _ & Cabc & Kabc).
  destruct (dense_merge_counter_all a bc Hwa Hwbc Ea) as (a_bc & Ha_bc & _ & Ca_bc & Ka_bc).
  split.
  - exists ab, ba. do 2 (split; [done|]). split; [lia|].
    intros k. rewrite Kab, Kba. lia.
  - exists ab, ab_c, bc, a_bc. do 4 (split; [done|]). split; [lia|].
    intros k. rewrite Kabc, Ka_bc, Kab, Kbc. lia.
Qed.

Lemma dense_merge_order_irrelevant_witness :
  let a := mkStore None 4 2 2 1 4 7 [0; 0; 0; 1] in
  let b := mkStore None 1 3 3 1 2 2 [1] in
  let c := mkStore None 1 1 1 1 9 9 [1] in
  (∃ ab ba, merge a b = Ok ab ∧ merge b a = Ok ba ∧
     count ab = count ba ∧ ∀ k, counter ab k = counter ba k) ∧
  (∃ ab ab_c bc a_bc,
     merge a b = Ok ab ∧ merge ab c = Ok ab_c ∧
     merge b c = Ok bc ∧ merge a bc = Ok a_bc ∧
     count ab_c = count a_bc ∧ ∀ k, counter ab_c k = counter a_bc k).
Proof.
  intros a b c.
  apply (dense_merge_order_irrelevant a b c).
  - apply (in_range_add (DenseStore.__init__ 4 2) 7).
    + apply in_range_dense. lia.
    + in_range.
    + reflexivity.
  - apply (in_range_add (DenseStore.__init__ 1 3) 2).
    + apply in_range_dense. lia.
    + in_range.
    + reflexivity.
  - apply (in_range_add (DenseStore.__init__ 1 1) 9).
    + apply in_range_dense. lia.
    + in_range.
    + reflexivity.
  - reflexivity.
  - reflexivity.
  - in_range.
  - in_range.
  - in_range.
  - intros ab Hab. vm_compute in Hab. injection Hab as <-. in_range.
  - intros bc Hbc. vm_compute in Hbc. injection Hbc as <-. in_range.
Defined.

(** ** The growth methods of [CollapsingLowestDenseStore], case by case *)

Section collapsing_growth.
Implicit Types (s : Store) (key m : Z).

Lemma ceil_div_0 b : ceil_div 0 b = 0.
Proof. unfold ceil_div. simpl. by rewrite Zdiv_0_l. Qed.

Lemma collapsing_grow_left_full s m key :
  max_bins s = Some m → len (bins s) >= m → _grow_left s key = Ok s.
Proof.
  intros Em Hfull. unfold _grow_left, CollapsingLowestDenseStore._grow_left,
    CollapsingLowestDenseStore.get_max_bins. rewrite Em. simpl.
  destruct (decide (min_key s < key)); [done|]. by rewrite decide_True.
Qed.

Lemma collapsing_grow_left_eq s m key :
  max_bins s = Some m → 1 ≤ chunk_size s → key ≤ min_key s → len (bins s) < m →
  _grow_left s key =
    let min_key' :=
      if decide (max_key s - key >= m) then max_key s - m + 1
      else Z.max (min_key s - chunk_size s * ceil_div (min_key s - key) (chunk_size s))
                 (max_key s - m + 1) in
    Ok (set_min_key min_key'
          (set_bins (zeros (min_key s - min_key') ++ bins s) s)).
Proof.
  intros Em Hcs Hkey Hlen. unfold _grow_left, CollapsingLowestDenseStore._grow_left,
    CollapsingLowestDenseStore.get_max_bins. rewrite Em. simpl.
  rewrite decide_False by lia. rewrite decide_False by lia.
  destruct (decide (max_key s - key >= m)); simpl; [done|].
  by rewrite grow_by_valid.
Qed.

Lemma collapsing_grow_right_reset s m key :
  max_bins s = Some m → 1 ≤ m → key - max_key s >= m →
  _grow_right s key =
    Ok (set_bins (<[0%nat := count s]> (zeros m))
          (set_min_key (key - m + 1) (set_max_key key s))).
Proof.
  intros Em Hm Hkey. unfold _grow_right, CollapsingLowestDenseStore._grow_right,
    CollapsingLowestDenseStore.get_max_bins. rewrite Em. simpl.
  rewrite decide_False by lia. rewrite decide_True by done.
  by rewrite py_setitem_zeros.
Qed.

Lemma collapsing_grow_right_shift s m key :
  max_bins s = Some m → 1 ≤ m →
  len (bins s) = max_key s - min_key s + 1 →
  max_key s ≤ key → key - max_key s < m → key - min_key s >= m →
  _grow_right s key =
    let k := Z.to_nat (key - m + 1 - min_key s) in
    Ok (set_bins
          (alter (λ x, x + sumZ (take k (bins s))) 0%nat
             (drop k (bins s) ++ zeros (key - max_key s)))
          (set_min_key (key - m + 1) (set_max_key key s))).
Proof.
  intros Em Hm Hlen Hk1 Hk2 Hk3.
  unfold _grow_right, CollapsingLowestDenseStore._grow_right,
    CollapsingLowestDenseStore.get_max_bins. rewrite Em. simpl.
  rewrite decide_False by lia. rewrite decide_False by lia.
  rewrite decide_True by done.
  unfold py_slice_to, py_slice_from. rewrite !decide_True by lia.
  rewrite py_iadd_nonneg; [done|].
  rewrite len_app, len_drop, len_zeros. lia.
Qed.

Lemma collapsing_grow_right_chunk s m key :
  max_bins s = Some m → 1 ≤ chunk_size s →
  max_key s ≤ key → key - max_key s < m → key - min_key s < m →
  _grow_right s key =
    let max_key' :=
      Z.min (max_key s + chunk_size s * ceil_div (key - max_key s) (chunk_size s))
            (min_key s + m) in
    Ok (set_max_key max_key'
          (set_bins (bins s ++ zeros (max_key' - max_key s)) s)).
Proof.
  intros Em Hcs Hk1 Hk2 Hk3.
  unfold _grow_right, CollapsingLowestDenseStore._grow_right,
    CollapsingLowestDenseStore.get_max_bins. rewrite Em. simpl.
  rewrite !decide_False by lia. by rewrite grow_by_valid.
Qed.

(** Neither growth method leaves more than [max_bins + 1] bins, and from
    exactly [max_bins] bins both return exactly [max_bins] bins. *)
Lemma collapsing_grow_left_length s m key s' :
  well_formed s → count s ≠ 0 → max_bins s = Some m →
  _grow_left s key = Ok s' →
  len (bins s') ≤ Z.max (len (bins s)) m ∧
  (len (bins s) = m → len (bins s') = m).
Proof.
  intros Hwf Hc Em Hg. destruct (counted_nonempty s Hwf Hc) as [Hpos Hlen].
  assert (1 ≤ chunk_size s) as Hcs by (by destruct Hwf as (_ & _ & _ & _ & ? & _)).
  destruct (decide (len (bins s) >= m)) as [Hfull|Hroom].
  { rewrite (collapsing_grow_left_full s m) in Hg by done.
    injection Hg as <-. lia. }
  destruct (decide (min_key s < key)) as [Hkey|Hkey].
  { unfold _grow_left, CollapsingLowestDenseStore._grow_left in Hg.
    rewrite Em, decide_True in Hg by done. injection Hg as <-. lia. }
  rewrite (collapsing_grow_left_eq s m) in Hg by (done || lia). simpl in Hg.
  injection Hg as <-. store_simpl. rewrite len_app, len_zeros.
  pose proof (grow_by_bounds s (min_key s - key) Hcs).
  split; [|lia]. case_decide; lia.
Qed.

Lemma collapsing_grow_right_length s m key s' :
  well_formed s → count s ≠ 0 → max_bins s = Some m →
  _grow_right s key = Ok s' →
  len (bins s') ≤ Z.max (len (bins s)) (m + 1) ∧
  (len (bins s) = m → len (bins s') = m) ∧
  (min_key s' = min_key s ∨ (min_key s' = key - m + 1 ∧ len (bins s') = m)).
Proof.
  intros Hwf Hc Em Hg. destruct (counted_nonempty s Hwf Hc) as [Hpos Hlen].
  assert (1 ≤ chunk_size s) as Hcs by (by destruct Hwf as (_ & _ & _ & _ & ? & _)).
  assert (1 ≤ m) as Hm by (by apply Hwf).
  destruct (decide (max_key s > key)) as [Hkey|Hkey].
  { unfold _grow_right, CollapsingLowestDenseStore._grow_right in Hg.
    rewrite Em, decide_True in Hg by done. injection Hg as <-.
    split; [lia|]. split; [done|]. by left. }
  destruct (decide (key - max_key s >= m)).
  { rewrite (collapsing_grow_right_reset s m) in Hg by done.
    injection Hg as <-. store_simpl. unfold len. rewrite length_insert.
    fold (len (zeros m)). rewrite len_zeros.
    split; [lia|]. split; [lia|]. right. lia. }
  destruct (decide (key - min_key s >= m)).
  { rewrite (collapsing_grow_right_shift s m) in Hg by (done || lia). simpl in Hg.
    injection Hg as <-. store_simpl.
    rewrite len_alter, len_app, len_drop, len_zeros.
    split; [lia|]. split; [lia|]. right. lia. }
  rewrite (collapsing_grow_right_chunk s m) in Hg by (done || lia). simpl in Hg.
  injection Hg as <-. store_simpl. rewrite len_app, len_zeros.
  pose proof (grow_by_bounds s (key - max_key s) Hcs).
  split; [lia|]. split; [|by left]. intros Hfull.
  replace (key - max_key s) with 0 by lia. rewrite ceil_div_0. lia.
Qed.

End collapsing_growth.

(** ** Runs of small keys stay in range *)

Section small_runs.
Implicit Types (s o : Store) (key k m : Z) (keys : list Z).

(** Where the growth step of [add] leaves the two keys: [min_key] is lowered
    by less than a chunk below [key], [max_key] raised by less than a chunk
    above it, and a collapse moves [min_key] up to at most [key]. *)
Lemma add_grow_envelope s key s1 :
  well_formed s → count s ≠ 0 → add_grow s key = Ok s1 →
  Z.min (min_key s) (key - chunk_size s) ≤ min_key s1 ≤ Z.max (min_key s) key ∧
  max_key s ≤ max_key s1 ≤ Z.max (max_key s) (key + chunk_size s).
Proof.
  intros Hwf Hc Hg. rewrite (add_grow_counted s key Hwf Hc) in Hg.
  destruct (counted_nonempty s Hwf Hc) as [Hpos Hlen].
  assert (1 ≤ chunk_size s) as Hcs by (by destruct Hwf as (_ & _ & _ & _ & ? & _)).
  assert (∀ a b : Store, Ok a = Ok b → a = b) as Hinj by congruence.
  destruct (decide (key < min_key s)) as [Hlow|Hlow];
    [|destruct (decide (key > max_key s)) as [Hhigh|Hhigh]].
  - pose proof (grow_by_bounds s (min_key s - key) Hcs) as Hgb.
    destruct (max_bins s) as [m|] eqn:Em.
    + destruct (decide (len (bins s) >= m)) as [Hfull|Hroom].
      { rewrite (collapsing_grow_left_full s m) in Hg by done.
        apply Hinj in Hg as <-. lia. }
      rewrite (collapsing_grow_left_eq s m) in Hg by (done || lia).
      cbv zeta in Hg. apply Hinj in Hg as <-. store_simpl.
      destruct (decide (max_key s - key >= m)); lia.
    + unfold _grow_left in Hg. rewrite Em in Hg.
      rewrite dense_grow_left_eq in Hg by (done || lia).
      cbv zeta in Hg. apply Hinj in Hg as <-. store_simpl. lia.
  - pose proof (grow_by_bounds s (key - max_key s) Hcs) as Hgb.
    destruct (max_bins s) as [m|] eqn:Em.
    + assert (1 ≤ m) as Hm by (by apply Hwf).
      destruct (decide (key - max_key s >= m)) as [Hfar|Hnear].
      { rewrite (collapsing_grow_right_reset s m) in Hg by done.
        apply Hinj in Hg as <-. store_simpl. lia. }
      destruct (decide (key - min_key s >= m)) as [Hshift|Hfit].
      { rewrite (collapsing_grow_right_shift s m) in Hg by (done || lia).
        cbv zeta in Hg. apply Hinj in Hg as <-. store_simpl. lia. }
      rewrite (collapsing_grow_right_chunk s m) in Hg by (done || lia).
      cbv zeta in Hg. apply Hinj in Hg as <-. store_simpl. lia.
    + unfold _grow_right in Hg. rewrite Em in Hg.
      rewrite dense_grow_right_eq in Hg by (done || lia).
      cbv zeta in Hg. apply Hinj in Hg as <-. store_simpl. lia.
  - apply Hinj in Hg as <-. lia.
Qed.

(** The first [add]: the key takes the last bin of the array. *)
Lemma add_grow_first s key s1 :
  well_formed s → count s = 0 → add_grow s key = Ok s1 →
  max_key s1 = key ∧
  key - Z.max (len (bins s)) (initial_chunk_size s) < min_key s1 ≤ key.
Proof.
  intros Hwf Hc Hg. unfold add_grow in Hg.
  assert (1 ≤ initial_chunk_size s) as Hics by (by destruct Hwf as (_ & _ & _ & ? & _)).
  assert (∀ a b : Store, Ok a = Ok b → a = b) as Hinj by congruence.
  pose proof (len_nonneg (bins s)).
  destruct (decide (len (bins s) = 0)) as [Hz|Hz].
  - rewrite decide_True in Hg by done. apply Hinj in Hg as <-. store_simpl.
    rewrite len_zeros. lia.
  - rewrite decide_True in Hg by done. apply Hinj in Hg as <-. store_simpl. lia.
Qed.

Lemma add_in_window s key s' :
  well_formed s → in_window s → small key → add s key = Ok s' →
  in_window s'.
Proof.
  intros Hwf (Hcs & Hics & Hlen & Hmin & Hmax) Hkey Hadd.
  destruct (add_spec s key Hwf) as (s1 & Hg & Hs1 & _ & Hadd' & _).
  rewrite Hadd' in Hadd.
  assert (∀ a b : Store, Ok a = Ok b → a = b) as Hinj by congruence.
  apply Hinj in Hadd as <-. clear Hinj.
  destruct Hs1 as ((_ & _ & Ecs & Eics) & Hc1 & _).
  assert (1 ≤ chunk_size s) as Hcs1 by (by destruct Hwf as (_ & _ & _ & _ & ? & _)).
  assert (0 ≤ count s) as Hnn.
  { destruct Hwf as (-> & ? & _). by apply sumZ_nonneg. }
  unfold in_window, small in *. store_simpl. rewrite Ecs, Eics.
  split; [done|]. split; [done|]. split; [lia|].
  destruct (decide (count s = 0)) as [Hc|Hc].
  - destruct (add_grow_first s key s1 Hwf Hc Hg) as [-> Hm]. specialize (Hlen Hc). lia.
  - pose proof (add_grow_envelope s key s1 Hwf Hc Hg). lia.
Qed.

Lemma small_add_in_range s key :
  in_window s → small key → count s + 1 < 2 ^ 63 → add_in_range s key.
Proof. unfold in_window, small, add_in_range. lia. Qed.

Lemma small_merge_in_range s o :
  in_window s → in_window o → count s + count o < 2 ^ 63 →
  merge_in_range s o.
Proof. unfold in_window, merge_in_range. lia. Qed.

Lemma init_dense_in_window n c :
  c ≤ 2 ^ 50 → n ≤ 2 ^ 50 → in_window (DenseStore.__init__ n c).
Proof. intros. unfold in_window. simpl. rewrite len_zeros. lia. Qed.

Lemma init_collapsing_in_window m n c :
  m ≤ 2 ^ 50 → in_window (CollapsingLowestDenseStore.__init__ m n c).
Proof.
  intros. unfold in_window. simpl. rewrite len_zeros. unfold CHUNK_SIZE. lia.
Qed.

(** A run of [add] calls with small keys on a store within the window
    returns, and every call of it is in range. *)
Lemma small_run_in_range s keys :
  reachable_in_range s → in_window s → Forall small keys →
  count s + len keys < 2 ^ 63 →
  ∃ s', add_all s keys = Ok s' ∧ reachable_in_range s' ∧ in_window s' ∧
        count s' = count s + len keys.
Proof.
  intros Hr Hw Hkeys. revert s Hr Hw.
  induction Hkeys as [|key keys Hkey _ IH]; intros s Hr Hw Hcnt.
  { exists s. do 3 (split; [done|]). unfold len. simpl. lia. }
  pose proof (reachable_in_range_well_formed s Hr) as Hwf.
  pose proof (len_nonneg keys) as Hnn.
  assert (len (key :: keys) = len keys + 1) as El by (unfold len; simpl; lia).
  rewrite El in Hcnt.
  destruct (add_spec s key Hwf) as (s1 & _ & Hs1 & _ & Hadd & _).
  set (s2 := set_count _ _) in Hadd.
  assert (count s2 = count s + 1) as Hc2.
  { unfold s2. store_simpl. destruct Hs1 as (_ & -> & _). done. }
  assert (add_in_range s key) as Hin by (apply small_add_in_range; (done || lia)).
  destruct (IH s2) as (s' & Hrun & Hr' & Hw' & Hc').
  - exact (in_range_add s key s2 Hr Hin Hadd).
  - exact (add_in_window s key s2 Hwf Hw Hkey Hadd).
  - lia.
  - exists s'. simpl. rewrite Hadd. simpl. rewrite El.
    do 3 (split; [done|]). lia.
Qed.

End small_runs.

(** ** Array length under a cap *)

Section cap.
Implicit Types (s o : Store) (key m : Z).

Lemma add_bins_length dst src doff soff keys dst' :
  add_bins dst src doff soff keys = Ok dst' → length dst' = length dst.
Proof.
  revert dst. induction keys as [|i keys IH]; intros dst Hrun; simpl in Hrun.
  { by injection Hrun as <-. }
  apply bind_Ok in Hrun as (v & _ & Hrun).
  apply bind_Ok in Hrun as (dst1 & Hadd & Hrun).
  apply py_iadd_inv in Hadd as (j & _ & ->).
  apply IH in Hrun. by rewrite length_alter in Hrun.
Qed.

(** The loop returns when every read is in range and every write is within
    the indices Python accepts, negative ones included. *)
Lemma add_bins_succeeds dst src doff soff keys :
  Forall (λ i, 0 ≤ i - soff < len src ∧ - len dst ≤ i - doff < len dst) keys →
  succeeds (add_bins dst src doff soff keys).
Proof.
  revert dst. induction keys as [|i keys IH]; intros dst Hkeys; simpl.
  { by eexists. }
  apply Forall_cons_1 in Hkeys as [[Hs Hd] Hkeys].
  rewrite py_getitem_nonneg by done. simpl.
  assert (∃ j, py_index dst (i - doff) = Ok j) as [j Hj].
  { unfold py_index. destruct (decide (0 ≤ i - doff < len dst)); [by eexists|].
    rewrite decide_True by lia. by eexists. }
  unfold py_iadd. rewrite Hj. simpl. apply IH.
  rewrite len_alter. done.
Qed.

(** The invariant of stores with cap [m]. *)
Lemma add_within_cap s m key s' :
  well_formed s → max_bins s = Some m → initial_chunk_size s ≤ m →
  add s key = Ok s' →
  max_bins s' = Some m ∧ initial_chunk_size s' ≤ m ∧
  len (bins s') ≤ Z.max (len (bins s)) (m + 1) ∧
  (len (bins s) = m → len (bins s') = m).
Proof.
  intros Hwf Em Hics Hadd.
  assert (1 ≤ m) as Hm by (by apply Hwf).
  destruct (add_spec s key Hwf) as (s1 & Hg & Hs1 & _ & Hadd' & _).
  rewrite Hadd' in Hadd. injection Hadd as <-. store_simpl. rewrite len_alter.
  destruct Hs1 as ((Hmb & _ & _ & Hics1) & Hc1 & _).
  split; [congruence|]. split; [lia|].
  destruct (decide (count s = 0)) as [Hc|Hc].
  - unfold add_grow in Hg.
    destruct (decide (len (bins s) = 0)) as [Hz|Hz]; store_simpl;
      rewrite decide_True in Hg by done; injection Hg as <-; store_simpl.
    + rewrite len_zeros. lia.
    + lia.
  - rewrite add_grow_counted in Hg by done.
    destruct (decide (key < min_key s)).
    { pose proof (collapsing_grow_left_length s m key s1 Hwf Hc Em Hg). lia. }
    destruct (decide (key > max_key s)).
    { pose proof (collapsing_grow_right_length s m key s1 Hwf Hc Em Hg). lia. }
    injection Hg as <-. lia.
Qed.

Lemma merge_within_cap s o m s' :
  well_formed s → well_formed o →
  max_bins s = Some m → max_bins o = Some m →
  initial_chunk_size s ≤ m →
  len (bins s) ≤ m + 1 → len (bins o) ≤ m + 1 →
  merge s o = Ok s' →
  max_bins s' = Some m ∧ initial_chunk_size s' ≤ m ∧ len (bins s') ≤ m + 1.
Proof.
  intros Hs Ho Em Emo Hics Hls Hlo Hm. unfold merge in Hm.
  destruct (decide (count o = 0)) as [Hco|Hco]; [by injection Hm as <-|].
  destruct (decide (count s = 0)) as [Hcs|Hcs].
  { unfold copy, CollapsingLowestDenseStore.copy,
      CollapsingLowestDenseStore.get_max_bins, DenseStore.copy in Hm.
    rewrite Em, Emo in Hm. simpl in Hm. injection Hm as <-. by store_simpl. }
  apply bind_Ok in Hm as (s1 & Hrun & [= <-]). store_simpl.
  destruct (decide (max_key s > max_key o)); [|destruct (decide (min_key o < min_key s))].
  - unfold merge_below in Hrun. apply bind_Ok in Hrun as (s0 & Hg & Hrun).
    assert (max_bins s0 = Some m ∧ initial_chunk_size s0 ≤ m ∧
            len (bins s0) ≤ m + 1) as (E0 & I0 & L0).
    { destruct (decide (min_key o < min_key s)); [|by injection Hg as <-].
      destruct (grow_left_well_formed s (min_key o) Hs Hcs)
        as (s0' & Hg' & _ & (? & _ & _ & ?) & _).
      rewrite Hg' in Hg. injection Hg as <-.
      pose proof (collapsing_grow_left_length s m _ _ Hs Hcs Em Hg').
      split; [congruence|]. split; lia. }
    apply bind_Ok in Hrun as (b & Hb & Hrun). apply add_bins_length in Hb.
    store_simpl. destruct (decide (min_key s0 > min_key o)).
    + apply bind_Ok in Hrun as (b2 & Hb2 & [= <-]).
      apply py_iadd_inv in Hb2 as (j & _ & ->). store_simpl.
      unfold len in *. rewrite length_alter. split; [done|]. split; lia.
    + injection Hrun as <-. store_simpl. unfold len in *. split; [done|]. split; lia.
  - unfold merge_inside in Hrun. apply bind_Ok in Hrun as (b & Hb & [= <-]).
    apply add_bins_length in Hb. store_simpl. unfold len in *.
    split; [done|]. split; lia.
  - unfold merge_above in Hrun. apply bind_Ok in Hrun as (s0 & Hg & Hrun).
    destruct (grow_right_well_formed s (max_key o) Hs Hcs)
      as (s0' & Hg' & _ & (? & _ & _ & ?) & _).
    rewrite Hg' in Hg. injection Hg as <-.
    pose proof (collapsing_grow_right_length s m _ _ Hs Hcs Em Hg').
    apply bind_Ok in Hrun as (b & Hb & [= <-]).
    apply add_bins_length in Hb. store_simpl. unfold len in *.
    split; [congruence|]. split; lia.
Qed.

Lemma capped_invariant m s :
  capped m s →
  reachable s ∧ max_bins s = Some m ∧ initial_chunk_size s ≤ m ∧
  len (bins s) ≤ m + 1.
Proof.
  induction 1 as [n c Hm Hc|s key s' _ IH Hadd|s o s' _ IHs _ IHo Hmerge].
  - split; [by apply reachable_collapsing|]. simpl. rewrite len_zeros.
    split; [done|]. split; lia.
  - destruct IH as (Hr & Em & Hics & Hlen).
    split; [exact (reachable_add s key s' Hr Hadd)|].
    pose proof (add_within_cap s m key s' (reachable_well_formed s Hr) Em Hics Hadd).
    split; [tauto|]. split; lia.
  - destruct IHs as (Hr & Em & Hics & Hlen), IHo as (Hro & Emo & _ & Hleno).
    split; [exact (reachable_merge s o s' Hr Hro Hmerge)|].
    exact (merge_within_cap s o m s' (reachable_well_formed s Hr)
             (reachable_well_formed o Hro) Em Emo Hics Hlen Hleno Hmerge).
Qed.

(** Merging two well-formed collapsing stores returns when the other store
    has at most [2 * max_bins] bins. *)
Lemma collapsing_merge_succeeds s o m :
  well_formed s → well_formed o → max_bins s = Some m →
  is_Some (max_bins o) → len (bins o) ≤ 2 * m →
  succeeds (merge s o).
Proof.
  intros Hs Ho Em [mo Emo] Hlo. unfold merge.
  destruct (decide (count o = 0)) as [Hco|Hco]; [by eexists|].
  destruct (decide (count s = 0)) as [Hcs|Hcs].
  { unfold copy, CollapsingLowestDenseStore.copy,
      CollapsingLowestDenseStore.get_max_bins, DenseStore.copy.
    rewrite Em, Emo. simpl. by eexists. }
  destruct (counted_nonempty s Hs Hcs) as [Hposs Hlens].
  destruct (counted_nonempty o Ho Hco) as [Hposo Hleno].
  assert (1 ≤ m) as Hm by (by apply Hs).
  assert (∀ x : Store, succeeds (Ok x) →
            succeeds (bind (Ok x) (λ self, Ok (set_count (count self + count o) self))))
    as Hfin by (intros; simpl; by eexists).
  destruct (decide (max_key s > max_key o)); [|destruct (decide (min_key o < min_key s))].
  - unfold merge_below.
    assert (∃ s0,
      (if decide (min_key o < min_key s) then _grow_left s (min_key o) else Ok s)
        = Ok s0 ∧ well_formed s0 ∧ count s0 = count s ∧ max_key s0 = max_key s)
      as (s0 & -> & Hs0 & Hc0 & Hmax0).
    { destruct (decide (min_key o < min_key s)); [|by exists s].
      destruct (grow_left_well_formed s (min_key o) Hs Hcs)
        as (s0 & ? & ? & _ & ? & ? & _). by exists s0. }
    simpl. rewrite <- Hc0 in Hcs.
    destruct (counted_nonempty s0 Hs0 Hcs) as [Hpos0 Hlen0].
    destruct (add_bins_succeeds (bins s0) (bins o) (min_key s0) (min_key o)
      (range (Z.max (min_key s0) (min_key o)) (max_key o + 1))) as [b Hb].
    { unfold range. apply Forall_seqZ. intros. lia. }
    rewrite Hb. simpl. store_simpl. apply add_bins_length in Hb.
    destruct (decide (min_key s0 > min_key o)); simpl; [|by eexists].
    rewrite py_iadd_nonneg by (unfold len in *; lia). simpl. by eexists.
  - unfold merge_inside.
    destruct (add_bins_succeeds (bins o) (bins s) (min_key o) (min_key s)
      (range (min_key s) (max_key s + 1))) as [b Hb].
    { unfold range. apply Forall_seqZ. intros. lia. }
    rewrite Hb. simpl. by eexists.
  - unfold merge_above.
    destruct (grow_right_well_formed s (max_key o) Hs Hcs)
      as (s0 & Hg & Hs0 & _ & Hc0 & Hmax0).
    pose proof (collapsing_grow_right_length s m _ _ Hs Hcs Em Hg) as (_ & _ & Hmin0).
    rewrite Hg. simpl. rewrite <- Hc0 in Hcs.
    destruct (counted_nonempty s0 Hs0 Hcs) as [Hpos0 Hlen0].
    destruct (add_bins_succeeds (bins s0) (bins o) (min_key s0) (min_key o)
      (range (min_key o) (max_key o + 1))) as [b Hb].
    { unfold range. apply Forall_seqZ. intros. lia. }
    rewrite Hb. simpl. by eexists.
Qed.

Lemma capped_in_range_capped m s :
  capped_in_range m s → capped m s ∧ reachable_in_range s.
Proof.
  induction 1 as [n c Hm Hc|s key s' _ [IHc IHr] Hin Hadd
                 |s o s' _ [IHc IHr] _ [IHco IHro] Hin Hmerge].
  - split; [by apply capped_new|by apply in_range_collapsing].
  - split; [exact (capped_add m s key s' IHc Hadd)|].
    exact (in_range_add s key s' IHr Hin Hadd).
  - split; [exact (capped_merge m s o s' IHc IHco Hmerge)|].
    exact (in_range_merge s o s' IHr IHro Hin Hmerge).
Qed.

End cap.

(** X13: a [CollapsingLowestDenseStore] with cap [m], through any [add] calls and
    [merge] calls with stores of the same cap, keeps [max_bins = m] and
    never holds more than [m + 1] bins. *)
Theorem capped_length_bound m s :
  capped m s → max_bins s = Some m ∧ DenseStore.length s ≤ m + 1.
Proof.
  intros H. apply capped_invariant in H as (_ & ? & _ & ?). done.
Qed.

Lemma capped_length_bound_witness :
  let s := mkStore (Some 2) 1 128 2 2 0 2 [1; 1; 0] in
  max_bins s = Some 2 ∧ DenseStore.length s ≤ 2 + 1.
Proof.
  intros s. apply (capped_length_bound 2 s).
  apply (capped_add 2 (mkStore (Some 2) 1 128 2 1 0 0 [1]) 1); [|reflexivity].
  apply (capped_add 2 (CollapsingLowestDenseStore.__init__ 2 1 128) 0); [|reflexivity].
  apply capped_new; lia.
Defined.

(** X14: two collapsing stores of the same cap, reached by calls in range,
    always merge when the merge is in range: [merge] returns, whatever the
    order and overlap of the two key ranges and the lengths of the two
    arrays. *)
Theorem capped_merge_returns m s o :
  capped_in_range m s → capped_in_range m o → merge_in_range s o →
  ∃ s', merge s o = Ok s' ∧ capped_in_range m s'.
Proof.
  intros Hs Ho Hin.
  destruct (capped_in_range_capped m s Hs) as [Hcs _].
  destruct (capped_in_range_capped m o Ho) as [Hco _].
  pose proof (capped_invariant m s Hcs) as (Hrs & Em & _ & _).
  pose proof (capped_invariant m o Hco) as (Hro & Emo & _ & Hlo).
  destruct (collapsing_merge_succeeds s o m) as [s' Hm];
    try (by apply reachable_well_formed); try done.
  { pose proof (reachable_well_formed s Hrs) as Hw.
    assert (1 ≤ m) by (by apply Hw). lia. }
  exists s'. split; [done|]. exact (capped_in_range_merge m s o s' Hs Ho Hin Hm).
Qed.

Lemma capped_merge_returns_witness :
  let s := mkStore (Some 2) 1 128 2 2 0 2 [1; 1; 0] in
  let o := mkStore (Some 2) 1 128 2 1 2 2 [1] in
  ∃ s', merge s o = Ok s' ∧ capped_in_range 2 s'.
Proof.
  intros s o. apply (capped_merge_returns 2 s o).
  - apply (capped_in_range_add 2 (mkStore (Some 2) 1 128 2 1 0 0 [1]) 1);
      [|in_range|reflexivity].
    apply (capped_in_range_add 2 (CollapsingLowestDenseStore.__init__ 2 1 128) 0);
      [|in_range|reflexivity].
    apply capped_in_range_new; lia.
  - apply (capped_in_range_add 2 (CollapsingLowestDenseStore.__init__ 2 1 128) 2);
      [|in_range|reflexivity].
    apply capped_in_range_new; lia.
  - in_range.
Defined.

(** X15: when the initial array already has [max_bins] bins
    ([initial_nbins >= max_bins]), every sequence of [add] calls returns and
    leaves exactly [max_bins] bins. *)
Theorem full_array_stays_full m n c keys :
  1 ≤ m → 1 ≤ c → m ≤ n →
  ∃ s, add_all (CollapsingLowestDenseStore.__init__ m n c) keys = Ok s ∧
       DenseStore.length s = m.
Proof.
  intros Hm Hc Hn.
  assert (∀ s, reachable s → max_bins s = Some m → initial_chunk_size s ≤ m →
               len (bins s) = m →
               ∃ s', add_all s keys = Ok s' ∧ len (bins s') = m) as Hgen.
  { induction keys as [|key keys IH]; intros s Hr Em Hics Hlen.
    { by exists s. }
    pose proof (reachable_well_formed s Hr) as Hwf.
    destruct (add_spec s key Hwf) as (s1 & _ & _ & _ & Hadd & _).
    pose proof (add_within_cap s m key _ Hwf Em Hics Hadd) as (Em' & Hics' & _ & Hlen').
    destruct (IH _ (reachable_add s key _ Hr Hadd) Em' Hics' (Hlen' Hlen))
      as (s' & Hrun & Hl).
    exists s'. simpl. rewrite Hadd. simpl. done. }
  apply Hgen.
  - by apply reachable_collapsing.
  - done.
  - simpl. lia.
  - simpl. rewrite len_zeros. lia.
Qed.

Lemma full_array_stays_full_witness :
  ∃ s, add_all (CollapsingLowestDenseStore.__init__ 3 128 128) [0; 10; -4] = Ok s ∧
       DenseStore.length s = 3.
Proof. apply (full_array_stays_full 3 128 128 [0; 10; -4]); lia. Defined.

(** ** Counting keys of a run *)

Section runs.
Implicit Types (k x : Z) (keys : list Z).

Lemma below_cons k x keys :
  below k (x :: keys) = (if decide (x ≤ k) then 1 else 0) + below k keys.
Proof.
  unfold below, len. rewrite filter_cons.
  destruct (decide (x ≤ k)); simpl; lia.
Qed.

Lemma below_app k keys1 keys2 :
  below k (keys1 ++ keys2) = below k keys1 + below k keys2.
Proof.
  induction keys1 as [|x keys1 IH]; [done|].
  rewrite <- app_comm_cons, !below_cons, IH. lia.
Qed.

Lemma below_singleton k x : below k [x] = if decide (x ≤ k) then 1 else 0.
Proof. rewrite below_cons. unfold below, len. simpl. lia. Qed.

Lemma occurrences_singleton k x : occurrences k [x] = if decide (k = x) then 1 else 0.
Proof. rewrite occurrences_cons. unfold occurrences, len. simpl. lia. Qed.

Lemma occurrences_nonneg k keys : 0 ≤ occurrences k keys.
Proof. unfold occurrences, len. lia. Qed.

Lemma below_bounds k keys : 0 ≤ below k keys ≤ len keys.
Proof.
  induction keys as [|x keys IH]; [done|].
  rewrite below_cons. unfold len in *. simpl. case_decide; lia.
Qed.

Lemma below_succ k keys : below k keys = below (k - 1) keys + occurrences k keys.
Proof.
  induction keys as [|x keys IH]; [done|].
  rewrite !below_cons, occurrences_cons, IH. repeat case_decide; lia.
Qed.

Lemma below_mono k k' keys : k ≤ k' → below k keys ≤ below k' keys.
Proof.
  intros Hk. induction keys as [|x keys IH]; [done|].
  rewrite !below_cons. repeat case_decide; lia.
Qed.

Lemma below_none k j keys :
  below j keys = 0 → k ≤ j → below k keys = 0 ∧ occurrences k keys = 0.
Proof.
  intros Hj Hk. pose proof (below_mono k j keys Hk).
  pose proof (below_bounds k keys). pose proof (below_bounds (k - 1) keys).
  pose proof (below_succ k keys). pose proof (occurrences_nonneg k keys). lia.
Qed.

Lemma below_all k j keys :
  below j keys = len keys → j ≤ k →
  below k keys = len keys ∧ (j < k → occurrences k keys = 0).
Proof.
  intros Hj Hk. pose proof (below_mono j k keys Hk).
  pose proof (below_bounds k keys). split; [lia|]. intros Hlt.
  pose proof (below_mono j (k - 1) keys ltac:(lia)).
  pose proof (below_bounds (k - 1) keys). pose proof (below_succ k keys). lia.
Qed.

Lemma below_none_intro j keys :
  (∀ k, k ≤ j → occurrences k keys = 0) → below j keys = 0.
Proof.
  induction keys as [|x keys IH]; intros Hocc; [done|].
  rewrite below_cons. destruct (decide (x ≤ j)) as [Hx|Hx].
  - specialize (Hocc x Hx). rewrite occurrences_cons, decide_True in Hocc by done.
    pose proof (occurrences_nonneg x keys). lia.
  - rewrite IH; [done|]. intros k Hk. specialize (Hocc k Hk).
    rewrite occurrences_cons in Hocc. pose proof (occurrences_nonneg k keys).
    case_decide; lia.
Qed.

End runs.

(** ** Logical counters under growth *)

Section counters_under_growth.
Implicit Types (s : Store) (k key m n : Z).

Lemma counter_prepend s mk k :
  mk ≤ min_key s →
  counter (set_min_key mk (set_bins (zeros (min_key s - mk) ++ bins s) s)) k =
  counter s k.
Proof.
  intros Hn. unfold counter. store_simpl. rewrite lookup_prepend_zeros.
  destruct (decide (mk ≤ k ≤ max_key s)).
  - destruct (decide (Z.to_nat (k - mk) < Z.to_nat (min_key s - mk))%nat).
    + rewrite decide_False by lia. done.
    + rewrite decide_True by lia. do 2 f_equal. lia.
  - rewrite decide_False by lia. done.
Qed.

Lemma counter_append s mk k :
  max_key s ≤ mk → len (bins s) = max_key s - min_key s + 1 →
  counter (set_max_key mk (set_bins (bins s ++ zeros (mk - max_key s)) s)) k =
  counter s k.
Proof.
  intros Hn Hlen. unfold counter. store_simpl. rewrite lookup_append_zeros.
  destruct (decide (min_key s ≤ k ≤ mk)).
  - destruct (decide (k ≤ max_key s)).
    + rewrite decide_True by lia. done.
    + rewrite decide_False by lia.
      rewrite lookup_ge_None_2; [done|]. unfold len in Hlen. lia.
  - rewrite decide_False by lia. done.
Qed.

Lemma counter_reset s m key k :
  1 ≤ m →
  counter (set_bins (<[0%nat := count s]> (zeros m))
             (set_min_key (key - m + 1) (set_max_key key s))) k =
  if decide (k = key - m + 1) then count s else 0.
Proof.
  intros Hm. unfold counter. store_simpl.
  destruct (decide (key - m + 1 ≤ k ≤ key)).
  - rewrite lookup_insert_zeros by done. repeat case_decide; lia.
  - rewrite decide_False by lia. done.
Qed.

Lemma sumZ_take_S (l : list Z) (j : nat) :
  sumZ (take (S j) l) = sumZ (take j l) + default 0 (l !! j).
Proof.
  revert j. induction l as [|x l IH]; intros j; [by destruct j|].
  destruct j; simpl; [rewrite ?take_0; simpl; lia|].
  specialize (IH j). simpl in IH. rewrite IH. lia.
Qed.

Lemma counter_shift s m key k :
  1 ≤ m → len (bins s) = max_key s - min_key s + 1 →
  max_key s ≤ key → key - max_key s < m → key - min_key s >= m →
  let j := Z.to_nat (key - m + 1 - min_key s) in
  counter (set_bins
             (alter (λ x, x + sumZ (take j (bins s))) 0%nat
                (drop j (bins s) ++ zeros (key - max_key s)))
             (set_min_key (key - m + 1) (set_max_key key s))) k =
  if decide (k < key - m + 1) then 0
  else if decide (k = key - m + 1) then cumulative s (key - m + 1)
  else counter s k.
Proof.
  intros Hm Hlen Hk1 Hk2 Hk3 j. unfold counter, cumulative. store_simpl.
  assert (0 < length (drop j (bins s) ++ zeros (key - max_key s)))%nat as Hpos.
  { rewrite length_app, length_drop. unfold len in Hlen. lia. }
  destruct (decide (key - m + 1 ≤ k ≤ key)) as [Hin|Hout].
  - rewrite decide_False by lia. rewrite lookup_incr by done.
    rewrite lookup_append_zeros, lookup_drop.
    destruct (decide (k = key - m + 1)) as [-> |Hne].
    + rewrite decide_True by lia.
      replace (Z.to_nat (key - m + 1 - min_key s + 1)) with (S j) by lia.
      rewrite sumZ_take_S.
      replace (j + Z.to_nat (key - m + 1 - (key - m + 1)))%nat with j by lia. lia.
    + rewrite decide_False by lia.
      replace (j + Z.to_nat (k - (key - m + 1)))%nat
        with (Z.to_nat (k - min_key s)) by lia.
      destruct (decide (min_key s ≤ k ≤ max_key s)); [lia|].
      rewrite lookup_ge_None_2 by (unfold len in Hlen; lia). done.
  - destruct (decide (k < key - m + 1)); [done|].
    rewrite decide_False by lia. rewrite decide_False by lia. done.
Qed.

(** [add] increments the bin of the clamped key. *)
Lemma add_counter s key :
  well_formed s →
  ∃ s1 s', add_grow s key = Ok s1 ∧ add s key = Ok s' ∧
    well_formed s' ∧ grown_for s s1 key ∧
    max_bins s' = max_bins s ∧ count s' = count s + 1 ∧
    min_key s' = min_key s1 ∧ max_key s' = max_key s1 ∧
    len (bins s') = len (bins s1) ∧
    ∀ k, counter s' k =
         counter s1 k + (if decide (k = clamp s1 key) then 1 else 0).
Proof.
  intros Hwf.
  destruct (add_spec s key Hwf) as (s1 & Hg & Hs1 & Hidx & Hadd & Hwf').
  eexists s1, _. do 4 (split; [done|]). store_simpl. rewrite len_alter.
  destruct Hs1 as ((Hmb & _) & Hc & _ & _ & Hlen & Hpos & Hkey).
  split; [done|]. split; [lia|]. do 3 (split; [done|]).
  intros k. unfold counter, clamp. store_simpl.
  destruct (decide (min_key s1 ≤ k ≤ max_key s1)).
  - rewrite lookup_incr by (unfold len in *; lia).
    repeat case_decide; lia.
  - rewrite decide_False by lia. lia.
Qed.

(** Under [folded], the count up to a key of the array is the number of
    keys of the run at or below it. *)
Lemma folded_cumulative s keys k :
  len (bins s) = max_key s - min_key s + 1 → folded s keys →
  min_key s ≤ k ≤ max_key s → cumulative s k = below k keys.
Proof.
  intros Hlen Hf Hk.
  assert (∀ j : nat, Z.of_nat j ≤ max_key s - min_key s →
            sumZ (take (S j) (bins s)) = below (min_key s + Z.of_nat j) keys) as Hsum.
  { induction j as [|j IH]; intros Hj.
    - rewrite sumZ_take_S, take_0. simpl.
      specialize (Hf (min_key s)). unfold counter in Hf.
      rewrite decide_True in Hf by lia.
      rewrite decide_False, decide_True in Hf by lia.
      replace (Z.to_nat (min_key s - min_key s)) with 0%nat in Hf by lia.
      replace (min_key s + Z.of_nat 0) with (min_key s) by lia. lia.
    - rewrite sumZ_take_S, IH by lia.
      specialize (Hf (min_key s + Z.of_nat (S j))). unfold counter in Hf.
      rewrite decide_True in Hf by lia.
      rewrite !decide_False in Hf by lia.
      replace (Z.to_nat (min_key s + Z.of_nat (S j) - min_key s)) with (S j) in Hf by lia.
      rewrite Hf. rewrite (below_succ (min_key s + Z.of_nat (S j))).
      replace (min_key s + Z.of_nat (S j) - 1) with (min_key s + Z.of_nat j) by lia.
      lia. }
  unfold cumulative.
  replace (Z.to_nat (k - min_key s + 1)) with (S (Z.to_nat (k - min_key s))) by lia.
  rewrite Hsum by lia. f_equal. lia.
Qed.

End counters_under_growth.

(** ** A collapsing store as a folded histogram *)

Section folded_histogram.
Implicit Types (s : Store) (key k m : Z) (keys : list Z).

Ltac run_facts keys k :=
  pose proof (below_succ k keys);
  pose proof (below_bounds k keys);
  pose proof (below_bounds (k - 1) keys);
  pose proof (occurrences_nonneg k keys).

Lemma collapsed_view_add m s keys key :
  collapsed_view m s keys →
  ∃ s', add s key = Ok s' ∧ collapsed_view m s' (keys ++ [key]).
Proof.
  intros (Hwf & Em & Hcnt & Hc & Hf & Hg).
  destruct (counted_nonempty s Hwf Hc) as [Hpos Hlen].
  assert (1 ≤ m) as Hm by (by apply Hwf).
  assert (1 ≤ chunk_size s) as Hcs by (by destruct Hwf as (_ & _ & _ & _ & ? & _)).
  assert (below (max_key s) keys = len keys) as Hall.
  { rewrite <- (folded_cumulative s keys (max_key s)) by (done || lia).
    unfold cumulative. rewrite take_ge by (unfold len in Hlen; lia).
    rewrite <- Hcnt. symmetry. apply Hwf. }
  destruct (add_counter s key Hwf)
    as (s1 & s' & Hgrow & Hadd & Hwf' & _ & Em' & Hc' & Hmin' & Hmax' & Hlen' & Hk').
  exists s'. split; [done|].
  rewrite add_grow_counted in Hgrow by done.
  split; [done|]. split; [congruence|].
  split; [by rewrite len_app, Hc', Hcnt|].
  split; [pose proof (len_nonneg keys); lia|].
  unfold folded. rewrite Hmin', Hlen'. clear Hmin' Hmax' Hlen' Hadd Hwf' Em' Hc'.
  assert (∀ k, counter s1 k + (if decide (k = clamp s1 key) then 1 else 0) =
               (if decide (k < min_key s1) then 0
                else if decide (k = min_key s1)
                     then below k keys + (if decide (key ≤ k) then 1 else 0)
                     else occurrences k keys + (if decide (k = key) then 1 else 0)) ∧
          (len (bins s1) < m →
           below (min_key s1 - 1) keys = 0 ∧ min_key s1 ≤ key)) as Hcore.
  { intros k. destruct (decide (key < min_key s)) as [Hleft|Hleft].
    - destruct (decide (len (bins s) >= m)) as [Hfull|Hroom].
      + (* at capacity: the key is counted in bin 0 *)
        rewrite (collapsing_grow_left_full s m) in Hgrow by done.
        injection Hgrow as <-. unfold clamp. rewrite (Hf k). run_facts keys k.
        split; [repeat case_decide; lia|lia].
      + (* room on the left: zero bins are prepended *)
        rewrite (collapsing_grow_left_eq s m) in Hgrow by (done || lia).
        cbv zeta in Hgrow. injection Hgrow as <-.
        pose proof (grow_by_bounds s (min_key s - key) Hcs) as Hn.
        specialize (Hg ltac:(lia)).
        rewrite counter_prepend by (case_decide; lia).
        unfold clamp. store_simpl. rewrite len_app, len_zeros.
        split.
        * destruct (decide (k = min_key s)) as [-> |Hk].
          -- rewrite (Hf (min_key s)). pose proof (below_succ (min_key s) keys).
             repeat case_decide; lia.
          -- rewrite (Hf k). run_facts keys k.
             destruct (decide (k ≤ min_key s - 1)) as [Hlow|Hhigh].
             ++ destruct (below_none k _ keys Hg Hlow) as [Hb Ho].
                repeat case_decide; lia.
             ++ repeat case_decide; lia.
        * intros Hl. split; [|repeat case_decide; lia].
          apply (below_none _ _ keys Hg). repeat case_decide; lia.
    - destruct (decide (key > max_key s)) as [Hright|Hin].
      + destruct (decide (key - max_key s >= m)) as [Hfar|Hnear].
        * (* everything collapses into the first bin *)
          rewrite (collapsing_grow_right_reset s m) in Hgrow by done.
          injection Hgrow as <-. rewrite counter_reset by done.
          unfold clamp. store_simpl. run_facts keys k.
          split.
          -- destruct (decide (max_key s ≤ k)) as [Hk|Hk].
             ++ destruct (below_all k _ keys Hall Hk) as [Hb Ho].
                repeat case_decide; lia.
             ++ repeat case_decide; lia.
          -- unfold len. rewrite length_insert. fold (len (zeros m)).
             rewrite len_zeros. lia.
        * destruct (decide (key - min_key s >= m)) as [Hshift|Hfit].
          -- (* the bins below the new [min_key] are folded *)
             rewrite (collapsing_grow_right_shift s m) in Hgrow by (done || lia).
             cbv zeta in Hgrow. injection Hgrow as <-.
             rewrite counter_shift by (done || lia).
             rewrite (folded_cumulative s keys) by (done || lia).
             unfold clamp. store_simpl.
             rewrite len_alter, len_app, len_drop, len_zeros.
             split; [|lia].
             destruct (decide (k = key - m + 1)) as [-> |Hk].
             ++ repeat case_decide; lia.
             ++ rewrite (Hf k). repeat case_decide; lia.
          -- (* ordinary growth: zero bins are appended *)
             rewrite (collapsing_grow_right_chunk s m) in Hgrow by (done || lia).
             cbv zeta in Hgrow. injection Hgrow as <-.
             pose proof (grow_by_bounds s (key - max_key s) Hcs) as Hn.
             rewrite counter_append by (done || lia).
             unfold clamp. store_simpl. rewrite len_app, len_zeros.
             rewrite (Hf k). run_facts keys k.
             split; [repeat case_decide; lia|]. intros Hl.
             split; [apply Hg|]; lia.
      + (* the key has its bin already *)
        injection Hgrow as <-. unfold clamp. rewrite (Hf k). run_facts keys k.
        split; [repeat case_decide; lia|]. intros Hl. split; [by apply Hg|lia]. }
  split.
  - intros k. rewrite Hk', (proj1 (Hcore k)).
    rewrite below_app, occurrences_app, below_singleton, occurrences_singleton.
    done.
  - intros Hl. destruct (proj2 (Hcore 0) Hl) as [Hb Hk].
    rewrite below_app, below_singleton, Hb. rewrite decide_False by lia. done.
Qed.

End folded_histogram.

Section folded_runs.
Implicit Types (s : Store) (key k m : Z) (keys : list Z).

Lemma lookup_zeros_one n (j : nat) :
  0 ≤ n →
  default 0 ((zeros n ++ [1]) !! j) = if decide (j = Z.to_nat n) then 1 else 0.
Proof.
  intros Hn. rewrite lookup_prepend_zeros.
  destruct (decide (j < Z.to_nat n)%nat); [by rewrite decide_False by lia|].
  destruct (decide (j = Z.to_nat n)) as [-> |Hne].
  - by rewrite Nat.sub_diag.
  - destruct (j - Z.to_nat n)%nat eqn:E; [lia|done].
Qed.

(** The first [add] on a store that has counted nothing and has [n] zero
    bins. *)
Lemma collapsed_view_fresh s m n key :
  well_formed s → max_bins s = Some m → count s = 0 → 1 ≤ n →
  bins s = zeros n →
  ∃ s', add s key = Ok s' ∧ collapsed_view m s' [key].
Proof.
  intros Hwf Em Hc Hn Hb.
  destruct (add_spec s key Hwf) as (s1 & _ & _ & _ & Hadd & Hwf').
  rewrite (add_fresh s key n) in Hadd by done.
  assert (∀ a b : Store, Ok a = Ok b → a = b) as Hinj by congruence.
  apply Hinj in Hadd. rewrite <- Hadd in Hwf'. clear Hadd Hinj s1.
  eexists. split; [by apply add_fresh|].
  split; [done|]. store_simpl.
  split; [done|]. split; [done|]. split; [done|]. split.
  - intros k. unfold counter. store_simpl.
    rewrite below_singleton, occurrences_singleton.
    destruct (decide (key - n + 1 ≤ k ≤ key)).
    + rewrite lookup_zeros_one by lia. repeat case_decide; lia.
    + repeat case_decide; lia.
  - intros _. rewrite below_singleton. rewrite decide_False by lia. done.
Qed.

Lemma collapsed_view_first m n c key :
  1 ≤ m → 1 ≤ c →
  ∃ s, add (CollapsingLowestDenseStore.__init__ m n c) key = Ok s ∧
       collapsed_view m s [key].
Proof.
  intros Hm Hc.
  pose proof (init_collapsing_well_formed m n c Hm Hc) as Hwf.
  destruct (decide (1 ≤ Z.min m n)) as [Hn|Hn].
  - by apply (collapsed_view_fresh _ m (Z.min m n)).
  - assert (bins (CollapsingLowestDenseStore.__init__ m n c) = []) as Hb.
    { simpl. unfold zeros. by replace (Z.to_nat (Z.min m n)) with 0%nat by lia. }
    rewrite add_fresh_empty by done.
    apply (collapsed_view_fresh _ m (Z.min m c)); try done; [|lia].
    unfold well_formed. simpl. rewrite sumZ_zeros.
    repeat split; try done; try lia; try apply nonneg_zeros.
    by intros ? [= <-].
Qed.

Lemma collapsed_view_add_all m s keys0 keys :
  collapsed_view m s keys0 →
  ∃ s', add_all s keys = Ok s' ∧ collapsed_view m s' (keys0 ++ keys).
Proof.
  revert s keys0. induction keys as [|key keys IH]; intros s keys0 Hv.
  { exists s. by rewrite app_nil_r. }
  destruct (collapsed_view_add m s keys0 key Hv) as (s1 & Hadd & Hv1).
  destruct (IH s1 _ Hv1) as (s' & Hrun & Hv').
  exists s'. simpl. rewrite Hadd. simpl. split; [done|].
  by rewrite <- app_assoc in Hv'.
Qed.

Lemma collapsed_view_run m n c keys :
  1 ≤ m → 1 ≤ c → keys ≠ [] →
  ∃ s, add_all (CollapsingLowestDenseStore.__init__ m n c) keys = Ok s ∧
       collapsed_view m s keys.
Proof.
  intros Hm Hc Hne. destruct keys as [|key keys]; [done|].
  destruct (collapsed_view_first m n c key Hm Hc) as (s1 & Hadd & Hv1).
  destruct (collapsed_view_add_all m s1 [key] keys Hv1) as (s & Hrun & Hv).
  exists s. simpl. rewrite Hadd. simpl. done.
Qed.

(** A dense store whose counters are the occurrences of a run holds it
    unfolded: no key of the run lies below [min_key]. *)
Lemma dense_folded s keys :
  (∀ k, counter s k = occurrences k keys) →
  below (min_key s - 1) keys = 0 ∧ folded s keys.
Proof.
  intros Hk.
  assert (below (min_key s - 1) keys = 0) as Hb.
  { apply below_none_intro. intros k Hlow. rewrite <- Hk.
    unfold counter. by rewrite decide_False by lia. }
  split; [done|]. intros k. rewrite Hk.
  destruct (decide (k < min_key s)).
  - by apply (below_none k (min_key s - 1) keys Hb ltac:(lia)).
  - destruct (decide (k = min_key s)) as [-> |?]; [|done].
    rewrite (below_succ (min_key s)). lia.
Qed.

(** The rank query on a store that holds a run folded. *)
Lemma folded_key_at_rank s keys rank :
  well_formed s → count s = len keys → folded s keys →
  1 ≤ rank ≤ len keys →
  let k := key_at_rank s rank in
  min_key s ≤ k ≤ max_key s ∧ rank ≤ below k keys ∧
  (k = min_key s ∨ below (k - 1) keys < rank).
Proof.
  intros Hwf Hcnt Hf Hrank.
  assert (count s ≠ 0) as Hc by lia.
  destruct (counted_nonempty s Hwf Hc) as [Hpos Hlen].
  destruct (key_at_rank_within s rank Hwf Hc ltac:(lia)) as (Hin & Hreach & Hmin).
  split; [done|]. split.
  - by rewrite <- (folded_cumulative s keys) by done.
  - destruct (decide (key_at_rank s rank = min_key s)) as [?|Hne]; [by left|].
    right. rewrite <- (folded_cumulative s keys) by (done || lia).
    apply Hmin. lia.
Qed.

End folded_runs.

(** X16: a [CollapsingLowestDenseStore] that has counted a non-empty run of
    keys holds it with the low keys folded and nothing lost: every key above
    [min_key] has its own occurrences, the bin at [min_key] holds all the
    keys at or below it, no key of the run is above [max_key], and [count]
    is the length of the run.  The keys and [max_bins] are at most [2^50]
    in absolute value and the run has fewer than [2^63] keys, which keeps
    every call of the run in range ([small_run_in_range]). *)
Theorem collapsing_adds_fold_low_keys m n c keys :
  1 ≤ m ≤ 2 ^ 50 → 1 ≤ c → keys ≠ [] →
  Forall small keys → len keys < 2 ^ 63 →
  ∃ s, add_all (CollapsingLowestDenseStore.__init__ m n c) keys = Ok s ∧
    count s = len keys ∧
    below (max_key s) keys = len keys ∧
    ∀ k, counter s k =
         if decide (k < min_key s) then 0
         else if decide (k = min_key s) then below k keys
         else occurrences k keys.
Proof.
  intros [Hm _] Hc Hne _ _.
  destruct (collapsed_view_run m n c keys Hm Hc Hne)
    as (s & Hrun & Hwf & _ & Hcnt & Hnz & Hf & _).
  exists s. do 2 (split; [done|]). split; [|exact Hf].
  destruct (counted_nonempty s Hwf Hnz) as [Hpos Hlen].
  rewrite <- (folded_cumulative s keys (max_key s)) by (done || lia).
  unfold cumulative. rewrite take_ge by (unfold len in Hlen; lia).
  rewrite <- Hcnt. symmetry. apply Hwf.
Qed.

Lemma collapsing_adds_fold_low_keys_witness :
  ∃ s, add_all (CollapsingLowestDenseStore.__init__ 3 128 128) [0; 10; 9] = Ok s ∧
    count s = len [0; 10; 9] ∧
    below (max_key s) [0; 10; 9] = len [0; 10; 9] ∧
    ∀ k, counter s k =
         if decide (k < min_key s) then 0
         else if decide (k = min_key s) then below k [0; 10; 9]
         else occurrences k [0; 10; 9].
Proof.
  apply (collapsing_adds_fold_low_keys 3 128 128 [0; 10; 9]);
    [lia|lia|done|repeat constructor; in_range|unfold len; simpl; lia].
Defined.

(** X17: on a [CollapsingLowestDenseStore] that has counted a run of keys,
    [key_at_rank(r)] for [r] in [[1, len]] is the [r]-th smallest key of the
    run, or [min_key] when that key was folded: at least [r] keys of the run
    are at or below the result, and either the result is [min_key] or fewer
    than [r] keys are strictly below it.  The keys and [max_bins] are at
    most [2^50] in absolute value and the run has fewer than [2^63] keys,
    which keeps every call of the run in range ([small_run_in_range]). *)
Theorem collapsing_key_at_rank m n c keys rank :
  1 ≤ m ≤ 2 ^ 50 → 1 ≤ c → 1 ≤ rank ≤ len keys →
  Forall small keys → len keys < 2 ^ 63 →
  ∃ s, add_all (CollapsingLowestDenseStore.__init__ m n c) keys = Ok s ∧
    let k := key_at_rank s rank in
    min_key s ≤ k ≤ max_key s ∧ rank ≤ below k keys ∧
    (k = min_key s ∨ below (k - 1) keys < rank).
Proof.
  intros [Hm _] Hc Hrank _ _.
  assert (keys ≠ []) as Hne by (intros ->; unfold len in Hrank; simpl in Hrank; lia).
  destruct (collapsed_view_run m n c keys Hm Hc Hne)
    as (s & Hrun & Hwf & _ & Hcnt & _ & Hf & _).
  exists s. split; [done|]. by apply folded_key_at_rank.
Qed.

Lemma collapsing_key_at_rank_witness :
  ∃ s, add_all (CollapsingLowestDenseStore.__init__ 3 128 128) [0; 10; 9] = Ok s ∧
    let k := key_at_rank s 2 in
    min_key s ≤ k ≤ max_key s ∧ 2 ≤ below k [0; 10; 9] ∧
    (k = min_key s ∨ below (k - 1) [0; 10; 9] < 2).
Proof.
  apply (collapsing_key_at_rank 3 128 128 [0; 10; 9] 2);
    [lia|lia|unfold len; simpl; lia|repeat constructor; in_range
    |unfold len; simpl; lia].
Defined.

(** X18: on a [DenseStore] that has counted a run of keys, [key_at_rank(r)]
    for [r] in [[1, len]] is exactly the [r]-th smallest key of the run:
    fewer than [r] keys are strictly below it and at least [r] are at or
    below it.  The keys, [chunk_size] and [initial_nbins] are at most
    [2^50] in absolute value and the run has fewer than [2^63] keys, which
    keeps every call of the run in range ([small_run_in_range]). *)
Theorem dense_key_at_rank n c keys rank :
  1 ≤ c ≤ 2 ^ 50 → n ≤ 2 ^ 50 → 1 ≤ rank ≤ len keys →
  Forall small keys → len keys < 2 ^ 63 →
  ∃ s, add_all (DenseStore.__init__ n c) keys = Ok s ∧
    let k := key_at_rank s rank in
    below (k - 1) keys < rank ≤ below k keys.
Proof.
  intros [Hc _] _ Hrank _ _.
  pose proof (init_dense_well_formed n c Hc) as Hw0.
  destruct (dense_add_all_counter _ keys Hw0 eq_refl)
    as (s & Hrun & Hwf & _ & Hcnt & Hk).
  simpl in Hcnt. exists s. split; [done|].
  assert (∀ k, counter s k = occurrences k keys) as Hocc.
  { intros k. rewrite Hk, (counter_empty _ k) by done. lia. }
  destruct (dense_folded s keys Hocc) as [Hb Hf].
  destruct (folded_key_at_rank s keys rank Hwf ltac:(lia) Hf Hrank)
    as (_ & Hreach & Hlow).
  simpl. split; [|done]. destruct Hlow as [-> |?]; [|done]. lia.
Qed.

Lemma dense_key_at_rank_witness :
  ∃ s, add_all (DenseStore.__init__ 4 2) [7; 1; 5] = Ok s ∧
    let k := key_at_rank s 2 in
    below (k - 1) [7; 1; 5] < 2 ≤ below k [7; 1; 5].
Proof.
  apply (dense_key_at_rank 4 2 [7; 1; 5] 2);
    [lia|lia|unfold len; simpl; lia|repeat constructor; in_range
    |unfold len; simpl; lia].
Defined.

(** ** One [add], counter by counter *)

Section add_step.
Implicit Types (s : Store) (key k m : Z).

Lemma cumulative_low s k : k < min_key s → cumulative s k = 0.
Proof.
  intros Hk. unfold cumulative.
  by replace (Z.to_nat (k - min_key s + 1)) with 0%nat by lia.
Qed.

Lemma cumulative_min s :
  min_key s ≤ max_key s → cumulative s (min_key s) = counter s (min_key s).
Proof.
  intros Hmm. unfold cumulative, counter. rewrite decide_True by lia.
  replace (Z.to_nat (min_key s - min_key s + 1)) with 1%nat by lia.
  replace (Z.to_nat (min_key s - min_key s)) with 0%nat by lia.
  rewrite sumZ_take_S, take_0. simpl. lia.
Qed.

Lemma cumulative_high s k :
  well_formed s → count s ≠ 0 → max_key s ≤ k → cumulative s k = count s.
Proof.
  intros Hwf Hc Hk. destruct (counted_nonempty s Hwf Hc) as [Hpos Hlen].
  unfold cumulative. rewrite take_ge by (unfold len in Hlen; lia).
  symmetry. apply Hwf.
Qed.

Lemma counter_outside s k : ¬ (min_key s ≤ k ≤ max_key s) → counter s k = 0.
Proof. intros Hk. unfold counter. by rewrite decide_False. Qed.

(** The left growth of either class changes no logical counter. *)
Lemma grow_left_preserves_counters s key s1 :
  well_formed s → count s ≠ 0 → _grow_left s key = Ok s1 →
  min_key s1 ≤ min_key s ∧ ∀ k, counter s1 k = counter s k.
Proof.
  intros Hwf Hc Hg. destruct (counted_nonempty s Hwf Hc) as [Hpos Hlen].
  assert (1 ≤ chunk_size s) as Hcs by (by destruct Hwf as (_ & _ & _ & _ & ? & _)).
  destruct (decide (min_key s < key)) as [Hkey|Hkey].
  { unfold _grow_left, CollapsingLowestDenseStore._grow_left,
      DenseStore._grow_left in Hg.
    rewrite !decide_True in Hg by done.
    destruct (max_bins s); by injection Hg as <-. }
  destruct (max_bins s) as [m|] eqn:Em.
  - destruct (decide (len (bins s) >= m)) as [Hfull|Hroom].
    + rewrite (collapsing_grow_left_full s m) in Hg by done.
      by injection Hg as <-.
    + rewrite (collapsing_grow_left_eq s m) in Hg by (done || lia).
      cbv zeta in Hg. injection Hg as <-.
      pose proof (grow_by_bounds s (min_key s - key) Hcs).
      split; [store_simpl; case_decide; lia|].
      intros k. apply counter_prepend. case_decide; lia.
  - destruct (dense_grow_left_counter s key Hwf Em Hc ltac:(lia))
      as (s0 & Hg0 & _ & _ & _ & _ & Hmin & Hk).
    rewrite Hg0 in Hg. injection Hg as <-. split; [lia|done].
Qed.

(** What [add] leaves when its growth step changed no counter. *)
Lemma add_step_preserved s s1 key k :
  well_formed s → count s ≠ 0 →
  min_key s1 ≤ min_key s → (∀ k, counter s1 k = counter s k) →
  counter s1 k + (if decide (k = clamp s1 key) then 1 else 0) =
  if decide (k < min_key s1) then 0
  else if decide (k = min_key s1)
       then cumulative s k + (if decide (key ≤ k) then 1 else 0)
       else counter s k + (if decide (k = key) then 1 else 0).
Proof.
  intros Hwf Hc Hmin Hk. destruct (counted_nonempty s Hwf Hc) as [Hpos Hlen].
  rewrite Hk. unfold clamp.
  destruct (decide (k < min_key s1)).
  { rewrite counter_outside by lia. rewrite decide_False by lia. done. }
  destruct (decide (k = min_key s1)) as [-> |Hne].
  - destruct (decide (min_key s1 = min_key s)) as [-> |Hlt].
    + rewrite cumulative_min by lia. repeat case_decide; lia.
    + rewrite cumulative_low, counter_outside by lia. repeat case_decide; lia.
  - repeat case_decide; lia.
Qed.

Lemma add_step s key :
  well_formed s → count s ≠ 0 →
  ∃ s', add s key = Ok s' ∧
    ∀ k, counter s' k =
         if decide (k < min_key s') then 0
         else if decide (k = min_key s')
              then cumulative s k + (if decide (key ≤ k) then 1 else 0)
              else counter s k + (if decide (k = key) then 1 else 0).
Proof.
  intros Hwf Hc. destruct (counted_nonempty s Hwf Hc) as [Hpos Hlen].
  assert (1 ≤ chunk_size s) as Hcs by (by destruct Hwf as (_ & _ & _ & _ & ? & _)).
  destruct (add_counter s key Hwf)
    as (s1 & s' & Hgrow & Hadd & _ & _ & _ & _ & Hmin' & _ & _ & Hk').
  exists s'. split; [done|]. intros k. rewrite Hk', Hmin'.
  rewrite add_grow_counted in Hgrow by done.
  destruct (decide (key < min_key s)) as [Hleft|Hleft].
  { destruct (grow_left_preserves_counters s key s1 Hwf Hc Hgrow).
    by apply add_step_preserved. }
  destruct (decide (key > max_key s)) as [Hright|Hin];
    [|injection Hgrow as <-; by apply add_step_preserved].
  destruct (max_bins s) as [m|] eqn:Em.
  - assert (1 ≤ m) as Hm by (by apply Hwf).
    destruct (decide (key - max_key s >= m)) as [Hfar|Hnear].
    { rewrite (collapsing_grow_right_reset s m) in Hgrow by done.
      injection Hgrow as <-. rewrite counter_reset by done.
      unfold clamp. store_simpl.
      destruct (decide (k = key - m + 1)) as [-> |Hne].
      - rewrite cumulative_high by (done || lia). repeat case_decide; lia.
      - destruct (decide (k < key - m + 1)); [repeat case_decide; lia|].
        rewrite counter_outside by lia. repeat case_decide; lia. }
    destruct (decide (key - min_key s >= m)) as [Hshift|Hfit].
    { rewrite (collapsing_grow_right_shift s m) in Hgrow by (done || lia).
      cbv zeta in Hgrow. injection Hgrow as <-.
      rewrite counter_shift by (done || lia).
      unfold clamp. store_simpl.
      destruct (decide (k = key - m + 1)) as [-> |Hne]; repeat case_decide; lia. }
    rewrite (collapsing_grow_right_chunk s m) in Hgrow by (done || lia).
    cbv zeta in Hgrow. injection Hgrow as <-.
    pose proof (grow_by_bounds s (key - max_key s) Hcs).
    apply add_step_preserved; [done|done|by store_simpl|].
    intros k'. apply counter_append; [lia|done].
  - destruct (dense_grow_right_counter s key Hwf Em Hc ltac:(lia))
      as (s0 & Hg0 & _ & _ & _ & Hmin & _ & Hk).
    rewrite Hg0 in Hgrow. injection Hgrow as <-.
    apply add_step_preserved; [done|done|lia|done].
Qed.

End add_step.

(** X19: one [add] in range on a store of either class that has counted
    something and was reached by calls in range: in the returned store the
    bin at the new [min_key] holds all the mass the store had at or below
    that key, plus the new key if it lies there; every key above the new
    [min_key] keeps its counter, raised by 1 at [key]; no mass is moved to
    a higher key. *)
Theorem add_folds_only_downwards s key :
  reachable_in_range s → 0 < count s → add_in_range s key →
  ∃ s', add s key = Ok s' ∧
    ∀ k, counter s' k =
         if decide (k < min_key s') then 0
         else if decide (k = min_key s')
              then cumulative s k + (if decide (key ≤ k) then 1 else 0)
              else counter s k + (if decide (k = key) then 1 else 0).
Proof.
  intros Hr Hc _. apply add_step; [by apply reachable_in_range_well_formed|lia].
Qed.

Lemma add_folds_only_downwards_witness :
  let s := mkStore (Some 3) 3 128 3 2 (-2) 0 [1; 0; 1] in
  ∃ s', add s 1 = Ok s' ∧
    ∀ k, counter s' k =
         if decide (k < min_key s') then 0
         else if decide (k = min_key s')
              then cumulative s k + (if decide (1 ≤ k) then 1 else 0)
              else counter s k + (if decide (k = 1) then 1 else 0).
Proof.
  intros s.
  assert (reachable_in_range s) as Hr.
  { apply (in_range_add (mkStore (Some 3) 3 128 3 1 (-2) 0 [0; 0; 1]) (-2));
      [|in_range|reflexivity].
    apply (in_range_add (CollapsingLowestDenseStore.__init__ 3 128 128) 0);
      [|in_range|reflexivity].
    apply in_range_collapsing; lia. }
  apply (add_folds_only_downwards s 1); [done|simpl; lia|in_range].
Defined.

(** X20: on a [CollapsingLowestDenseStore] with a non-zero count, reached by
    calls in range, [add(key)] with the new count below [2^63] and with
    [key] above [max_key] by less than [max_bins] but [max_bins] or more
    above [min_key] shifts the window: afterwards [max_key = key],
    [min_key = key - max_bins + 1], the array has exactly [max_bins] bins,
    the bin at the new [min_key] holds the sum of all the old bins at or
    below it, and the bins above it are the old ones, with 1 added at
    [key]. *)
Theorem collapse_near_right s m key :
  reachable_in_range s → max_bins s = Some m → 0 < count s →
  count s + 1 < 2 ^ 63 →
  max_key s < key → key - max_key s < m → m ≤ key - min_key s →
  ∃ s', add s key = Ok s' ∧
    max_key s' = key ∧ min_key s' = key - m + 1 ∧
    DenseStore.length s' = m ∧ count s' = count s + 1 ∧
    counter s' (key - m + 1) = cumulative s (key - m + 1) ∧
    ∀ k, key - m + 1 < k →
         counter s' k = counter s k + (if decide (k = key) then 1 else 0).
Proof.
  intros Hr Em Hc _ Hk1 Hk2 Hk3.
  pose proof (reachable_in_range_well_formed s Hr) as Hwf.
  assert (count s ≠ 0) as Hc' by lia.
  destruct (counted_nonempty s Hwf Hc') as [Hpos Hlen].
  assert (1 ≤ m) as Hm by (by apply Hwf).
  destruct (add_counter s key Hwf)
    as (s1 & s' & Hgrow & Hadd & _ & _ & _ & Hcnt & Hmin' & Hmax' & Hlen' & Hk').
  rewrite add_grow_counted in Hgrow by done.
  rewrite decide_False, decide_True in Hgrow by lia.
  rewrite (collapsing_grow_right_shift s m) in Hgrow by (done || lia).
  cbv zeta in Hgrow. injection Hgrow as <-.
  assert (∀ k, counter s' k =
            (if decide (k < key - m + 1) then 0
             else if decide (k = key - m + 1) then cumulative s (key - m + 1)
             else counter s k) + (if decide (k = key) then 1 else 0)) as Hk.
  { intros k. rewrite Hk', counter_shift by (done || lia).
    unfold clamp. store_simpl. repeat case_decide; lia. }
  exists s'. split; [done|]. unfold DenseStore.length.
  rewrite Hmax', Hmin', Hlen'. store_simpl.
  rewrite len_alter, len_app, len_drop, len_zeros.
  do 2 (split; [done|]). split; [lia|]. split; [done|]. split.
  - rewrite Hk. repeat case_decide; lia.
  - intros k Hlt. rewrite Hk. repeat case_decide; lia.
Qed.

Lemma collapse_near_right_witness :
  let s := mkStore (Some 3) 3 128 3 2 (-2) 0 [1; 0; 1] in
  ∃ s', add s 2 = Ok s' ∧
    max_key s' = 2 ∧ min_key s' = 2 - 3 + 1 ∧
    DenseStore.length s' = 3 ∧ count s' = count s + 1 ∧
    counter s' (2 - 3 + 1) = cumulative s (2 - 3 + 1) ∧
    ∀ k, 2 - 3 + 1 < k →
         counter s' k = counter s k + (if decide (k = 2) then 1 else 0).
Proof.
  intros s.
  assert (reachable_in_range s) as Hr.
  { apply (in_range_add (mkStore (Some 3) 3 128 3 1 (-2) 0 [0; 0; 1]) (-2));
      [|in_range|reflexivity].
    apply (in_range_add (CollapsingLowestDenseStore.__init__ 3 128 128) 0);
      [|in_range|reflexivity].
    apply in_range_collapsing; lia. }
  apply (collapse_near_right s 3 2).
  - done.
  - reflexivity.
  - simpl. lia.
  - in_range.
  - simpl. lia.
  - simpl. lia.
  - simpl. lia.
Defined.

(** ** One [merge] into a collapsing store, counter by counter *)

Section merge_step.
Implicit Types (s o : Store) (key k m : Z).

Lemma cumulative_succ s k :
  len (bins s) = max_key s - min_key s + 1 →
  cumulative s k = cumulative s (k - 1) + counter s k.
Proof.
  intros Hlen. unfold cumulative, counter.
  destruct (decide (min_key s ≤ k ≤ max_key s)) as [Hin|Hout].
  - replace (Z.to_nat (k - min_key s + 1)) with (S (Z.to_nat (k - min_key s))) by lia.
    replace (Z.to_nat (k - 1 - min_key s + 1)) with (Z.to_nat (k - min_key s)) by lia.
    apply sumZ_take_S.
  - destruct (decide (k < min_key s)).
    + replace (Z.to_nat (k - min_key s + 1)) with 0%nat by lia.
      replace (Z.to_nat (k - 1 - min_key s + 1)) with 0%nat by lia. done.
    + rewrite !take_ge by (unfold len in Hlen; lia). lia.
Qed.

Lemma cumulative_at_or_below_min s k :
  min_key s ≤ max_key s → k ≤ min_key s → cumulative s k = counter s k.
Proof.
  intros Hmm Hk. destruct (decide (k = min_key s)) as [-> |Hne].
  - by apply cumulative_min.
  - rewrite cumulative_low, counter_outside by lia. done.
Qed.

(** The right growth of a collapsing store folds downwards only. *)
Lemma collapsing_grow_right_folds s m key s0 :
  well_formed s → count s ≠ 0 → max_bins s = Some m → max_key s ≤ key →
  _grow_right s key = Ok s0 →
  (min_key s0 = min_key s ∧ key - min_key s < m ∨
   min_key s0 = key - m + 1 ∧ min_key s < min_key s0) ∧
  ∀ k, counter s0 k =
       if decide (k < min_key s0) then 0
       else if decide (k = min_key s0) then cumulative s k
       else counter s k.
Proof.
  intros Hwf Hc Em Hkey Hg. destruct (counted_nonempty s Hwf Hc) as [Hpos Hlen].
  assert (1 ≤ chunk_size s) as Hcs by (by destruct Hwf as (_ & _ & _ & _ & ? & _)).
  assert (1 ≤ m) as Hm by (by apply Hwf).
  destruct (decide (key - max_key s >= m)) as [Hfar|Hnear].
  { rewrite (collapsing_grow_right_reset s m) in Hg by done.
    injection Hg as <-. split; [right; store_simpl; lia|]. intros k.
    rewrite counter_reset by done. store_simpl.
    destruct (decide (k = key - m + 1)) as [-> |Hne].
    - rewrite cumulative_high by (done || lia). repeat case_decide; lia.
    - destruct (decide (k < key - m + 1)); [repeat case_decide; lia|].
      rewrite counter_outside by lia. repeat case_decide; lia. }
  destruct (decide (key - min_key s >= m)) as [Hshift|Hfit].
  { rewrite (collapsing_grow_right_shift s m) in Hg by (done || lia).
    cbv zeta in Hg. injection Hg as <-. split; [right; store_simpl; lia|].
    intros k. rewrite counter_shift by (done || lia). store_simpl.
    destruct (decide (k = key - m + 1)) as [-> |Hne]; repeat case_decide; lia. }
  rewrite (collapsing_grow_right_chunk s m) in Hg by (done || lia).
  cbv zeta in Hg. injection Hg as <-.
  pose proof (grow_by_bounds s (key - max_key s) Hcs).
  split; [left; store_simpl; lia|]. intros k.
  rewrite counter_append by (done || lia).
  store_simpl. destruct (decide (k < min_key s)).
  { by apply counter_outside; lia. }
  destruct (decide (k = min_key s)) as [-> |Hne]; [|done].
  symmetry. apply cumulative_min. lia.
Qed.

(** The loop of [merge] from the first key both arrays have. *)
Lemma add_bins_counter_from s o :
  len (bins s) = max_key s - min_key s + 1 →
  len (bins o) = max_key o - min_key o + 1 →
  max_key o ≤ max_key s →
  let lo := Z.max (min_key s) (min_key o) in
  ∃ b, add_bins (bins s) (bins o) (min_key s) (min_key o)
         (range lo (max_key o + 1)) = Ok b ∧
    len b = len (bins s) ∧
    ∀ k, counter (set_bins b s) k =
         counter s k + (if decide (lo ≤ k) then counter o k else 0).
Proof.
  intros Hs Ho Hmax lo. unfold range.
  destruct (add_bins_pointwise (bins o) (min_key s) (min_key o)
              (Z.to_nat (max_key o + 1 - lo)) lo (bins s))
    as (b & Hrun & Hlen & Hget); [lia|].
  exists b. split.
  { destruct (decide (lo ≤ max_key o + 1)).
    - by rewrite Z2Nat.id in Hrun by lia.
    - rewrite seqZ_nil by lia.
      replace (Z.to_nat (max_key o + 1 - lo)) with 0%nat in Hrun by lia.
      by rewrite seqZ_nil in Hrun by lia. }
  split; [unfold len; lia|].
  intros k. unfold counter. store_simpl.
  destruct (decide (min_key s ≤ k ≤ max_key s)).
  - rewrite Hget.
    replace (Z.of_nat (Z.to_nat (k - min_key s)) + min_key s) with k by lia.
    destruct (decide (lo ≤ k)).
    + destruct (decide (min_key o ≤ k ≤ max_key o)).
      * rewrite decide_True by lia. done.
      * rewrite decide_False by lia. done.
    + rewrite decide_False by lia. done.
  - destruct (decide (lo ≤ k)); [|lia].
    rewrite decide_False by lia. lia.
Qed.

Lemma collapsing_merge_step s o m :
  well_formed s → well_formed o → max_bins s = Some m →
  count s ≠ 0 → count o ≠ 0 → len (bins o) ≤ m →
  ∃ s', merge s o = Ok s' ∧
    (len (bins s) ≤ m →
     (min_key s' < min_key s → len (bins s) < m) ∧
     (min_key s' < min_key o → len (bins o) < m)) ∧
    ∀ k, counter s' k =
         if decide (k < min_key s') then 0
         else if decide (k = min_key s') then cumulative s k + cumulative o k
         else counter s k + counter o k.
Proof.
  intros Hs Ho Em Hcs Hco Hlo.
  destruct (counted_nonempty s Hs Hcs) as [Hposs Hlens].
  destruct (counted_nonempty o Ho Hco) as [Hposo Hleno].
  unfold merge. rewrite !decide_False by done.
  destruct (decide (max_key s > max_key o)) as [Hgt|Hle].
  - unfold merge_below.
    assert (∃ s0,
      (if decide (min_key o < min_key s) then _grow_left s (min_key o) else Ok s)
        = Ok s0 ∧
      well_formed s0 ∧ count s0 = count s ∧ max_key s0 = max_key s ∧
      min_key s0 ≤ min_key s ∧
      (min_key s0 < min_key s → len (bins s) < m) ∧
      len (bins s0) ≤ Z.max (len (bins s)) m ∧
      ∀ k, counter s0 k = counter s k)
      as (s0 & -> & Hs0 & Hc0 & Hmax0 & Hmin0 & Hroom & Hcap & Hk0).
    { destruct (decide (min_key o < min_key s)).
      - destruct (grow_left_well_formed s (min_key o) Hs Hcs)
          as (s0 & Hg & ? & _ & ? & ? & _).
        destruct (grow_left_preserves_counters s _ s0 Hs Hcs Hg).
        destruct (collapsing_grow_left_length s m _ s0 Hs Hcs Em Hg) as [? _].
        exists s0. do 5 (split; [done|]). split; [|done]. intros Hlt.
        destruct (decide (len (bins s) >= m)); [|lia].
        rewrite (collapsing_grow_left_full s m) in Hg by done.
        injection Hg as <-. lia.
      - exists s. do 2 (split; [done|]). repeat split; try done; lia. }
    simpl. rewrite <- Hc0 in Hcs.
    destruct (counted_nonempty s0 Hs0 Hcs) as [Hpos0 Hlen0].
    destruct (add_bins_counter_from s0 o) as (b & -> & Hlb & Hk); try done; try lia.
    simpl. store_simpl.
    assert (∀ k, cumulative s k = cumulative s0 k ∧
                 (k ≤ min_key s0 → cumulative s k = counter s k)) as Hcum.
    { intros k. split.
      - destruct (decide (k < min_key s0)).
        + by rewrite !cumulative_low by lia.
        + clear Hk. revert k n.
          assert (∀ j : nat, cumulative s (min_key s0 + Z.of_nat j) =
                             cumulative s0 (min_key s0 + Z.of_nat j)) as Hj.
          { induction j as [|j IH].
            - rewrite Z.add_0_r.
              rewrite (cumulative_at_or_below_min s) by lia.
              rewrite cumulative_min by lia. by rewrite Hk0.
            - rewrite (cumulative_succ s), (cumulative_succ s0) by done.
              replace (min_key s0 + Z.of_nat (S j) - 1)
                with (min_key s0 + Z.of_nat j) by lia.
              by rewrite IH, Hk0. }
          intros k Hk.
          replace k with (min_key s0 + Z.of_nat (Z.to_nat (k - min_key s0))) by lia.
          apply Hj.
      - intros Hk'. apply cumulative_at_or_below_min; lia. }
    destruct (decide (min_key s0 > min_key o)) as [Hfold|Hnofold].
    + rewrite py_iadd_nonneg by lia. simpl. eexists. split; [done|].
      split; [simpl; intros; split; [done|lia]|].
      unfold py_slice_to. rewrite decide_True by lia.
      assert (sumZ (take (Z.to_nat (min_key s0 - min_key o)) (bins o)) =
              cumulative o (min_key s0 - 1)) as ->.
      { unfold cumulative. do 2 f_equal. lia. }
      intros k. pose proof (Hk k) as Hb. rewrite Hk0 in Hb.
      unfold counter at 1 in Hb. unfold counter at 1. simpl in *.
      destruct (decide (min_key s0 ≤ k ≤ max_key s0)) as [Hin|Hout].
      * rewrite lookup_incr by (unfold len in *; lia). rewrite Hb.
        destruct (decide (k = min_key s0)) as [-> |Hne].
        -- rewrite (proj2 (Hcum (min_key s0))) by lia.
           rewrite (cumulative_succ o (min_key s0)) by done.
           repeat case_decide; lia.
        -- repeat case_decide; lia.
      * destruct (decide (k < min_key s0)); [done|].
        rewrite !counter_outside by lia. repeat case_decide; lia.
    + eexists. split; [done|].
      split; [simpl; intros; split; [done|lia]|].
      intros k. store_simpl.
      change (counter (set_bins b s0) k =
        (if decide (k < min_key s0) then 0
         else if decide (k = min_key s0) then cumulative s k + cumulative o k
         else counter s k + counter o k)).
      rewrite Hk, Hk0.
      destruct (decide (k < min_key s0)).
      { rewrite !counter_outside by lia. repeat case_decide; lia. }
      destruct (decide (k = min_key s0)) as [-> |Hne].
      * rewrite (proj2 (Hcum (min_key s0))) by lia.
        rewrite (cumulative_at_or_below_min o) by lia.
        destruct (decide (Z.max (min_key s0) (min_key o) ≤ min_key s0)); [done|].
        rewrite (counter_outside o) by lia. done.
      * destruct (decide (Z.max (min_key s0) (min_key o) ≤ k)); [done|].
        rewrite (counter_outside o) by lia. done.
  - destruct (decide (min_key o < min_key s)) as [Hlt|Hge].
    + unfold merge_inside.
      destruct (add_bins_counter_from o s) as (b & Hb & _ & Hk); try done; try lia.
      replace (Z.max (min_key o) (min_key s)) with (min_key s) in * by lia.
      rewrite Hb. simpl. eexists. split; [done|].
      split; [simpl; lia|].
      intros k. store_simpl.
      specialize (Hk k). unfold counter in Hk |- *. store_simpl. rewrite Hk.
      clear Hk. fold (counter s k). fold (counter o k).
      destruct (decide (k < min_key o)).
      { rewrite !counter_outside by lia. repeat case_decide; lia. }
      destruct (decide (k = min_key o)) as [-> |Hne].
      * rewrite (cumulative_low s) by lia. rewrite (cumulative_min o) by lia.
        rewrite (counter_outside s) by lia. repeat case_decide; lia.
      * destruct (decide (min_key s ≤ k)); [lia|].
        rewrite (counter_outside s) by lia. lia.
    + unfold merge_above.
      destruct (grow_right_well_formed s (max_key o) Hs Hcs)
        as (s0 & Hg & Hs0 & _ & Hc0 & Hmax0).
      destruct (collapsing_grow_right_folds s m (max_key o) s0 Hs Hcs Em ltac:(lia) Hg)
        as (Hmin0 & Hk0).
      rewrite Hg. simpl. rewrite <- Hc0 in Hcs.
      destruct (counted_nonempty s0 Hs0 Hcs) as [_ Hlen0].
      destruct (add_bins_counter s0 o) as (b & -> & _ & Hk); try done; try lia.
      simpl. eexists. split; [done|].
      split; [simpl; lia|].
      intros k. store_simpl.
      change (counter (set_bins b s0) k =
        (if decide (k < min_key s0) then 0
         else if decide (k = min_key s0) then cumulative s k + cumulative o k
         else counter s k + counter o k)).
      rewrite Hk, Hk0.
      destruct (decide (k < min_key s0)).
      { rewrite (counter_outside o) by lia. done. }
      destruct (decide (k = min_key s0)) as [-> |Hne]; [|done].
      rewrite (cumulative_at_or_below_min o) by lia. done.
Qed.

End merge_step.

(** X21: merging, in range, a non-empty store with at most [max_bins] bins
    into a non-empty [CollapsingLowestDenseStore], both reached by calls in
    range, returns, and folds downwards only: the bin at the new [min_key]
    holds all the mass either store had at or below that key, every key
    above it holds the sum of the two counters, and no mass is moved to a
    higher key. *)
Theorem merge_folds_only_downwards s o m :
  reachable_in_range s → reachable_in_range o → max_bins s = Some m →
  0 < count s → 0 < count o → DenseStore.length o ≤ m →
  merge_in_range s o →
  ∃ s', merge s o = Ok s' ∧
    ∀ k, counter s' k =
         if decide (k < min_key s') then 0
         else if decide (k = min_key s') then cumulative s k + cumulative o k
         else counter s k + counter o k.
Proof.
  intros Hr Hro Em Hc Hco Hlo _.
  destruct (collapsing_merge_step s o m) as (s' & Hm & _ & Hk);
    try (by apply reachable_in_range_well_formed); try done; try lia.
  by exists s'.
Qed.

Lemma merge_folds_only_downwards_witness :
  let s := mkStore (Some 3) 3 128 3 2 (-2) 0 [1; 0; 1] in
  let o := mkStore (Some 3) 3 128 3 1 (-1) 1 [0; 0; 1] in
  ∃ s', merge s o = Ok s' ∧
    ∀ k, counter s' k =
         if decide (k < min_key s') then 0
         else if decide (k = min_key s') then cumulative s k + cumulative o k
         else counter s k + counter o k.
Proof.
  intros s o. apply (merge_folds_only_downwards s o 3).
  - apply (in_range_add (mkStore (Some 3) 3 128 3 1 (-2) 0 [0; 0; 1]) (-2));
      [|in_range|reflexivity].
    apply (in_range_add (CollapsingLowestDenseStore.__init__ 3 128 128) 0);
      [|in_range|reflexivity].
    apply in_range_collapsing; lia.
  - apply (in_range_add (CollapsingLowestDenseStore.__init__ 3 128 128) 1);
      [|in_range|reflexivity].
    apply in_range_collapsing; lia.
  - reflexivity.
  - simpl. lia.
  - simpl. lia.
  - unfold DenseStore.length, len. simpl. lia.
  - in_range.
Defined.

Section merged_runs.
Implicit Types (s o : Store) (k m : Z) (keys : list Z).

(** Where nothing has been folded below [k], the cumulative count of a store
    that holds a run is the number of keys of the run at or below [k]. *)
Lemma collapsed_view_cumulative m s keys k :
  collapsed_view m s keys →
  min_key s ≤ k ∨ len (bins s) < m →
  cumulative s k = below k keys.
Proof.
  intros (Hwf & _ & Hcnt & Hnz & Hf & Hroom) Hk.
  destruct (counted_nonempty s Hwf Hnz) as [Hpos Hlen].
  destruct (decide (k < min_key s)).
  { destruct Hk as [?|Hlt]; [lia|].
    rewrite cumulative_low by done. symmetry.
    by apply (below_none k (min_key s - 1) keys (Hroom Hlt) ltac:(lia)). }
  destruct (decide (k ≤ max_key s)).
  { apply folded_cumulative; (done || lia). }
  rewrite cumulative_high by (done || lia).
  assert (below (max_key s) keys = len keys) as Hall.
  { rewrite <- (folded_cumulative s keys (max_key s)) by (done || lia).
    rewrite cumulative_high by (done || lia). done. }
  rewrite Hcnt. symmetry.
  by apply (below_all k (max_key s) keys Hall ltac:(lia)).
Qed.

Lemma collapsed_view_counter m s keys k :
  collapsed_view m s keys →
  min_key s < k ∨ len (bins s) < m →
  counter s k = occurrences k keys.
Proof.
  intros (Hwf & _ & Hcnt & Hnz & Hf & Hroom) Hk. rewrite (Hf k).
  destruct (decide (k < min_key s)).
  { destruct Hk as [?|Hlt]; [lia|]. symmetry.
    by apply (below_none k (min_key s - 1) keys (Hroom Hlt) ltac:(lia)). }
  destruct (decide (k = min_key s)) as [-> |?]; [|done].
  destruct Hk as [?|Hlt]; [lia|].
  rewrite (below_succ (min_key s)), (Hroom Hlt). lia.
Qed.

End merged_runs.

(** X22: merging two [CollapsingLowestDenseStore]s with the same [max_bins],
    each holding a non-empty run of keys in at most [max_bins] bins, leaves
    the target holding the concatenation of the two runs folded at its new
    [min_key]: every key above [min_key] has the occurrences of both runs,
    the bin at [min_key] holds all the keys of both runs at or below it, and
    [count] is the total number of keys.  The keys and [max_bins] are at
    most [2^50] in absolute value and the two runs have fewer than [2^63]
    keys together, which keeps every call of the runs and the merge in
    range ([small_run_in_range], [small_merge_in_range]). *)
Theorem collapsing_merge_holds_both_runs m n1 c1 n2 c2 keys1 keys2 s o :
  1 ≤ m ≤ 2 ^ 50 → 1 ≤ c1 → 1 ≤ c2 → keys1 ≠ [] → keys2 ≠ [] →
  Forall small keys1 → Forall small keys2 →
  len keys1 + len keys2 < 2 ^ 63 →
  add_all (CollapsingLowestDenseStore.__init__ m n1 c1) keys1 = Ok s →
  add_all (CollapsingLowestDenseStore.__init__ m n2 c2) keys2 = Ok o →
  DenseStore.length s ≤ m → DenseStore.length o ≤ m →
  ∃ s', merge s o = Ok s' ∧
    count s' = len keys1 + len keys2 ∧
    ∀ k, counter s' k =
         if decide (k < min_key s') then 0
         else if decide (k = min_key s') then below k (keys1 ++ keys2)
         else occurrences k (keys1 ++ keys2).
Proof.
  intros [Hm _] Hc1 Hc2 Hne1 Hne2 _ _ _ Hs Ho Hls Hlo.
  destruct (collapsed_view_run m n1 c1 keys1 Hm Hc1 Hne1) as (s1 & Hs' & Hvs).
  destruct (collapsed_view_run m n2 c2 keys2 Hm Hc2 Hne2) as (o1 & Ho' & Hvo).
  assert (∀ a b : Store, Ok a = Ok b → a = b) as Hinj by congruence.
  rewrite Hs in Hs'. apply Hinj in Hs'. subst s1.
  rewrite Ho in Ho'. apply Hinj in Ho'. subst o1. clear Hinj.
  pose proof Hvs as (Hws & Ems & Hcs & Hnzs & _ & _).
  pose proof Hvo as (Hwo & _ & Hco & Hnzo & _ & _).
  unfold DenseStore.length in Hls, Hlo.
  destruct (collapsing_merge_step s o m Hws Hwo Ems Hnzs Hnzo Hlo)
    as (s' & Hmerge & Hwin & Hk).
  destruct (Hwin Hls) as [Hrs Hro].
  exists s'. split; [done|]. split.
  { rewrite (merge_count s o s' Hws Hwo Hmerge). lia. }
  intros k. rewrite (Hk k).
  destruct (decide (k < min_key s')); [done|].
  destruct (decide (k = min_key s')) as [-> |Hne].
  - rewrite below_app.
    rewrite (collapsed_view_cumulative m s keys1) by (done || lia).
    rewrite (collapsed_view_cumulative m o keys2) by (done || lia).
    done.
  - rewrite occurrences_app.
    rewrite (collapsed_view_counter m s keys1) by (done || lia).
    rewrite (collapsed_view_counter m o keys2) by (done || lia).
    done.
Qed.

Lemma collapsing_merge_holds_both_runs_witness :
  ∃ s', merge (mkStore (Some 3) 3 128 3 2 8 10 [1; 0; 1])
              (mkStore (Some 3) 3 128 3 2 10 12 [0; 1; 1]) = Ok s' ∧
    count s' = len [0; 10] + len [11; 12] ∧
    ∀ k, counter s' k =
         if decide (k < min_key s') then 0
         else if decide (k = min_key s') then below k ([0; 10] ++ [11; 12])
         else occurrences k ([0; 10] ++ [11; 12]).
Proof.
  apply (collapsing_merge_holds_both_runs 3 128 128 128 128 [0; 10] [11; 12]);
    try lia; try done; try (repeat constructor; in_range);
    unfold DenseStore.length, len; simpl; lia.
Defined.
